(** * winlsa: logon-session marshaling over the Windows LSA interfaces

    A shallow embedding of [winlsa.go].  Pure helpers ([LogonType.String],
    [timeFromUint64]) are Rocq functions over [Z] with the machine
    wrap-around written out; the code that walks native memory and calls
    the LSA entry points lives in a small state-and-panic monad over a
    [World] made of the native memory, the Go heap and a trace of the
    calls and loads performed. *)

From Stdlib Require Import ZArith String Ascii List Lia.
From Stdlib Require Import DecimalString DecimalN DecimalPos.
From stdpp Require Import base option list gmap strings.

Local Open Scope Z_scope.

(** ** Machine integers *)

Definition u16 (x : Z) : Z := x mod 2 ^ 16.
Definition u32 (x : Z) : Z := x mod 2 ^ 32.
Definition u64 (x : Z) : Z := x mod 2 ^ 64.

(** Conversion to [int64]: the two's complement reading of the low 64 bits. *)
Definition i64 (x : Z) : Z := (x + 2 ^ 63) mod 2 ^ 64 - 2 ^ 63.

(** ** [fmt.Sprintf("%d", n)] for a non-negative integer *)

Definition fmt_d (n : Z) : string :=
  NilZero.string_of_uint (N.to_uint (Z.to_N n)).

(** ** LogonType *)

Module LogonType.

(** [type LogonType uint32] *)
Definition t := Z.

(** The [iota] block: 0, then 1 skipped by the blank identifier, then
    2 to 13. *)
Definition LogonTypeSystem : t := 0.
Definition LogonTypeInteractive : t := 2.
Definition LogonTypeNetwork : t := 3.
Definition LogonTypeBatch : t := 4.
Definition LogonTypeService : t := 5.
Definition LogonTypeProxy : t := 6.
Definition LogonTypeUnlock : t := 7.
Definition LogonTypeNetworkCleartext : t := 8.
Definition LogonTypeNewCredentials : t := 9.
Definition LogonTypeRemoteInteractive : t := 10.
Definition LogonTypeCachedInteractive : t := 11.
Definition LogonTypeCachedRemoteInteractive : t := 12.
Definition LogonTypeCachedUnlock : t := 13.

(** [func (lt LogonType) String() string]: the switch, case by case in
    source order. *)
Definition String (lt : t) : string :=
  if lt =? LogonTypeSystem then "System"
  else if lt =? LogonTypeInteractive then "Interactive"
  else if lt =? LogonTypeNetwork then "Network"
  else if lt =? LogonTypeBatch then "Batch"
  else if lt =? LogonTypeService then "Service"
  else if lt =? LogonTypeProxy then "Proxy"
  else if lt =? LogonTypeUnlock then "Unlock"
  else if lt =? LogonTypeNetworkCleartext then "NetworkCleartext"
  else if lt =? LogonTypeNewCredentials then "NewCredentials"
  else if lt =? LogonTypeRemoteInteractive then "RemoteInteractive"
  else if lt =? LogonTypeCachedInteractive then "CachedInteractive"
  else if lt =? LogonTypeCachedRemoteInteractive then "CachedRemoteInteractive"
  else if lt =? LogonTypeCachedUnlock then "CachedUnlock"
  else ("Undefined LogonType(" ++ fmt_d lt ++ ")")%string.

(** The thirteen names the switch can return outside its default. *)
Definition names : list string :=
  [ "System"; "Interactive"; "Network"; "Batch"; "Service"; "Proxy";
    "Unlock"; "NetworkCleartext"; "NewCredentials"; "RemoteInteractive";
    "CachedInteractive"; "CachedRemoteInteractive"; "CachedUnlock" ]%string.

(** The values that carry a name. *)
Definition defined (lt : t) : bool := (lt =? 0) || ((2 <=? lt) && (lt <=? 13)).

End LogonType.

(** ** The host time value ([time.Time]) *)

Module time.

(** [loc *Location]: the nil pointer stands for UTC; [Unix] sets
    [Local]. *)
Inductive Location := UTC | Local.

(** [time.Time] without a monotonic reading: [wall] holds the
    nanoseconds within the second, [ext] the seconds since January 1 of
    year 1. *)
Record Time := mkTime { wall : Z; ext : Z; loc : Location }.

(** [time.Time{}] *)
Definition zero : Time := mkTime 0 0 UTC.

(** Seconds from year 1 to 1970. *)
Definition unixToInternal : Z :=
  (1969 * 365 + 1969 / 4 - 1969 / 100 + 1969 / 400) * 86400.

Definition unixTime (sec nsec : Z) : Time :=
  mkTime nsec (i64 (sec + unixToInternal)) Local.

(** [func Unix(sec int64, nsec int64) Time]; Go's [/] truncates, hence
    [Z.quot]. *)
Definition Unix (sec nsec : Z) : Time :=
  if (nsec <? 0) || (1000000000 <=? nsec) then
    let n := Z.quot nsec 1000000000 in
    let sec := i64 (sec + n) in
    let nsec := i64 (nsec - i64 (n * 1000000000)) in
    if nsec <? 0 then unixTime (i64 (sec - 1)) (i64 (nsec + 1000000000))
    else unixTime sec nsec
  else unixTime sec nsec.

(** [func (t Time) IsZero() bool] *)
Definition IsZero (t : Time) : bool := (ext t =? 0) && (wall t =? 0).

(** The instant as a count of nanoseconds since the Unix epoch
    ([UnixNano] without its wrap-around). *)
Definition unix_nanos (t : Time) : Z :=
  (ext t - unixToInternal) * 1000000000 + wall t.

End time.

(** ** [timeFromUint64] *)

Definition windowsEpoch : Z := 116444736000000000.

(** [^uint64(0)>>1] *)
Definition never : Z := Z.shiftr (u64 (Z.lnot 0)) 1.

Definition timeFromUint64 (nsec : Z) : time.Time :=
  if (nsec =? 0) || (nsec =? never) then time.zero
  else time.Unix 0 (i64 (i64 (u64 (nsec - windowsEpoch)) * 100)).


(** ** Native records (package [internal/lsa]) *)

Module lsa.

(** Modelled from the spec: [lsa.LUID] is declared in [internal/lsa],
    which is not among the sources.  The native records are fixed-size;
    the Windows declaration is taken: [LowPart uint32], [HighPart int32],
    eight bytes, little endian. *)
Record LUID := mkLUID { LowPart : Z; HighPart : Z }.

Definition sizeof_LUID : Z := 8.

(** Modelled from the spec: [lsa.LSA_UNICODE_STRING] is declared in
    [internal/lsa].  An embedded UTF-16 string descriptor: [Length] and
    [MaximumLength] are [uint16] byte counts, [Buffer] is the [uintptr]
    the code compares with 0 and stores in the slice header. *)
Record LSA_UNICODE_STRING :=
  mkLSA_UNICODE_STRING { Length : Z; MaximumLength : Z; Buffer : Z }.

(** Modelled from the spec: [lsa.LSA_LAST_INTER_LOGON_INFO], with the
    three fields [newLogonSessionData] reads. *)
Record LSA_LAST_INTER_LOGON_INFO := mkLSA_LAST_INTER_LOGON_INFO {
  LastSuccessfulLogon : Z;
  LastFailedLogon : Z;
  FailedAttemptCountSinceLastSuccessfulLogon : Z }.

(** Modelled from the spec: [lsa.SECURITY_LOGON_SESSION_DATA], with the
    fields [newLogonSessionData] reads.  [Sid] is the native pointer,
    0 for nil; the time stamps are [uint64]. *)
Record SECURITY_LOGON_SESSION_DATA := mkSECURITY_LOGON_SESSION_DATA {
  UserName : LSA_UNICODE_STRING;
  LogonDomain : LSA_UNICODE_STRING;
  AuthenticationPackage : LSA_UNICODE_STRING;
  LogonType : Z;
  Session : Z;
  Sid : Z;
  LogonTime : Z;
  LogonServer : LSA_UNICODE_STRING;
  DnsDomainName : LSA_UNICODE_STRING;
  Upn : LSA_UNICODE_STRING;
  UserFlags : Z;
  LastLogonInfo : LSA_LAST_INTER_LOGON_INFO;
  LogonScript : LSA_UNICODE_STRING;
  ProfilePath : LSA_UNICODE_STRING;
  HomeDirectory : LSA_UNICODE_STRING;
  HomeDirectoryDrive : LSA_UNICODE_STRING;
  LogoffTime : Z;
  KickOffTime : Z;
  PasswordLastSet : Z;
  PasswordCanChange : Z;
  PasswordMustChange : Z }.

End lsa.

(** [type LUID = lsa.LUID] *)
Definition LUID : Type := lsa.LUID.

(** ** Pointers, slices and the host structure *)

(** A Go pointer: nil, an address of native (LSA-owned) memory, or a
    reference to an object of the Go heap. *)
Inductive pointer := Nil | Native (addr : Z) | Managed (n : nat).

(** A slice header: [Data], [Len], [Cap]. *)
Record slice := mkslice { Data : pointer; Len : Z; Cap : Z }.

(** The nil slice. *)
Definition nil_slice : slice := mkslice Nil 0 0.

Record LogonSessionData := mkLogonSessionData {
  UserName : string;
  LogonDomain : string;
  AuthenticationPackage : string;
  LogonType : LogonType.t;
  Session : Z;
  Sid : pointer;
  LogonTime : time.Time;
  LogonServer : string;
  DnsDomainName : string;
  Upn : string;
  UserFlags : Z;
  LastSuccessfulLogon : time.Time;
  LastFailedLogon : time.Time;
  FailedAttemptCountSinceLastSuccessfulLogon : Z;
  LogonScript : string;
  ProfilePath : string;
  HomeDirectory : string;
  HomeDirectoryDrive : string;
  LogoffTime : time.Time;
  KickOffTime : time.Time;
  PasswordLastSet : time.Time;
  PasswordCanChange : time.Time;
  PasswordMustChange : time.Time }.

(** An object of the Go heap: the backing array of a [[]LUID], the
    backing array of a [[]byte] (a copied SID), or a [LogonSessionData]. *)
Inductive object :=
| LuidArray (l : list LUID)
| ByteArray (b : list Byte.byte)
| SessionObject (d : LogonSessionData).

(** ** UTF-16 to string ([syscall.UTF16ToString], Go 1.21 and later)

    Since Go 1.21 [syscall.UTF16ToString] decodes with [decodeWTF16]
    ([syscall/wtf8_windows.go]): a surrogate pair gives one rune, which
    [utf8.AppendRune] encodes; a surrogate without its partner is kept,
    as the three bytes of its WTF-8 form, and not replaced by U+FFFD. *)

Definition surr1 : Z := 0xd800.
Definition surr2 : Z := 0xdc00.
Definition surr3 : Z := 0xe000.
Definition surrSelf : Z := 0x10000.
Definition replacementChar : Z := 0xFFFD.

(** [utf16.DecodeRune(r1, r2)] *)
Definition utf16_DecodeRune (r1 r2 : Z) : Z :=
  if (surr1 <=? r1) && (r1 <? surr2) && (surr2 <=? r2) && (r2 <? surr3)
  then Z.lor (Z.shiftl (r1 - surr1) 10) (r2 - surr2) + surrSelf
  else replacementChar.

Definition chr (x : Z) : ascii := ascii_of_N (Z.to_N x).

(** [utf8.AppendRune(p, r)]: the bytes appended for the rune [r]. *)
Definition utf8_AppendRune (r : Z) : list ascii :=
  if r <=? 0x7F then [chr r]
  else if r <=? 0x7FF then
    [chr (Z.lor 0xC0 (Z.shiftr r 6)); chr (Z.lor 0x80 (Z.land r 0x3F))]
  else
    let r := if (0x10FFFF <? r) || ((surr1 <=? r) && (r <? surr3))
             then replacementChar else r in
    if r <=? 0xFFFF then
      [chr (Z.lor 0xE0 (Z.shiftr r 12));
       chr (Z.lor 0x80 (Z.land (Z.shiftr r 6) 0x3F));
       chr (Z.lor 0x80 (Z.land r 0x3F))]
    else
      [chr (Z.lor 0xF0 (Z.shiftr r 18));
       chr (Z.lor 0x80 (Z.land (Z.shiftr r 12) 0x3F));
       chr (Z.lor 0x80 (Z.land (Z.shiftr r 6) 0x3F));
       chr (Z.lor 0x80 (Z.land r 0x3F))].

(** The WTF-8 fallback of [decodeWTF16]: the three-byte form of the code
    unit [r] as it stands,
    [t3|byte(ar>>12), tx|byte(ar>>6)&maskx, tx|byte(ar)&maskx], where
    [ar] is [r], or [utf8.RuneError] should [r] exceed [utf8.MaxRune]. *)
Definition wtf8_surrogate (r : Z) : list ascii :=
  let ar := if 0x10FFFF <? r then replacementChar else r in
  [chr (Z.lor 0xE0 (Z.shiftr ar 12));
   chr (Z.lor 0x80 (Z.land (Z.shiftr ar 6) 0x3F));
   chr (Z.lor 0x80 (Z.land ar 0x3F))].

(** [decodeWTF16(s, buf)]: the bytes appended for the code units [s]. *)
Fixpoint decodeWTF16 (s : list Z) : list ascii :=
  match s with
  | [] => []
  | r :: rest =>
      if (r <? surr1) || (surr3 <=? r) then utf8_AppendRune r ++ decodeWTF16 rest
      else
        match rest with
        | r2 :: rest' =>
            if (surr1 <=? r) && (r <? surr2) && (surr2 <=? r2) && (r2 <? surr3)
            then utf8_AppendRune (utf16_DecodeRune r r2) ++ decodeWTF16 rest'
            else wtf8_surrogate r ++ decodeWTF16 rest
        | [] => wtf8_surrogate r
        end
  end.

(** The Go string made of the bytes [decodeWTF16] produced. *)
Definition string_of_units (us : list Z) : string :=
  string_of_list_ascii (decodeWTF16 us).

(** ** The world: native memory, Go heap, and the trace of a run *)

Section World.

(** Go's [error] values, as returned by the [lsa] wrappers. *)
Context {error : Type}.

(** What a run does that can be observed from outside: the three LSA
    calls with their results, the two procedures of [advapi32] that
    [windows.SID.Copy] calls on a native SID, and the accesses to native
    memory (one event per byte loaded or stored, one per record
    dereferenced). *)
Inductive Event :=
| EvEnumerate (r : error + Z * Z)
| EvGetData (luid : pointer) (r : error + Z)
| EvFree (buffer : Z) (r : option error)
| EvGetLengthSid (sid : Z)
| EvCopySid (len : Z) (sid : Z)
| EvLoad (addr : Z)
| EvDeref (addr : Z)
| EvStore (addr : Z).

Record World := mkWorld {
  bytes : gmap Z Byte.byte;
  sessions : gmap Z lsa.SECURITY_LOGON_SESSION_DATA;
  heap : list object;
  trace : list Event }.

(** A run returns a value or panics (a fault on unmapped native memory,
    a nil dereference, an index out of range). *)
Inductive Res (A : Type) : Type :=
| Returned (a : A) (w : World)
| Panicked (w : World).
Arguments Returned {A} a w.
Arguments Panicked {A} w.

Definition M (A : Type) : Type := World -> Res A.

#[global] Instance M_ret : MRet M := fun A a w => Returned a w.

#[global] Instance M_bind : MBind M := fun A B k m w =>
  match m w with
  | Returned a w' => k a w'
  | Panicked w' => Panicked w'
  end.

Definition panic {A} : M A := fun w => Panicked w.

Definition log (e : Event) : M unit := fun w =>
  Returned tt (mkWorld (bytes w) (sessions w) (heap w) (trace w ++ [e])).

Definition world_of {A} (r : Res A) : World :=
  match r with Returned _ w => w | Panicked w => w end.

(** *** Loads from native memory *)

Definition load8 (addr : Z) : M Z := fun w =>
  match bytes w !! addr with
  | Some b => (log (EvLoad addr);; mret (Z.of_N (Byte.to_N b))) w
  | None => (log (EvLoad addr);; panic) w
  end.

Definition load_byte (addr : Z) : M Byte.byte := fun w =>
  match bytes w !! addr with
  | Some b => (log (EvLoad addr);; mret b) w
  | None => (log (EvLoad addr);; panic) w
  end.

(** Little-endian loads. *)
Definition load16 (addr : Z) : M Z :=
  b0 ← load8 addr; b1 ← load8 (addr + 1);
  mret (Z.lor b0 (Z.shiftl b1 8)).

Definition load32 (addr : Z) : M Z :=
  lo ← load16 addr; hi ← load16 (addr + 2);
  mret (Z.lor lo (Z.shiftl hi 16)).

Definition i32 (x : Z) : Z := (x + 2 ^ 31) mod 2 ^ 32 - 2 ^ 31.

Definition load_LUID (addr : Z) : M LUID :=
  lo ← load32 addr; hi ← load32 (addr + 4);
  mret (lsa.mkLUID lo (i32 hi)).

Fixpoint load_bytes (n : nat) (addr : Z) : M (list Byte.byte) :=
  match n with
  | O => mret []
  | S n' => b ← load_byte addr; bs ← load_bytes n' (addr + 1); mret (b :: bs)
  end.

(** [*data] for [data *lsa.SECURITY_LOGON_SESSION_DATA]. *)
Definition deref_session (p : Z) : M lsa.SECURITY_LOGON_SESSION_DATA := fun w =>
  match sessions w !! p with
  | Some d => (log (EvDeref p);; mret d) w
  | None => (log (EvDeref p);; panic) w
  end.

(** *** The Go heap *)

(** Allocation: the new object gets the next free reference. *)
Definition alloc (o : object) : M pointer := fun w =>
  Returned (Managed (length (heap w)))
           (mkWorld (bytes w) (sessions w) (heap w ++ [o]) (trace w)).

(** [make([]LUID, n)] *)
Definition make_LUIDs (n : Z) : M slice :=
  p ← alloc (LuidArray (replicate (Z.to_nat n) (lsa.mkLUID 0 0)));
  mret (mkslice p n n).

(** [s[idx]] for a [[]LUID]: bounds check, then a load from wherever the
    slice header points. *)
Definition index_LUID (s : slice) (idx : Z) : M LUID :=
  if (0 <=? idx) && (idx <? Len s) then
    match Data s with
    | Native a => load_LUID (a + lsa.sizeof_LUID * idx)
    | Managed n => fun w =>
        match heap w !! n with
        | Some (LuidArray l) =>
            match l !! Z.to_nat idx with
            | Some v => Returned v w
            | None => Panicked w
            end
        | _ => Panicked w
        end
    | Nil => panic
    end
  else panic.

(** Stores to native memory, byte by byte. *)
Definition byte_of (x : Z) : Byte.byte :=
  default Byte.x00 (Byte.of_N (Z.to_N (x mod 256))).

Definition store8 (addr : Z) (x : Z) : M unit := fun w =>
  match bytes w !! addr with
  | Some _ =>
      Returned tt (mkWorld (<[addr := byte_of x]> (bytes w)) (sessions w) (heap w)
                     (trace w ++ [EvStore addr]))
  | None => (log (EvStore addr);; panic) w
  end.

Definition store32 (addr : Z) (x : Z) : M unit :=
  store8 addr x;; store8 (addr + 1) (Z.shiftr x 8);;
  store8 (addr + 2) (Z.shiftr x 16);; store8 (addr + 3) (Z.shiftr x 24).

(** [s[idx] = v] for a [[]LUID]. *)
Definition store_LUID (s : slice) (idx : Z) (v : LUID) : M unit :=
  if (0 <=? idx) && (idx <? Len s) then
    match Data s with
    | Managed n => fun w =>
        match heap w !! n with
        | Some (LuidArray l) =>
            Returned tt (mkWorld (bytes w) (sessions w)
                           (<[n := LuidArray (<[Z.to_nat idx := v]> l)]> (heap w))
                           (trace w))
        | _ => Panicked w
        end
    | Native a =>
        store32 (a + lsa.sizeof_LUID * idx) (lsa.LowPart v);;
        store32 (a + lsa.sizeof_LUID * idx + 4) (lsa.HighPart v)
    | Nil => panic
    end
  else panic.

(** *** The LSA entry points

    The wrappers [lsa.LsaEnumerateLogonSessions],
    [lsa.LsaGetLogonSessionData] and [lsa.LsaFreeReturnBuffer] belong to
    [internal/lsa] and end in the operating system.  They are taken as
    parameters: each sees the whole world (history included), answers,
    and leaves the native memory as it pleases.  The Go heap is out of
    their reach. *)
Record LsaApi := mkLsaApi {
  sysEnumerateLogonSessions :
    World -> (error + Z * Z) * (gmap Z Byte.byte * gmap Z lsa.SECURITY_LOGON_SESSION_DATA);
  sysGetLogonSessionData :
    pointer -> World -> (error + Z) * (gmap Z Byte.byte * gmap Z lsa.SECURITY_LOGON_SESSION_DATA);
  sysFreeReturnBuffer :
    Z -> World -> option error * (gmap Z Byte.byte * gmap Z lsa.SECURITY_LOGON_SESSION_DATA) }.

Context (os : LsaApi).

(** [err := lsa.LsaEnumerateLogonSessions(&cnt, &buffer)]: the error, or
    the count ([uint32]) and the buffer ([uintptr]) left in the two
    variables. *)
Definition LsaEnumerateLogonSessions : M (error + Z * Z) := fun w =>
  let '(r, (b, s)) := sysEnumerateLogonSessions os w in
  let r := match r with
           | inl e => inl e
           | inr (cnt, buffer) => inr (u32 cnt, u64 buffer)
           end in
  Returned r (mkWorld b s (heap w) (trace w ++ [EvEnumerate r])).

(** [err := lsa.LsaGetLogonSessionData(luid, &dataBuffer)] *)
Definition LsaGetLogonSessionData (luid : pointer) : M (error + Z) := fun w =>
  let '(r, (b, s)) := sysGetLogonSessionData os luid w in
  Returned r (mkWorld b s (heap w) (trace w ++ [EvGetData luid r])).

(** [err = lsa.LsaFreeReturnBuffer(buffer)] *)
Definition LsaFreeReturnBuffer (buffer : Z) : M (option error) := fun w =>
  let '(r, (b, s)) := sysFreeReturnBuffer os buffer w in
  Returned r (mkWorld b s (heap w) (trace w ++ [EvFree buffer r])).

(** *** Strings *)

(** The first loop of [syscall.UTF16ToString]: walk the slice up to its
    length or to the first NUL, whichever comes first.  [n] is the
    number of elements left. *)
Fixpoint scan_utf16 (n : nat) (addr : Z) : M (list Z) :=
  match n with
  | O => mret []
  | S n' =>
      v ← load16 addr;
      if v =? 0 then mret []
      else rest ← scan_utf16 n' (addr + 2); mret (v :: rest)
  end.

(** [syscall.UTF16ToString(s)] for a slice over native memory. *)
Definition UTF16ToString (s : slice) : M string :=
  match Data s with
  | Native a =>
      units ← scan_utf16 (Z.to_nat (Len s)) a;
      mret (string_of_units units)
  | _ => panic
  end.

Definition stringFromLSAString (s : lsa.LSA_UNICODE_STRING) : M string :=
  if (lsa.Buffer s =? 0) || (lsa.Length s =? 0) then mret ""%string
  else
    let data := mkslice (Native (lsa.Buffer s)) (lsa.Length s) (lsa.Length s) in
    UTF16ToString data.

(** *** The SID

    [golang.org/x/sys/windows]: the method [Copy] of [*SID] is
    [b := make([]byte, GetLengthSid(sid))], then
    [CopySid(uint32(len(b)), sid2, sid)] into that slice.  Both are
    procedures of [advapi32.dll], entered through [syscall]: each call is
    an event of the trace, followed by the bytes of the native SID it
    reads. *)

(** [GetLengthSid(sid)]: 8 bytes, plus 4 for each sub-authority counted
    in the second byte of the SID. *)
Definition GetLengthSid (sid : Z) : M Z :=
  log (EvGetLengthSid sid);;
  cnt ← load8 (sid + 1);
  mret (8 + 4 * cnt).

(** [CopySid(len, dst, sid)]: the [len] bytes it puts into the
    destination; it cannot fail on a destination of [GetLengthSid(sid)]
    bytes. *)
Definition CopySid (len : Z) (sid : Z) : M (list Byte.byte) :=
  log (EvCopySid len sid);;
  load_bytes (Z.to_nat len) sid.

Definition SID_Copy (sid : Z) : M (pointer * option error) :=
  n ← GetLengthSid sid;
  b ← CopySid n sid;
  p ← alloc (ByteArray b);
  mret (p, None).

(** *** newLogonSessionData *)

Definition newLogonSessionData (data : Z) : M pointer :=
  d ← deref_session data;
  sid ← (if negb (lsa.Sid d =? 0)
         then '(sid, _) ← SID_Copy (lsa.Sid d); mret sid
         else mret Nil);
  userName ← stringFromLSAString (lsa.UserName d);
  logonDomain ← stringFromLSAString (lsa.LogonDomain d);
  authenticationPackage ← stringFromLSAString (lsa.AuthenticationPackage d);
  logonServer ← stringFromLSAString (lsa.LogonServer d);
  dnsDomainName ← stringFromLSAString (lsa.DnsDomainName d);
  upn ← stringFromLSAString (lsa.Upn d);
  logonScript ← stringFromLSAString (lsa.LogonScript d);
  profilePath ← stringFromLSAString (lsa.ProfilePath d);
  homeDirectory ← stringFromLSAString (lsa.HomeDirectory d);
  homeDirectoryDrive ← stringFromLSAString (lsa.HomeDirectoryDrive d);
  alloc (SessionObject {|
    UserName := userName;
    LogonDomain := logonDomain;
    AuthenticationPackage := authenticationPackage;
    LogonType := lsa.LogonType d;
    Session := lsa.Session d;
    Sid := sid;
    LogonTime := timeFromUint64 (lsa.LogonTime d);
    LogonServer := logonServer;
    DnsDomainName := dnsDomainName;
    Upn := upn;
    UserFlags := lsa.UserFlags d;
    LogonScript := logonScript;
    ProfilePath := profilePath;
    HomeDirectory := homeDirectory;
    HomeDirectoryDrive := homeDirectoryDrive;
    LogoffTime := timeFromUint64 (lsa.LogoffTime d);
    KickOffTime := timeFromUint64 (lsa.KickOffTime d);
    PasswordLastSet := timeFromUint64 (lsa.PasswordLastSet d);
    PasswordCanChange := timeFromUint64 (lsa.PasswordCanChange d);
    PasswordMustChange := timeFromUint64 (lsa.PasswordMustChange d);
    LastSuccessfulLogon :=
      timeFromUint64 (lsa.LastSuccessfulLogon (lsa.LastLogonInfo d));
    LastFailedLogon :=
      timeFromUint64 (lsa.LastFailedLogon (lsa.LastLogonInfo d));
    FailedAttemptCountSinceLastSuccessfulLogon :=
      lsa.FailedAttemptCountSinceLastSuccessfulLogon (lsa.LastLogonInfo d) |}).

(** *** GetLogonSessions *)

(** [for idx := uint32(0); idx < cnt; idx++ { luids[idx] = data[idx] }];
    [n] is the number of iterations left, [cnt - idx]. *)
Fixpoint copy_LUIDs (n : nat) (idx : Z) (luids data : slice) : M unit :=
  match n with
  | O => mret tt
  | S n' =>
      v ← index_LUID data idx;
      store_LUID luids idx v;;
      copy_LUIDs n' (u32 (idx + 1)) luids data
  end.

Definition GetLogonSessions : M (slice * option error) :=
  r ← LsaEnumerateLogonSessions;
  match r with
  | inl err => mret (nil_slice, Some err)
  | inr (cnt, buffer) =>
      let data := mkslice (Native buffer) cnt cnt in
      luids ← make_LUIDs cnt;
      copy_LUIDs (Z.to_nat cnt) 0 luids data;;
      err ← LsaFreeReturnBuffer buffer;
      match err with
      | Some err => mret (nil_slice, Some err)
      | None => mret (luids, None)
      end
  end.

(** *** GetLogonSessionData *)

Definition GetLogonSessionData (luid : pointer) : M (pointer * option error) :=
  r ← LsaGetLogonSessionData luid;
  match r with
  | inl err => mret (Nil, Some err)
  | inr dataBuffer =>
      sessionData ← newLogonSessionData dataBuffer;
      err ← LsaFreeReturnBuffer dataBuffer;
      match err with
      | Some err => mret (Nil, Some err)
      | None => mret (sessionData, None)
      end
  end.

End World.

Arguments Event : clear implicits.
Arguments World : clear implicits.
Arguments Res : clear implicits.
Arguments M : clear implicits.
Arguments LsaApi : clear implicits.
Arguments Returned {error A} a w.
Arguments Panicked {error A} w.

(** ** Concrete worlds, used to run the model *)

Module Fixture.

(** Status codes stand for errors. *)
Definition error : Type := Z.

(** Native memory holding [l] from [base] upwards. *)
Fixpoint mem_of_list (base : Z) (l : list Byte.byte) : gmap Z Byte.byte :=
  match l with
  | [] => ∅
  | b :: l' => <[base := b]> (mem_of_list (base + 1) l')
  end.

(** An operating system that answers each entry point with a fixed
    result, publishes [mem] and [sess] on a query and unmaps everything
    on a free. *)
Definition scripted (enum_r : error + Z * Z) (data_r : error + Z)
    (free_r : option error) (mem : gmap Z Byte.byte)
    (sess : gmap Z lsa.SECURITY_LOGON_SESSION_DATA) : LsaApi error :=
  {| sysEnumerateLogonSessions := fun _ => (enum_r, (mem, sess));
     sysGetLogonSessionData := fun _ _ => (data_r, (mem, sess));
     sysFreeReturnBuffer := fun _ _ => (free_r, (∅, ∅)) |}.

Definition empty_world : World error := mkWorld ∅ ∅ [] [].

Import Byte.

(** Two LUIDs, 0x3e7 and 0x3e4, at 0x2000. *)
Definition luid_mem : gmap Z byte :=
  Eval vm_compute in
  mem_of_list 0x2000
    [xe7; x03; x00; x00; x00; x00; x00; x00;
     xe4; x03; x00; x00; x00; x00; x00; x00].

(** The SID S-1-5-18. *)
Definition sid_bytes : list byte :=
  [x01; x01; x00; x00; x00; x00; x00; x05; x12; x00; x00; x00].

(** At 0x1000 the code units 'A', 'B', NUL, and at 0x1200 the SID. *)
Definition string_mem_B : gmap Z byte :=
  Eval vm_compute in
  mem_of_list 0x1000 [x41; x00; x42; x00; x00; x00] ∪ mem_of_list 0x1200 sid_bytes.

(** The same, with 'C' for 'B'. *)
Definition string_mem_C : gmap Z byte :=
  Eval vm_compute in
  mem_of_list 0x1000 [x41; x00; x43; x00; x00; x00] ∪ mem_of_list 0x1200 sid_bytes.

(** At 0x1000 the code unit 0xD800, a high surrogate without its
    partner, then 'A' and NUL. *)
Definition string_mem_surrogate : gmap Z byte :=
  Eval vm_compute in
  mem_of_list 0x1000 [x00; xd8; x41; x00; x00; x00].

(** 'A', NUL, 'B' at 0x1000. *)
Definition string_mem_NUL : gmap Z byte :=
  Eval vm_compute in
  mem_of_list 0x1000 [x41; x00; x00; x00; x42; x00].

Definition all_mem : gmap Z byte :=
  Eval vm_compute in luid_mem ∪ string_mem_B.

Definition no_string : lsa.LSA_UNICODE_STRING := lsa.mkLSA_UNICODE_STRING 0 0 0.

(** A descriptor for the one code unit 'A' at 0x1000: two bytes. *)
Definition string_A : lsa.LSA_UNICODE_STRING := lsa.mkLSA_UNICODE_STRING 2 2 0x1000.

(** A descriptor for 'A', 'B' at 0x1000, with room for the NUL. *)
Definition string_AB : lsa.LSA_UNICODE_STRING := lsa.mkLSA_UNICODE_STRING 4 6 0x1000.

Definition session (user : lsa.LSA_UNICODE_STRING) : lsa.SECURITY_LOGON_SESSION_DATA :=
  {| lsa.UserName := user;
     lsa.LogonDomain := no_string;
     lsa.AuthenticationPackage := no_string;
     lsa.LogonType := 2;
     lsa.Session := 1;
     lsa.Sid := 0x1200;
     lsa.LogonTime := 133000000000000000;
     lsa.LogonServer := no_string;
     lsa.DnsDomainName := no_string;
     lsa.Upn := no_string;
     lsa.UserFlags := 0;
     lsa.LastLogonInfo := lsa.mkLSA_LAST_INTER_LOGON_INFO 0 0 0;
     lsa.LogonScript := no_string;
     lsa.ProfilePath := no_string;
     lsa.HomeDirectory := no_string;
     lsa.HomeDirectoryDrive := no_string;
     lsa.LogoffTime := never;
     lsa.KickOffTime := never;
     lsa.PasswordLastSet := 0;
     lsa.PasswordCanChange := 0;
     lsa.PasswordMustChange := never |}.

Definition session_world (user : lsa.LSA_UNICODE_STRING) (mem : gmap Z byte)
  : World error :=
  mkWorld mem {[ 0x3000 := session user ]} [] [].

(** A system with two logon sessions and one session record. *)
Definition good_os : LsaApi error :=
  scripted (inr (2, 0x2000)) (inr 0x3000) None
    all_mem {[ 0x3000 := session string_AB ]}.

Definition enum_fails : LsaApi error :=
  scripted (inl 5) (inl 5) None ∅ ∅.

Definition free_fails : LsaApi error :=
  scripted (inr (2, 0x2000)) (inr 0x3000) (Some 6)
    all_mem {[ 0x3000 := session string_AB ]}.

(** A caller that keeps the LUID 0x3e7 in the Go heap at reference 0. *)
Definition caller_world : World error :=
  mkWorld ∅ ∅ [LuidArray [lsa.mkLUID 0x3e7 0]] [].

End Fixture.


(** ** Observations on runs *)

Section Observations.

Context {error : Type}.

(** The events a run added to the trace. *)
Definition events_since (w w' : World error) : list (Event error) :=
  drop (length (trace w)) (trace w').

Definition is_call (e : Event error) : bool :=
  match e with
  | EvEnumerate _ | EvGetData _ _ | EvFree _ _ => true
  | _ => false
  end.

(** The events that only read native memory: a byte loaded or a record
    dereferenced by the Go code, and the two procedures of [advapi32],
    which read the SID they are given. *)
Definition is_load (e : Event error) : bool :=
  match e with
  | EvLoad _ | EvDeref _ | EvGetLengthSid _ | EvCopySid _ _ => true
  | _ => false
  end.

(** The procedures of [advapi32] called on a SID. *)
Definition is_sid_call (e : Event error) : bool :=
  match e with
  | EvGetLengthSid _ | EvCopySid _ _ => true
  | _ => false
  end.

(** Every procedure of the operating system a run entered, in order: the
    LSA entry points and the procedures of [advapi32]. *)
Definition os_calls (evs : list (Event error)) : list (Event error) :=
  List.filter (fun e => is_call e || is_sid_call e) evs.

(** The calls to the LSA entry points, in order. *)
Definition calls (evs : list (Event error)) : list (Event error) :=
  List.filter is_call evs.

(** The buffers handed to [LsaFreeReturnBuffer], in order. *)
Definition frees (evs : list (Event error)) : list Z :=
  omap (fun e => match e with EvFree b _ => Some b | _ => None end) evs.

(** The error a call came back with, if any. *)
Definition call_error (e : Event error) : option error :=
  match e with
  | EvEnumerate (inl err) => Some err
  | EvGetData _ (inl err) => Some err
  | EvFree _ (Some err) => Some err
  | _ => None
  end.

Definition is_query (e : Event error) : bool :=
  match e with
  | EvEnumerate _ | EvGetData _ _ => true
  | _ => false
  end.

(** The native buffer a successful query handed out. *)
Definition query_buffer (e : Event error) : option Z :=
  match e with
  | EvEnumerate (inr (_, buffer)) => Some buffer
  | EvGetData _ (inr buffer) => Some buffer
  | _ => None
  end.

(** How a run ended: [None] for a panic, otherwise the error value
    returned. *)
Definition verdict {A} (r : Res error (A * option error)) : option (option error) :=
  match r with
  | Returned (_, err) _ => Some err
  | Panicked _ => None
  end.

(** The three shapes a run of either public function can take: the
    query fails; the conversion faults after a successful query; the
    conversion completes and the buffer is freed. *)
Inductive run_shape : list (Event error) -> option (option error) -> Prop :=
| shape_query_failed q e :
    is_query q = true -> call_error q = Some e ->
    run_shape [q] (Some (Some e))
| shape_faulted q b loads :
    is_query q = true -> query_buffer q = Some b ->
    Forall (fun e => is_load e = true) loads ->
    run_shape (q :: loads) None
| shape_freed q b loads fr :
    is_query q = true -> query_buffer q = Some b ->
    Forall (fun e => is_load e = true) loads ->
    run_shape (q :: loads ++ [EvFree b fr]) (Some fr).

(** [w'] is reached from [w] by reads of native memory and Go
    allocations alone: native memory is as it was, the Go objects that
    existed are as they were, and the trace grew by reads only. *)
Definition reads_only (w w' : World error) : Prop :=
  bytes w' = bytes w /\
  sessions w' = sessions w /\
  heap w `prefix_of` heap w' /\
  exists evs, trace w' = trace w ++ evs /\ Forall (fun e => is_load e = true) evs.

(** A computation that only reads, whatever the world it starts in. *)
Definition RO {A} (m : M error A) : Prop :=
  forall w, reads_only w (world_of (m w)).

(** [w] with more events on its trace, and nothing else changed. *)
Definition logged (w : World error) (evs : list (Event error)) : World error :=
  mkWorld (bytes w) (sessions w) (heap w) (trace w ++ evs).

(** [m] computes [f] of the native bytes and does nothing but log its
    reads; it panics where [f] is undefined. *)
Definition pure_read {A} (m : M error A) (f : gmap Z Byte.byte -> option A) : Prop :=
  forall w, exists evs,
    Forall (fun e => is_load e = true) evs /\
    m w = match f (bytes w) with
          | Some v => Returned v (logged w evs)
          | None => Panicked (logged w evs)
          end.

(** [m] reads, then allocates the object [f] computes from the native
    bytes, and returns [h] of the new reference. *)
Definition pure_alloc {A} (m : M error A) (f : gmap Z Byte.byte -> option object)
    (h : pointer -> A) : Prop :=
  forall w, exists evs,
    Forall (fun e => is_load e = true) evs /\
    m w = match f (bytes w) with
          | Some o =>
              Returned (h (Managed (length (heap w))))
                (mkWorld (bytes w) (sessions w) (heap w ++ [o]) (trace w ++ evs))
          | None => Panicked (logged w evs)
          end.

(** A pointer into the Go heap that did not exist in [w]. *)
Definition fresh_in (w : World error) (p : pointer) : Prop :=
  match p with
  | Managed n => (length (heap w) <= n)%nat
  | _ => False
  end.

End Observations.

(** ** Native memory read without side effects

    What the loads return, as functions of the memory alone. *)

Definition peek8 (m : gmap Z Byte.byte) (addr : Z) : option Z :=
  (fun b => Z.of_N (Byte.to_N b)) <$> m !! addr.

Definition peek16 (m : gmap Z Byte.byte) (addr : Z) : option Z :=
  b0 ← peek8 m addr; b1 ← peek8 m (addr + 1);
  Some (Z.lor b0 (Z.shiftl b1 8)).

Definition peek32 (m : gmap Z Byte.byte) (addr : Z) : option Z :=
  lo ← peek16 m addr; hi ← peek16 m (addr + 2);
  Some (Z.lor lo (Z.shiftl hi 16)).

Definition peek_LUID (m : gmap Z Byte.byte) (addr : Z) : option LUID :=
  lo ← peek32 m addr; hi ← peek32 m (addr + 4);
  Some (lsa.mkLUID lo (i32 hi)).

Fixpoint peek_bytes (m : gmap Z Byte.byte) (n : nat) (addr : Z) : option (list Byte.byte) :=
  match n with
  | O => Some []
  | S n' => b ← m !! addr; bs ← peek_bytes m n' (addr + 1); Some (b :: bs)
  end.

(** The bytes of the SID at [sid]: 8, plus 4 for each sub-authority. *)
Definition peek_SID (m : gmap Z Byte.byte) (sid : Z) : option (list Byte.byte) :=
  cnt ← peek8 m (sid + 1); peek_bytes m (Z.to_nat (8 + 4 * cnt)) sid.

(** The code units [syscall.UTF16ToString] keeps: those before the first
    NUL among the first [n]. *)
Fixpoint peek_scan (m : gmap Z Byte.byte) (n : nat) (addr : Z) : option (list Z) :=
  match n with
  | O => Some []
  | S n' =>
      v ← peek16 m addr;
      if v =? 0 then Some []
      else rest ← peek_scan m n' (addr + 2); Some (v :: rest)
  end.

(** What [stringFromLSAString] returns, as a function of the memory. *)
Definition peek_string (m : gmap Z Byte.byte) (s : lsa.LSA_UNICODE_STRING)
  : option string :=
  if (lsa.Buffer s =? 0) || (lsa.Length s =? 0) then Some ""%string
  else us ← peek_scan m (Z.to_nat (lsa.Length s)) (lsa.Buffer s);
       Some (string_of_units us).

(** What [newLogonSessionData] builds from the record [d], the memory
    its descriptors point into and the pointer [sid] to the copied SID. *)
Definition marshal (m : gmap Z Byte.byte) (d : lsa.SECURITY_LOGON_SESSION_DATA)
    (sid : pointer) : option object :=
  userName ← peek_string m (lsa.UserName d);
  logonDomain ← peek_string m (lsa.LogonDomain d);
  authenticationPackage ← peek_string m (lsa.AuthenticationPackage d);
  logonServer ← peek_string m (lsa.LogonServer d);
  dnsDomainName ← peek_string m (lsa.DnsDomainName d);
  upn ← peek_string m (lsa.Upn d);
  logonScript ← peek_string m (lsa.LogonScript d);
  profilePath ← peek_string m (lsa.ProfilePath d);
  homeDirectory ← peek_string m (lsa.HomeDirectory d);
  homeDirectoryDrive ← peek_string m (lsa.HomeDirectoryDrive d);
  Some (SessionObject {|
    UserName := userName;
    LogonDomain := logonDomain;
    AuthenticationPackage := authenticationPackage;
    LogonType := lsa.LogonType d;
    Session := lsa.Session d;
    Sid := sid;
    LogonTime := timeFromUint64 (lsa.LogonTime d);
    LogonServer := logonServer;
    DnsDomainName := dnsDomainName;
    Upn := upn;
    UserFlags := lsa.UserFlags d;
    LogonScript := logonScript;
    ProfilePath := profilePath;
    HomeDirectory := homeDirectory;
    HomeDirectoryDrive := homeDirectoryDrive;
    LogoffTime := timeFromUint64 (lsa.LogoffTime d);
    KickOffTime := timeFromUint64 (lsa.KickOffTime d);
    PasswordLastSet := timeFromUint64 (lsa.PasswordLastSet d);
    PasswordCanChange := timeFromUint64 (lsa.PasswordCanChange d);
    PasswordMustChange := timeFromUint64 (lsa.PasswordMustChange d);
    LastSuccessfulLogon :=
      timeFromUint64 (lsa.LastSuccessfulLogon (lsa.LastLogonInfo d));
    LastFailedLogon :=
      timeFromUint64 (lsa.LastFailedLogon (lsa.LastLogonInfo d));
    FailedAttemptCountSinceLastSuccessfulLogon :=
      lsa.FailedAttemptCountSinceLastSuccessfulLogon (lsa.LastLogonInfo d) |}).

(** ** What a string descriptor designates

    The reading of a descriptor by the LSA_UNICODE_STRING convention:
    [Length] is a count of bytes, so the string is the [Length / 2] code
    units found at [Buffer]. *)

Fixpoint peek_units (m : gmap Z Byte.byte) (n : nat) (addr : Z) : option (list Z) :=
  match n with
  | O => Some []
  | S n' => v ← peek16 m addr; vs ← peek_units m n' (addr + 2); Some (v :: vs)
  end.

Definition designated_units (m : gmap Z Byte.byte) (s : lsa.LSA_UNICODE_STRING)
  : option (list Z) :=
  peek_units m (Z.to_nat (lsa.Length s / 2)) (lsa.Buffer s).

Definition designated_string (m : gmap Z Byte.byte) (s : lsa.LSA_UNICODE_STRING)
  : option string :=
  string_of_units <$> designated_units m s.

(** The memory a descriptor points to: [MaximumLength] bytes from
    [Buffer]. *)
Definition in_descriptor (s : lsa.LSA_UNICODE_STRING) (addr : Z) : Prop :=
  lsa.Buffer s <= addr < lsa.Buffer s + lsa.MaximumLength s.

Definition descriptors (d : lsa.SECURITY_LOGON_SESSION_DATA) : list lsa.LSA_UNICODE_STRING :=
  [ lsa.UserName d; lsa.LogonDomain d; lsa.AuthenticationPackage d;
    lsa.LogonServer d; lsa.DnsDomainName d; lsa.Upn d; lsa.LogonScript d;
    lsa.ProfilePath d; lsa.HomeDirectory d; lsa.HomeDirectoryDrive d ].

(** Two native memories hold the record [d] with equal contents: they
    agree on the memory every string descriptor of [d] points to and on
    the bytes of its SID. *)
Definition equal_contents (d : lsa.SECURITY_LOGON_SESSION_DATA)
    (m1 m2 : gmap Z Byte.byte) : Prop :=
  (forall s addr, In s (descriptors d) -> in_descriptor s addr -> m1 !! addr = m2 !! addr) /\
  (lsa.Sid d <> 0 -> peek_SID m1 (lsa.Sid d) = peek_SID m2 (lsa.Sid d)).

(** The memory [stringFromLSAString] may load for a descriptor: [Length]
    elements of two bytes each. *)
Definition read_extent (s : lsa.LSA_UNICODE_STRING) (addr : Z) : Prop :=
  lsa.Buffer s <> 0 /\ lsa.Buffer s <= addr < lsa.Buffer s + 2 * lsa.Length s.

(** The Go objects a run allocated. *)
Definition new_objects {error : Type} (w w' : World error) : list object :=
  drop (length (heap w)) (heap w').

(** The [LogonSessionData] behind a returned pointer, with the SID
    replaced by the bytes it points to. *)
Definition session_view {error : Type} (w : World error) (p : pointer)
  : option (LogonSessionData * option (list Byte.byte)) :=
  match p with
  | Managed k =>
      match heap w !! k with
      | Some (SessionObject sd) =>
          match Sid sd with
          | Managed j =>
              match heap w !! j with
              | Some (ByteArray b) => Some (sd, Some b)
              | _ => None
              end
          | _ => Some (sd, None)
          end
      | _ => None
      end
  | _ => None
  end.

(** ** Further observations *)

Section Extents.

Context {error : Type}.

(** Every event of [evs] is a load of a byte between [lo] and [hi]. *)
Definition loads_within (lo hi : Z) (evs : list (Event error)) : Prop :=
  Forall (fun e => match e with EvLoad a => lo <= a < hi | _ => False end) evs.

(** Whatever the world, [m] adds to the trace nothing but loads of bytes
    between [lo] and [hi]. *)
Definition reads_within {A} (lo hi : Z) (m : M error A) : Prop :=
  forall w, exists evs,
    trace (world_of (m w)) = trace w ++ evs /\ loads_within lo hi evs.

(** Whatever the world, [m] adds to the trace no call of a procedure of
    the operating system. *)
Definition quiet {A} (m : M error A) : Prop :=
  forall w, exists evs,
    trace (world_of (m w)) = trace w ++ evs /\ os_calls evs = [].

(** The procedures of [advapi32] entered for the SID pointer [sid] of a
    record, the native memory being [m]: none for a nil pointer;
    otherwise [GetLengthSid], followed by [CopySid] with the length
    found, unless reading the length faults. *)
Definition sid_calls (m : gmap Z Byte.byte) (sid : Z) : list (Event error) :=
  if sid =? 0 then []
  else match peek8 m (sid + 1) with
       | Some cnt => [EvGetLengthSid sid; EvCopySid (8 + 4 * cnt) sid]
       | None => [EvGetLengthSid sid]
       end.

(** The same for the record a successful query [r] handed out, if there
    is one at the address given. *)
Definition record_sid_calls (r : error + Z) (m : gmap Z Byte.byte)
    (s : gmap Z lsa.SECURITY_LOGON_SESSION_DATA) : list (Event error) :=
  match r with
  | inl _ => []
  | inr b =>
      match s !! b with
      | Some d => sid_calls m (lsa.Sid d)
      | None => []
      end
  end.

End Extents.

(** A descriptor that is empty, or whose code units hold no NUL and are
    followed by a NUL code unit: the form in which the LSA hands strings
    out. *)
Definition terminated (m : gmap Z Byte.byte) (s : lsa.LSA_UNICODE_STRING) : Prop :=
  lsa.Buffer s = 0 \/ lsa.Length s = 0 \/
  exists us,
    designated_units m s = Some us /\
    Forall (fun u => u <> 0) us /\
    peek16 m (lsa.Buffer s + 2 * (lsa.Length s / 2)) = Some 0.

(** The string a descriptor stands for: empty for a zero [Buffer] or
    [Length], otherwise the decoded [Length / 2] code units at [Buffer]. *)
Definition designated_or_empty (m : gmap Z Byte.byte) (s : lsa.LSA_UNICODE_STRING)
  : string :=
  if (lsa.Buffer s =? 0) || (lsa.Length s =? 0) then ""%string
  else default ""%string (designated_string m s).

(** The host structure a native record stands for, field by field. *)
Definition expected_session (m : gmap Z Byte.byte)
    (d : lsa.SECURITY_LOGON_SESSION_DATA) (sid : pointer) : LogonSessionData :=
  {| UserName := designated_or_empty m (lsa.UserName d);
     LogonDomain := designated_or_empty m (lsa.LogonDomain d);
     AuthenticationPackage := designated_or_empty m (lsa.AuthenticationPackage d);
     LogonType := lsa.LogonType d;
     Session := lsa.Session d;
     Sid := sid;
     LogonTime := timeFromUint64 (lsa.LogonTime d);
     LogonServer := designated_or_empty m (lsa.LogonServer d);
     DnsDomainName := designated_or_empty m (lsa.DnsDomainName d);
     Upn := designated_or_empty m (lsa.Upn d);
     UserFlags := lsa.UserFlags d;
     LastSuccessfulLogon :=
       timeFromUint64 (lsa.LastSuccessfulLogon (lsa.LastLogonInfo d));
     LastFailedLogon :=
       timeFromUint64 (lsa.LastFailedLogon (lsa.LastLogonInfo d));
     FailedAttemptCountSinceLastSuccessfulLogon :=
       lsa.FailedAttemptCountSinceLastSuccessfulLogon (lsa.LastLogonInfo d);
     LogonScript := designated_or_empty m (lsa.LogonScript d);
     ProfilePath := designated_or_empty m (lsa.ProfilePath d);
     HomeDirectory := designated_or_empty m (lsa.HomeDirectory d);
     HomeDirectoryDrive := designated_or_empty m (lsa.HomeDirectoryDrive d);
     LogoffTime := timeFromUint64 (lsa.LogoffTime d);
     KickOffTime := timeFromUint64 (lsa.KickOffTime d);
     PasswordLastSet := timeFromUint64 (lsa.PasswordLastSet d);
     PasswordCanChange := timeFromUint64 (lsa.PasswordCanChange d);
     PasswordMustChange := timeFromUint64 (lsa.PasswordMustChange d) |}.

(** ** The caller: the program listing the logon sessions *)

Section Caller.

Context {error : Type} (os : LsaApi error).

(** What [main] hands to [fmt], one value for each call; the rendering
    of the arguments is [fmt]'s, except for the logon type, which [%v]
    prints through its [String] method. *)
Inductive Output :=
| PrintEnumerateError (err : error)
| PrintSessionDataError (err : error)
| PrintSession (luid : LUID) (logontype : string) (logontype_d : Z)
    (username : string) (session : Z) (sid : pointer).

(** The LUID a line reports, if it reports a session. *)
Definition line_luid (o : Output) : option LUID :=
  match o with
  | PrintSession luid _ _ _ _ _ => Some luid
  | _ => None
  end.

(** [*sd] for [sd *LogonSessionData]. *)
Definition read_session (sd : pointer) : M error LogonSessionData := fun w =>
  match sd with
  | Managed k =>
      match heap w !! k with
      | Some (SessionObject d) => Returned d w
      | _ => Panicked w
      end
  | _ => Panicked w
  end.

(** [for _, luid := range luids { ... }]: [n] is the number of elements
    left, [i] the index of the next.  The variable [luid], whose address
    is taken, is a Go object of its own in each iteration (one object for
    the whole loop before Go 1.22, which changes no call and no load).
    The result is
    what has been printed and the exit status: 1 after [os.Exit(1)], 0 at
    the end of the loop. *)
Fixpoint main_loop (n : nat) (i : Z) (luids : slice) (out : list Output)
  : M error (list Output * Z) :=
  match n with
  | O => mret (out, 0)
  | S n' =>
      v ← index_LUID luids i;
      luid ← alloc (LuidArray [v]);
      '(sd, err) ← GetLogonSessionData os luid;
      match err with
      | Some e => mret (out ++ [PrintSessionDataError e], 1)
      | None =>
          d ← read_session sd;
          main_loop n' (i + 1) luids
            (out ++ [PrintSession v (LogonType.String (LogonType d)) (LogonType d)
                       (UserName d) (Session d) (Sid d)])
      end
  end.

Definition main : M error (list Output * Z) :=
  '(luids, err) ← GetLogonSessions os;
  match err with
  | Some e => mret ([PrintEnumerateError e], 1)
  | None => main_loop (Z.to_nat (Len luids)) 0 luids []
  end.

(** How a sequence of runs ended: all of them completed, one returned an
    error, or one faulted. *)
Inductive ending := Ended | Failed (e : error) | Faulted.

(** The trace of a sequence of runs of the public functions that stops
    at the first one that fails or faults; [done] counts the runs that
    completed. *)
Inductive runs_shape : list (Event error) -> ending -> nat -> Prop :=
| runs_ended : runs_shape [] Ended 0
| runs_failed evs e :
    run_shape evs (Some (Some e)) -> runs_shape evs (Failed e) 0
| runs_faulted evs :
    run_shape evs None -> runs_shape evs Faulted 0
| runs_next evs rest en n :
    run_shape evs (Some None) -> runs_shape rest en n ->
    runs_shape (evs ++ rest) en (S n).

End Caller.

Arguments Output : clear implicits.
Arguments ending : clear implicits.

(** ** More concrete systems *)

Module Scenario.

(** No session at all, and a buffer pointer that leads nowhere. *)
Definition no_session_os : LsaApi Fixture.error :=
  Fixture.scripted (inr (0, 0xdead0000)) (inl 5) None ∅ ∅.

(** Two sessions announced, at an address where nothing is mapped. *)
Definition unmapped_os : LsaApi Fixture.error :=
  Fixture.scripted (inr (2, 0x2000)) (inr 0) None ∅ ∅.

(** The session query fails. *)
Definition data_fails_os : LsaApi Fixture.error :=
  Fixture.scripted (inr (2, 0x2000)) (inl 7) None Fixture.all_mem ∅.

End Scenario.

(** * Properties *)

(** ** LogonType.String *)

Lemma fmt_d_reads_back (n : Z) :
  0 <= n ->
  option_map (fun u => Z.of_N (N.of_uint u)) (NilZero.uint_of_string (fmt_d n)) = Some n.
Proof.
  intros Hn. unfold fmt_d. rewrite NilZero.usu.
  - simpl. rewrite DecimalN.Unsigned.of_to. now rewrite Z2N.id.
  - destruct (Z.to_N n); [discriminate | apply DecimalPos.Unsigned.to_uint_nonnil].
Qed.

Lemma fmt_d_nonempty_tail (n : Z) :
  ("Undefined LogonType(" ++ fmt_d n ++ ")")%string <> ""%string.
Proof. discriminate. Qed.

Lemma LogonType_defined_cases (lt : LogonType.t) :
  LogonType.defined lt = true ->
  lt = 0 \/ lt = 2 \/ lt = 3 \/ lt = 4 \/ lt = 5 \/ lt = 6 \/ lt = 7 \/ lt = 8 \/
  lt = 9 \/ lt = 10 \/ lt = 11 \/ lt = 12 \/ lt = 13.
Proof. unfold LogonType.defined. lia. Qed.

Lemma LogonType_String_default (lt : LogonType.t) :
  LogonType.defined lt = false ->
  LogonType.String lt = ("Undefined LogonType(" ++ fmt_d lt ++ ")")%string.
Proof.
  unfold LogonType.defined, LogonType.String. intros H.
  repeat match goal with
         | |- context [?a =? ?b] =>
             let E := fresh in destruct (Z.eqb_spec a b) as [E|E];
             [ unfold LogonType.LogonTypeSystem, LogonType.LogonTypeInteractive,
                 LogonType.LogonTypeNetwork, LogonType.LogonTypeBatch,
                 LogonType.LogonTypeService, LogonType.LogonTypeProxy,
                 LogonType.LogonTypeUnlock, LogonType.LogonTypeNetworkCleartext,
                 LogonType.LogonTypeNewCredentials, LogonType.LogonTypeRemoteInteractive,
                 LogonType.LogonTypeCachedInteractive,
                 LogonType.LogonTypeCachedRemoteInteractive,
                 LogonType.LogonTypeCachedUnlock in E; lia | clear E ]
         end.
  reflexivity.
Qed.

Lemma LogonType_String_named (lt : LogonType.t) :
  LogonType.defined lt = true -> In (LogonType.String lt) LogonType.names.
Proof.
  intros H. apply LogonType_defined_cases in H.
  repeat (destruct H as [H|H]; [subst lt; vm_compute; tauto|]).
  subst lt; vm_compute; tauto.
Qed.

Lemma undefined_not_a_name (s : string) :
  ~ In ("Undefined LogonType(" ++ s)%string LogonType.names.
Proof. simpl. intros H. repeat (destruct H as [H|H]; [discriminate H|]). exact H. Qed.

Lemma LogonType_names_NoDup : NoDup LogonType.names.
Proof. apply (bool_decide_unpack _). vm_compute. exact I. Qed.

Lemma LogonType_String_cases (lt : LogonType.t) :
  LogonType.defined lt = true ->
  In (lt, LogonType.String lt)
    [ (0, "System"); (2, "Interactive"); (3, "Network"); (4, "Batch");
      (5, "Service"); (6, "Proxy"); (7, "Unlock"); (8, "NetworkCleartext");
      (9, "NewCredentials"); (10, "RemoteInteractive");
      (11, "CachedInteractive"); (12, "CachedRemoteInteractive");
      (13, "CachedUnlock") ]%string.
Proof.
  intros H. apply LogonType_defined_cases in H.
  repeat (destruct H as [H|H]; [subst lt; vm_compute; tauto|]).
  subst lt; vm_compute; tauto.
Qed.

(** C10: [LogonType.String] returns a non-empty string for every
    [uint32].  For the value 0 and the values 2 to 13 it returns the
    name the switch gives that value: "System" for 0, "Interactive" for
    2, and so on to "CachedUnlock" for 13; these are the thirteen
    distinct names, and the result is one of them exactly for those
    values.  For every other value, 1 included, it returns
    "Undefined LogonType(n)", with n in decimal. *)
Theorem LogonType_String_total (lt : LogonType.t) :
  0 <= lt < 2 ^ 32 ->
  LogonType.String lt <> ""%string /\
  ((lt = 0 \/ 2 <= lt <= 13) ->
   In (lt, LogonType.String lt)
     [ (0, "System"); (2, "Interactive"); (3, "Network"); (4, "Batch");
       (5, "Service"); (6, "Proxy"); (7, "Unlock"); (8, "NetworkCleartext");
       (9, "NewCredentials"); (10, "RemoteInteractive");
       (11, "CachedInteractive"); (12, "CachedRemoteInteractive");
       (13, "CachedUnlock") ]%string) /\
  length LogonType.names = 13%nat /\
  NoDup LogonType.names /\
  (In (LogonType.String lt) LogonType.names <-> (lt = 0 \/ 2 <= lt <= 13)) /\
  (~ (lt = 0 \/ 2 <= lt <= 13) ->
   LogonType.String lt = ("Undefined LogonType(" ++ fmt_d lt ++ ")")%string) /\
  LogonType.String 1 = "Undefined LogonType(1)"%string.
Proof.
  intros Hlt.
  assert (Hdef : LogonType.defined lt = true <-> (lt = 0 \/ 2 <= lt <= 13))
    by (unfold LogonType.defined; lia).
  destruct (LogonType.defined lt) eqn:E.
  - pose proof (LogonType_String_named lt E) as Hin.
    pose proof (LogonType_String_cases lt E) as Hc.
    split; [|split; [intros _; exact Hc|]].
    + intros Hs. rewrite Hs in Hin. simpl in Hin.
      repeat (destruct Hin as [Hin|Hin]; [discriminate Hin|]). exact Hin.
    + repeat split; try tauto. exact LogonType_names_NoDup.
  - pose proof (LogonType_String_default lt E) as Hd.
    split; [|split; [intros H; apply Hdef in H; discriminate H|]].
    + rewrite Hd. discriminate.
    + repeat split; try tauto.
      * exact LogonType_names_NoDup.
      * intros Hin. rewrite Hd in Hin. exfalso. exact (undefined_not_a_name _ Hin).
      * intros H. apply Hdef in H. discriminate H.
Qed.

Lemma LogonType_String_total_witness :
  0 <= 10 < 2 ^ 32 /\
  LogonType.String 10 = "RemoteInteractive"%string /\
  0 <= 14 < 2 ^ 32 /\
  LogonType.String 14 = "Undefined LogonType(14)"%string.
Proof.
  split; [lia|]. split.
  { destruct (LogonType_String_total 10 ltac:(lia)) as (_ & H & _).
    specialize (H ltac:(lia)). cbn [In] in H.
    repeat (destruct H as [H|H];
            [first [discriminate H | exact (eq_sym (f_equal snd H))]|]).
    contradiction. }
  split; [lia|].
  destruct (LogonType_String_total 14 ltac:(lia)) as (_ & _ & _ & _ & _ & H & _).
  rewrite H; [reflexivity | lia].
Defined.

(** ** timeFromUint64 *)

Lemma i64_small (x : Z) : - 2 ^ 63 <= x < 2 ^ 63 -> i64 x = x.
Proof. intros H. unfold i64. rewrite Z.mod_small; lia. Qed.

Lemma never_value : never = 2 ^ 63 - 1.
Proof. reflexivity. Qed.

(** [time.Unix(0, n)] is the instant [n] nanoseconds after the epoch, in
    normal form, for every [int64] [n]. *)
Lemma Unix_nanos (n : Z) :
  - 2 ^ 63 <= n < 2 ^ 63 ->
  time.unix_nanos (time.Unix 0 n) = n /\
  0 <= time.wall (time.Unix 0 n) < 1000000000 /\
  0 < time.ext (time.Unix 0 n) /\
  time.loc (time.Unix 0 n) = time.Local.
Proof.
  intros Hn. unfold time.Unix.
  assert (Hu : time.unixToInternal = 62135596800) by reflexivity.
  destruct ((n <? 0) || (1000000000 <=? n)) eqn:E.
  - pose proof (Z.quot_rem' n 1000000000) as Hqr.
    assert (Hr : - 1000000000 < Z.rem n 1000000000 < 1000000000).
    { destruct (Z_lt_le_dec n 0).
      - pose proof (Z.rem_bound_pos_neg n 1000000000 ltac:(lia) ltac:(lia)); lia.
      - pose proof (Z.rem_bound_pos_pos n 1000000000 ltac:(lia) ltac:(lia)); lia. }
    assert (Hsign : n < 0 -> Z.rem n 1000000000 <= 0).
    { intros. pose proof (Z.rem_bound_pos_neg n 1000000000 ltac:(lia) ltac:(lia)); lia. }
    assert (Hsign' : 0 <= n -> 0 <= Z.rem n 1000000000).
    { intros. pose proof (Z.rem_bound_pos_pos n 1000000000 ltac:(lia) ltac:(lia)); lia. }
    set (q := Z.quot n 1000000000) in *. set (r := Z.rem n 1000000000) in *.
    assert (Hq : - 9223372037 <= q <= 9223372037) by lia.
    cbv zeta.
    rewrite (i64_small (0 + q)) by lia.
    rewrite (i64_small (q * 1000000000)) by lia.
    replace (n - q * 1000000000) with r by lia.
    rewrite (i64_small r) by lia.
    destruct (r <? 0) eqn:Er.
    + rewrite (i64_small (0 + q - 1)) by lia.
      rewrite (i64_small (r + 1000000000)) by lia.
      unfold time.unixTime, time.unix_nanos. simpl. rewrite Hu.
      rewrite i64_small by lia. repeat split; lia.
    + unfold time.unixTime, time.unix_nanos. simpl. rewrite Hu.
      rewrite i64_small by lia. repeat split; lia.
  - unfold time.unixTime, time.unix_nanos. simpl. rewrite Hu.
    rewrite i64_small by lia. repeat split; lia.
Qed.

(** The argument [timeFromUint64] hands to [time.Unix]. *)
Lemma filetime_delta_in_range (t : Z) :
  24211015631452242 <= t <= 208678456368547758 ->
  i64 (i64 (u64 (t - windowsEpoch)) * 100) = (t - windowsEpoch) * 100.
Proof.
  intros Ht. unfold windowsEpoch in *.
  assert (H1 : i64 (u64 (t - 116444736000000000)) = t - 116444736000000000).
  { unfold i64, u64.
    destruct (Z_lt_le_dec t 116444736000000000).
    - replace (t - 116444736000000000)
        with ((t - 116444736000000000 + 2 ^ 64) + (-1) * 2 ^ 64) by lia.
      rewrite Z.mod_add by lia.
      rewrite (Z.mod_small (t - 116444736000000000 + 2 ^ 64)) by lia.
      replace (t - 116444736000000000 + 2 ^ 64 + 2 ^ 63)
        with ((t - 116444736000000000 + 2 ^ 63) + 1 * 2 ^ 64) by lia.
      rewrite Z.mod_add by lia. rewrite Z.mod_small; lia.
    - rewrite (Z.mod_small (t - 116444736000000000)) by lia.
      rewrite Z.mod_small; lia. }
  rewrite H1. apply i64_small. lia.
Qed.

(** C5, as amended: for every time stamp [t] for which [(t - windowsEpoch)
    * 100] fits an [int64], the result is the instant [(t - windowsEpoch)]
    intervals of 100 nanoseconds from the Unix epoch; the range starts
    below [windowsEpoch]. *)
Theorem timeFromUint64_in_range (t : Z) :
  24211015631452242 <= t <= 208678456368547758 ->
  time.unix_nanos (timeFromUint64 t) = (t - windowsEpoch) * 100 /\
  0 <= time.wall (timeFromUint64 t) < 1000000000 /\
  time.loc (timeFromUint64 t) = time.Local.
Proof.
  intros Ht. unfold timeFromUint64. rewrite never_value.
  destruct (Z.eqb_spec t 0) as [->|_]; [lia|].
  destruct (Z.eqb_spec t (2 ^ 63 - 1)) as [->|_]; [lia|].
  simpl orb. cbv iota. rewrite filetime_delta_in_range by exact Ht.
  destruct (Unix_nanos ((t - windowsEpoch) * 100)) as (H1 & H2 & _ & H4).
  { unfold windowsEpoch. lia. }
  auto.
Qed.

Lemma timeFromUint64_in_range_witness :
  24211015631452242 <= 116444735999999999 <= 208678456368547758 /\
  116444735999999999 < windowsEpoch /\
  time.unix_nanos (timeFromUint64 116444735999999999) = -100.
Proof.
  split; [lia|]. split; [reflexivity|].
  destruct (timeFromUint64_in_range 116444735999999999 ltac:(lia)) as (H & _).
  rewrite H. reflexivity.
Defined.

(** C5, as stated, fails at the sentinel 0 (which is below
    [windowsEpoch]): the result is the zero time, January 1 of year 1,
    not the instant [- windowsEpoch] intervals from the Unix epoch. *)
Lemma timeFromUint64_sentinel_not_offset :
  0 <= 0 < 2 ^ 64 /\
  timeFromUint64 0 = time.zero /\
  time.unix_nanos (timeFromUint64 0) <> (0 - windowsEpoch) * 100.
Proof. split; [lia|]. split; [reflexivity|]. vm_compute. discriminate. Qed.

(** Outside the range of the amended C5 the multiplication by 100 wraps:
    the time stamp 1 (in the year 1601) comes out in the year 2185. *)
Lemma timeFromUint64_wraps_at_1 :
  time.unix_nanos (timeFromUint64 1) = (1 - windowsEpoch) * 100 + 2 ^ 64.
Proof. reflexivity. Qed.

(** C9: the sentinels 0 and 2^63 - 1 are mapped to the zero time, and no
    other [uint64] is: past the two tests the result comes from
    [time.Unix], whose seconds count from year 1 and are positive. *)
Theorem timeFromUint64_zero_iff (t : Z) :
  0 <= t < 2 ^ 64 ->
  timeFromUint64 0 = time.zero /\
  timeFromUint64 (2 ^ 63 - 1) = time.zero /\
  (timeFromUint64 t = time.zero <-> (t = 0 \/ t = 2 ^ 63 - 1)) /\
  (time.IsZero (timeFromUint64 t) = true <-> (t = 0 \/ t = 2 ^ 63 - 1)).
Proof.
  intros Ht. split; [reflexivity|]. split; [reflexivity|].
  unfold timeFromUint64. rewrite never_value.
  destruct (Z.eqb_spec t 0) as [->|H0]; [simpl; split; split; auto|].
  destruct (Z.eqb_spec t (2 ^ 63 - 1)) as [->|H1]; [simpl; split; split; auto|].
  simpl orb. cbv iota.
  set (n := i64 (i64 (u64 (t - windowsEpoch)) * 100)).
  assert (Hn : - 2 ^ 63 <= n < 2 ^ 63).
  { unfold n. generalize (i64 (u64 (t - windowsEpoch)) * 100). intros x.
    unfold i64. pose proof (Z.mod_pos_bound (x + 2 ^ 63) (2 ^ 64) ltac:(lia)).
    lia. }
  destruct (Unix_nanos n Hn) as (_ & _ & Hext & _).
  split; split; try lia.
  - intros Hz. rewrite Hz in Hext. simpl in Hext. lia.
  - unfold time.IsZero. intros Hz. apply andb_true_iff in Hz. lia.
Qed.

Lemma timeFromUint64_zero_iff_witness :
  0 <= windowsEpoch < 2 ^ 64 /\ timeFromUint64 windowsEpoch <> time.zero.
Proof.
  split; [unfold windowsEpoch; lia|].
  destruct (timeFromUint64_zero_iff windowsEpoch ltac:(unfold windowsEpoch; lia))
    as (_ & _ & H & _).
  intros Hz. apply H in Hz. unfold windowsEpoch in Hz. lia.
Defined.

(** ** Runs that only read *)

Section ReadsOnly.

Context {error : Type}.

Implicit Types w : World error.

Lemma reads_only_refl w : reads_only w w.
Proof.
  repeat split; [reflexivity | exists []]. split; [now rewrite app_nil_r | constructor].
Qed.

Lemma reads_only_trans w1 w2 w3 :
  reads_only w1 w2 -> reads_only w2 w3 -> reads_only w1 w3.
Proof.
  intros (Hb1 & Hs1 & Hh1 & e1 & Ht1 & Hl1) (Hb2 & Hs2 & Hh2 & e2 & Ht2 & Hl2).
  repeat split; [congruence | congruence | etrans; eassumption |].
  exists (e1 ++ e2). split.
  - rewrite Ht2, Ht1. now rewrite app_assoc.
  - apply Forall_app; auto.
Qed.

Lemma RO_ret {A} (a : A) : RO (mret a : M error A).
Proof. intros w. apply reads_only_refl. Qed.

Lemma RO_panic {A} : RO (@panic error A).
Proof. intros w. apply reads_only_refl. Qed.

Lemma RO_bind {A B} (m : M error A) (k : A -> M error B) :
  RO m -> (forall a, RO (k a)) -> RO (m ≫= k).
Proof.
  intros Hm Hk w. specialize (Hm w). unfold mbind, M_bind.
  destruct (m w) as [a w'|w']; simpl in *; [|exact Hm].
  eapply reads_only_trans; [exact Hm | apply Hk].
Qed.

Lemma RO_log (e : Event error) : is_load e = true -> RO (log e).
Proof.
  intros He w. unfold log; simpl. repeat split; [reflexivity|].
  exists [e]. split; [reflexivity | repeat constructor; exact He].
Qed.

Lemma RO_alloc (o : object) : RO (@alloc error o).
Proof.
  intros w. unfold alloc; simpl. repeat split.
  - now apply prefix_app_r.
  - exists []. split; [now rewrite app_nil_r | constructor].
Qed.

Ltac ro_step :=
  first [ apply RO_ret | apply RO_panic | apply RO_alloc
        | apply RO_log; reflexivity
        | apply RO_bind; [| intros ?] ].

(** Turns a goal about one world back into a goal about the
    computation. *)
Ltac ro_lift :=
  match goal with
  | |- reads_only ?w (world_of (?m ?w)) => revert w; change (RO m)
  end.

Lemma RO_load8 (addr : Z) : RO (@load8 error addr).
Proof.
  intros w. unfold load8. destruct (bytes w !! addr); ro_lift; repeat ro_step.
Qed.

Lemma RO_load_byte (addr : Z) : RO (@load_byte error addr).
Proof.
  intros w. unfold load_byte. destruct (bytes w !! addr); ro_lift; repeat ro_step.
Qed.

Lemma RO_load16 (addr : Z) : RO (@load16 error addr).
Proof. unfold load16. repeat first [apply RO_load8 | ro_step]. Qed.

Lemma RO_load32 (addr : Z) : RO (@load32 error addr).
Proof. unfold load32. repeat first [apply RO_load16 | ro_step]. Qed.

Lemma RO_load_LUID (addr : Z) : RO (@load_LUID error addr).
Proof. unfold load_LUID. repeat first [apply RO_load32 | ro_step]. Qed.

Lemma RO_load_bytes (n : nat) (addr : Z) : RO (@load_bytes error n addr).
Proof.
  revert addr. induction n as [|n IH]; intros addr; simpl.
  - ro_step.
  - repeat first [apply RO_load_byte | apply IH | ro_step].
Qed.

Lemma RO_deref_session (p : Z) : RO (@deref_session error p).
Proof.
  intros w. unfold deref_session. destruct (sessions w !! p); ro_lift; repeat ro_step.
Qed.

Lemma RO_scan_utf16 (n : nat) (addr : Z) : RO (@scan_utf16 error n addr).
Proof.
  revert addr. induction n as [|n IH]; intros addr; simpl.
  - ro_step.
  - apply RO_bind; [apply RO_load16|]. intros v.
    destruct (v =? 0); repeat first [apply IH | ro_step].
Qed.

Lemma RO_UTF16ToString (s : slice) : RO (@UTF16ToString error s).
Proof.
  unfold UTF16ToString. destruct (Data s); repeat first [apply RO_scan_utf16 | ro_step].
Qed.

Lemma RO_stringFromLSAString (s : lsa.LSA_UNICODE_STRING) :
  RO (@stringFromLSAString error s).
Proof.
  unfold stringFromLSAString.
  destruct ((lsa.Buffer s =? 0) || (lsa.Length s =? 0)); [ro_step | apply RO_UTF16ToString].
Qed.

Lemma RO_SID_Copy (sid : Z) : RO (@SID_Copy error sid).
Proof.
  unfold SID_Copy. repeat first [apply RO_load8 | apply RO_load_bytes | ro_step].
Qed.

Lemma RO_newLogonSessionData (data : Z) : RO (@newLogonSessionData error data).
Proof.
  unfold newLogonSessionData.
  apply RO_bind; [apply RO_deref_session|]. intros d.
  apply RO_bind.
  { destruct (negb (lsa.Sid d =? 0)); [|ro_step].
    apply RO_bind; [apply RO_SID_Copy|]. intros [sid e]. ro_step. }
  intros sid.
  repeat (apply RO_bind; [apply RO_stringFromLSAString|]; intros ?).
  apply RO_alloc.
Qed.

Lemma RO_make_LUIDs (n : Z) : RO (@make_LUIDs error n).
Proof. unfold make_LUIDs. repeat ro_step. Qed.

End ReadsOnly.

(** ** Loads as functions of the native bytes *)

Section PureReads.

Context {error : Type}.

Implicit Types w : World error.

Lemma ret_run {A} (a : A) w : (mret a : M error A) w = Returned a w.
Proof. reflexivity. Qed.

Lemma bind_run {A B} (m : M error A) (k : A -> M error B) w :
  (m ≫= k) w = match m w with
               | Returned a w' => k a w'
               | Panicked w' => Panicked w'
               end.
Proof. reflexivity. Qed.

Lemma logged_nil w : logged w [] = w.
Proof. destruct w. unfold logged. simpl. now rewrite app_nil_r. Qed.

Lemma logged_logged w e1 e2 : logged (logged w e1) e2 = logged w (e1 ++ e2).
Proof. unfold logged. simpl. now rewrite app_assoc. Qed.

Lemma reads_only_logged w evs :
  Forall (fun e : Event error => is_load e = true) evs -> reads_only w (logged w evs).
Proof. intros H. repeat split; [reflexivity | exists evs; auto]. Qed.

Lemma pure_read_ret {A} (a : A) : pure_read (mret a : M error A) (fun _ => Some a).
Proof. intros w. exists []. split; [constructor | now rewrite logged_nil]. Qed.

Lemma pure_read_bind {A B} (m : M error A) (k : A -> M error B) f g :
  pure_read m f -> (forall a, pure_read (k a) (g a)) ->
  pure_read (m ≫= k) (fun b => a ← f b; g a b).
Proof.
  intros Hm Hk w. destruct (Hm w) as (e1 & F1 & E1).
  unfold mbind at 1. unfold M_bind. rewrite E1.
  destruct (f (bytes w)) as [a|]; simpl.
  - destruct (Hk a (logged w e1)) as (e2 & F2 & E2).
    exists (e1 ++ e2). split; [apply Forall_app; auto|].
    rewrite E2. simpl. now rewrite logged_logged.
  - exists e1. auto.
Qed.

Lemma pure_read_ext {A} (m : M error A) f g :
  (forall b, f b = g b) -> pure_read m f -> pure_read m g.
Proof. intros E H w. destruct (H w) as (e & F & Hw). exists e. now rewrite <- E. Qed.

Lemma pure_read_load8 (addr : Z) :
  pure_read (@load8 error addr) (fun m => peek8 m addr).
Proof.
  intros w. exists [EvLoad addr]. split; [repeat constructor|].
  unfold load8, peek8. destruct (bytes w !! addr); reflexivity.
Qed.

Lemma pure_read_load_byte (addr : Z) :
  pure_read (@load_byte error addr) (fun m => m !! addr).
Proof.
  intros w. exists [EvLoad addr]. split; [repeat constructor|].
  unfold load_byte. destruct (bytes w !! addr); reflexivity.
Qed.

Lemma pure_read_load16 (addr : Z) :
  pure_read (@load16 error addr) (fun m => peek16 m addr).
Proof.
  unfold load16, peek16.
  apply pure_read_bind; [apply pure_read_load8|]. intros b0.
  apply (pure_read_bind _ _ (fun m => peek8 m (addr + 1))); [apply pure_read_load8|].
  intros b1. apply pure_read_ret.
Qed.

Lemma pure_read_load32 (addr : Z) :
  pure_read (@load32 error addr) (fun m => peek32 m addr).
Proof.
  unfold load32, peek32.
  apply pure_read_bind; [apply pure_read_load16|]. intros lo.
  apply (pure_read_bind _ _ (fun m => peek16 m (addr + 2))); [apply pure_read_load16|].
  intros hi. apply pure_read_ret.
Qed.

Lemma pure_read_load_LUID (addr : Z) :
  pure_read (@load_LUID error addr) (fun m => peek_LUID m addr).
Proof.
  unfold load_LUID, peek_LUID.
  apply pure_read_bind; [apply pure_read_load32|]. intros lo.
  apply (pure_read_bind _ _ (fun m => peek32 m (addr + 4))); [apply pure_read_load32|].
  intros hi. apply pure_read_ret.
Qed.

Lemma pure_read_load_bytes (n : nat) (addr : Z) :
  pure_read (@load_bytes error n addr) (fun m => peek_bytes m n addr).
Proof.
  revert addr. induction n as [|n IH]; intros addr; simpl.
  - apply pure_read_ret.
  - apply (pure_read_bind _ _ (fun m => m !! addr)); [apply pure_read_load_byte|].
    intros b.
    apply (pure_read_bind _ _ (fun m => peek_bytes m n (addr + 1))); [apply IH|].
    intros bs. apply pure_read_ret.
Qed.

Lemma pure_read_scan_utf16 (n : nat) (addr : Z) :
  pure_read (@scan_utf16 error n addr) (fun m => peek_scan m n addr).
Proof.
  revert addr. induction n as [|n IH]; intros addr; simpl.
  - apply pure_read_ret.
  - apply (pure_read_bind _ _ (fun m => peek16 m addr)
             (fun v m => if v =? 0 then Some []
                         else rest ← peek_scan m n (addr + 2); Some (v :: rest)));
      [apply pure_read_load16|].
    intros v. destruct (v =? 0); [apply pure_read_ret|].
    apply (pure_read_bind _ _ (fun m => peek_scan m n (addr + 2))); [apply IH|].
    intros rest. apply pure_read_ret.
Qed.

Lemma pure_read_stringFromLSAString (s : lsa.LSA_UNICODE_STRING) :
  pure_read (@stringFromLSAString error s) (fun m => peek_string m s).
Proof.
  unfold stringFromLSAString, peek_string.
  destruct ((lsa.Buffer s =? 0) || (lsa.Length s =? 0)); [apply pure_read_ret|].
  unfold UTF16ToString. cbn [Data Len].
  apply (pure_read_bind _ _
           (fun m => peek_scan m (Z.to_nat (lsa.Length s)) (lsa.Buffer s)));
    [apply pure_read_scan_utf16|].
  intros us. apply pure_read_ret.
Qed.

Lemma pure_alloc_alloc (o : object) :
  pure_alloc (@alloc error o) (fun _ => Some o) (fun p => p).
Proof.
  intros w. exists []. split; [constructor|].
  unfold alloc. now rewrite app_nil_r.
Qed.

Lemma pure_alloc_alloc_ret {A} (o : object) (h : pointer -> A) :
  pure_alloc (p ← @alloc error o; mret (h p)) (fun _ => Some o) h.
Proof.
  intros w. exists []. split; [constructor|].
  unfold alloc, mbind, M_bind, mret, M_ret. now rewrite app_nil_r.
Qed.

Lemma pure_alloc_bind {A B} (m : M error A) (k : A -> M error B) f g h :
  pure_read m f -> (forall a, pure_alloc (k a) (g a) h) ->
  pure_alloc (m ≫= k) (fun b => a ← f b; g a b) h.
Proof.
  intros Hm Hk w. destruct (Hm w) as (e1 & F1 & E1).
  unfold mbind at 1. unfold M_bind. rewrite E1.
  destruct (f (bytes w)) as [a|]; simpl.
  - destruct (Hk a (logged w e1)) as (e2 & F2 & E2).
    exists (e1 ++ e2). split; [apply Forall_app; auto|].
    rewrite E2. simpl. destruct (g a (bytes w)).
    + now rewrite app_assoc.
    + now rewrite logged_logged.
  - exists e1. auto.
Qed.

Lemma pure_alloc_ext {A} (m : M error A) f g h :
  (forall b, f b = g b) -> pure_alloc m f h -> pure_alloc m g h.
Proof. intros E H w. destruct (H w) as (e & F & Hw). exists e. now rewrite <- E. Qed.

Lemma pure_read_log (e : Event error) :
  is_load e = true -> pure_read (log e) (fun _ => Some tt).
Proof. intros He w. exists [e]. split; [repeat constructor; exact He | reflexivity]. Qed.

Lemma pure_read_GetLengthSid (sid : Z) :
  pure_read (@GetLengthSid error sid)
    (fun m => cnt ← peek8 m (sid + 1); Some (8 + 4 * cnt)).
Proof.
  unfold GetLengthSid.
  eapply pure_read_ext; cycle 1.
  - eapply pure_read_bind; [apply (pure_read_log (EvGetLengthSid sid)); reflexivity|].
    intros u.
    eapply pure_read_bind; [apply pure_read_load8|]. intros cnt.
    apply pure_read_ret.
  - intros m. reflexivity.
Qed.

Lemma pure_read_CopySid (len sid : Z) :
  pure_read (@CopySid error len sid) (fun m => peek_bytes m (Z.to_nat len) sid).
Proof.
  unfold CopySid.
  eapply pure_read_ext; cycle 1.
  - eapply pure_read_bind; [apply (pure_read_log (EvCopySid len sid)); reflexivity|].
    intros u. apply pure_read_load_bytes.
  - intros m. reflexivity.
Qed.

Lemma pure_alloc_SID_Copy (sid : Z) :
  pure_alloc (@SID_Copy error sid)
    (fun m => ByteArray <$> peek_SID m sid) (fun p => (p, None)).
Proof.
  eapply pure_alloc_ext; cycle 1.
  - unfold SID_Copy.
    eapply pure_alloc_bind; [apply pure_read_GetLengthSid|]. intros n.
    eapply pure_alloc_bind; [apply pure_read_CopySid|]. intros b.
    apply (pure_alloc_alloc_ret (ByteArray b) (fun p => (p, None))).
  - intros m. unfold peek_SID. simpl.
    destruct (peek8 m (sid + 1)); [|reflexivity]. simpl.
    destruct (peek_bytes m _ sid); reflexivity.
Qed.

End PureReads.

(** ** The copy loop of GetLogonSessions *)

Section CopyLoop.

Context {error : Type}.

Implicit Types w : World error.

Lemma u32_small (x : Z) : 0 <= x < 2 ^ 32 -> u32 x = x.
Proof. intros H. unfold u32. apply Z.mod_small. exact H. Qed.

Lemma u32_range (x : Z) : 0 <= u32 x < 2 ^ 32.
Proof. unfold u32. apply Z.mod_pos_bound. lia. Qed.

Lemma index_LUID_native (a cnt idx : Z) :
  0 <= idx < cnt ->
  @index_LUID error (mkslice (Native a) cnt cnt) idx
  = load_LUID (a + lsa.sizeof_LUID * idx).
Proof.
  intros H. unfold index_LUID. cbn [Len Data].
  replace ((0 <=? idx) && (idx <? cnt)) with true by (symmetry; lia).
  reflexivity.
Qed.

Lemma store_LUID_managed (k : nat) (cnt idx : Z) (v : LUID) w (l : list LUID) :
  0 <= idx < cnt ->
  heap w !! k = Some (LuidArray l) ->
  store_LUID (mkslice (Managed k) cnt cnt) idx v w
  = Returned tt (mkWorld (bytes w) (sessions w)
                   (<[k := LuidArray (<[Z.to_nat idx := v]> l)]> (heap w)) (trace w)).
Proof.
  intros H Hk. unfold store_LUID. cbn [Len Data].
  replace ((0 <=? idx) && (idx <? cnt)) with true by (symmetry; lia).
  now rewrite Hk.
Qed.

(** The loop fills the Go array behind [luids] from [idx] on with what
    the native memory holds, element by element; it touches nothing
    else, and what it adds to the trace are loads. *)
Lemma copy_LUIDs_spec (n : nat) : forall (idx : Z) w (l : list LUID) (k : nat) (a cnt : Z),
  heap w !! k = Some (LuidArray l) ->
  length l = Z.to_nat cnt ->
  0 <= idx -> idx + Z.of_nat n = cnt -> cnt < 2 ^ 32 ->
  exists loads l',
    Forall (fun e : Event error => is_load e = true) loads /\
    length l' = length l /\
    (forall i, (i < Z.to_nat idx)%nat -> l' !! i = l !! i) /\
    let w' := mkWorld (bytes w) (sessions w) (<[k := LuidArray l']> (heap w))
                (trace w ++ loads) in
    (copy_LUIDs n idx (mkslice (Managed k) cnt cnt) (mkslice (Native a) cnt cnt) w
       = Panicked w' \/
     (copy_LUIDs n idx (mkslice (Managed k) cnt cnt) (mkslice (Native a) cnt cnt) w
        = Returned tt w' /\
      forall i, idx <= i < cnt ->
        peek_LUID (bytes w) (a + lsa.sizeof_LUID * i) = l' !! Z.to_nat i)).
Proof.
  induction n as [|n IH]; intros idx w l k a cnt Hk Hlen Hidx Hcnt Hmax.
  - exists [], l. split; [constructor|]. split; [reflexivity|]. split; [auto|].
    right. split.
    + simpl. rewrite app_nil_r, list_insert_id by exact Hk. now destruct w.
    + intros i Hi. lia.
  - destruct (pure_read_load_LUID (error := error) (a + lsa.sizeof_LUID * idx) w)
      as (e1 & F1 & E1).
    destruct (peek_LUID (bytes w) (a + lsa.sizeof_LUID * idx)) as [v|] eqn:Hv.
    + set (l1 := <[Z.to_nat idx := v]> l).
      set (w1 := mkWorld (bytes w) (sessions w)
                   (<[k := LuidArray l1]> (heap w)) (trace w ++ e1)).
      assert (Hstep :
        copy_LUIDs (S n) idx (mkslice (Managed k) cnt cnt) (mkslice (Native a) cnt cnt) w
        = copy_LUIDs n (idx + 1) (mkslice (Managed k) cnt cnt)
            (mkslice (Native a) cnt cnt) w1).
      { cbn [copy_LUIDs]. unfold mbind at 1. unfold M_bind.
        rewrite index_LUID_native by lia. rewrite E1.
        unfold mbind at 1. unfold M_bind.
        rewrite (store_LUID_managed k cnt idx v (logged w e1) l) by (auto; lia).
        rewrite (u32_small (idx + 1)) by lia. reflexivity. }
      rewrite Hstep.
      assert (Hk1 : heap w1 !! k = Some (LuidArray l1)).
      { unfold w1. simpl. apply list_lookup_insert_eq. eapply lookup_lt_Some, Hk. }
      assert (Hlen1 : length l1 = Z.to_nat cnt).
      { unfold l1. now rewrite length_insert. }
      destruct (IH (idx + 1) w1 l1 k a cnt Hk1 Hlen1 ltac:(lia) ltac:(lia) Hmax)
        as (e2 & l2 & F2 & Hl2 & Hpre & Hrun).
      exists (e1 ++ e2), l2. split; [apply Forall_app; auto|].
      split; [unfold l1 in Hl2; rewrite length_insert in Hl2; exact Hl2|].
      split.
      { intros i Hi. rewrite Hpre by lia. unfold l1.
        apply list_lookup_insert_ne. lia. }
      assert (Hw : mkWorld (bytes w1) (sessions w1) (<[k := LuidArray l2]> (heap w1))
                     (trace w1 ++ e2)
                   = mkWorld (bytes w) (sessions w) (<[k := LuidArray l2]> (heap w))
                       (trace w ++ e1 ++ e2)).
      { unfold w1. simpl. rewrite list_insert_insert_eq. now rewrite app_assoc. }
      cbv zeta in Hrun. rewrite Hw in Hrun. cbv zeta.
      destruct Hrun as [Hp | [Hr Hall]]; [left; exact Hp | right].
      split; [exact Hr|].
      intros i Hi. destruct (Z.eq_dec i idx) as [->|Hne].
      * rewrite Hv. rewrite Hpre by lia. unfold l1. symmetry.
        apply list_lookup_insert_eq. lia.
      * apply (Hall i). lia.
    + exists e1, l. split; [exact F1|]. split; [reflexivity|]. split; [auto|].
      left. cbv zeta. rewrite list_insert_id by exact Hk.
      cbn [copy_LUIDs]. unfold mbind at 1. unfold M_bind.
      rewrite index_LUID_native by lia. rewrite E1. reflexivity.
Qed.

End CopyLoop.

(** ** Anatomy of the two public functions *)

Section Anatomy.

Context {error : Type} (os : LsaApi error).

Implicit Types w : World error.

(** [newLogonSessionData] dereferences the record, copies the SID if
    there is one, decodes the ten strings and allocates the result; it
    faults where the record, the SID or a string cannot be read. *)
Lemma newLogonSessionData_run (data : Z) w :
  exists evs,
    Forall (fun e : Event error => is_load e = true) evs /\
    newLogonSessionData data w =
    match sessions w !! data with
    | None => Panicked (logged w evs)
    | Some d =>
        if lsa.Sid d =? 0 then
          match marshal (bytes w) d Nil with
          | Some o =>
              Returned (Managed (length (heap w)))
                (mkWorld (bytes w) (sessions w) (heap w ++ [o]) (trace w ++ evs))
          | None => Panicked (logged w evs)
          end
        else
          match peek_SID (bytes w) (lsa.Sid d) with
          | None => Panicked (logged w evs)
          | Some b =>
              match marshal (bytes w) d (Managed (length (heap w))) with
              | Some o =>
                  Returned (Managed (S (length (heap w))))
                    (mkWorld (bytes w) (sessions w) (heap w ++ [ByteArray b; o])
                       (trace w ++ evs))
              | None =>
                  Panicked
                    (mkWorld (bytes w) (sessions w) (heap w ++ [ByteArray b])
                       (trace w ++ evs))
              end
          end
    end.
Proof.
  unfold newLogonSessionData. unfold mbind at 1. unfold M_bind.
  unfold deref_session.
  destruct (sessions w !! data) as [d|].
  2:{ exists [EvDeref data]. split; [repeat constructor | reflexivity]. }
  change ((log (EvDeref data);; mret d) w)
    with (Returned (error := error) d (logged w [EvDeref data])).
  cbv iota beta.
  match goal with
  | |- context [mbind ?k (if negb _ then _ else _)] =>
      assert (Hrest : forall sid,
                pure_alloc (k sid) (fun m => marshal m d sid) (fun p => p))
  end.
  { intros sid. eapply pure_alloc_ext; cycle 1.
    - repeat (eapply pure_alloc_bind;
              [apply pure_read_stringFromLSAString | intros ?]).
      apply pure_alloc_alloc.
    - intros m. reflexivity. }
  unfold mbind at 1. unfold M_bind.
  destruct (lsa.Sid d =? 0); cbn [negb].
  - rewrite ret_run.
    destruct (Hrest Nil (logged w [EvDeref data])) as (e2 & F2 & E2).
    rewrite E2. cbn [bytes sessions heap trace logged].
    exists ([EvDeref data] ++ e2).
    split; [apply Forall_app; split; [repeat constructor | exact F2]|].
    destruct (marshal (bytes w) d Nil).
    + now rewrite <- app_assoc.
    + unfold logged. cbn. now rewrite <- app_assoc.
  - unfold mbind at 1. unfold M_bind.
    destruct (pure_alloc_SID_Copy (error := error) (lsa.Sid d)
                (logged w [EvDeref data])) as (e2 & F2 & E2).
    rewrite E2. cbn [bytes sessions heap trace logged].
    destruct (peek_SID (bytes w) (lsa.Sid d)) as [b|]; cbn [fmap option_fmap option_map].
    2:{ exists ([EvDeref data] ++ e2).
        split; [apply Forall_app; split; [repeat constructor | exact F2]|].
        unfold logged. cbn. now rewrite <- app_assoc. }
    rewrite ret_run.
    match goal with
    | |- context [mbind _ _ ?w'] => destruct (Hrest (Managed (length (heap w))) w')
                                      as (e3 & F3 & E3)
    end.
    rewrite E3. cbn [bytes sessions heap trace logged].
    exists ([EvDeref data] ++ e2 ++ e3).
    split.
    { apply Forall_app; split; [repeat constructor|]. apply Forall_app; auto. }
    destruct (marshal (bytes w) d (Managed (length (heap w)))).
    + rewrite length_app. cbn [length]. rewrite Nat.add_1_r.
      rewrite <- !app_assoc. reflexivity.
    + unfold logged. cbn. rewrite <- !app_assoc. reflexivity.
Qed.

Lemma GetLogonSessions_unfold w :
  GetLogonSessions os w
  = match LsaEnumerateLogonSessions os w with
    | Returned (inl err) w1 => Returned (nil_slice, Some err) w1
    | Returned (inr (cnt, buffer)) w1 =>
        let luids := mkslice (Managed (length (heap w1))) cnt cnt in
        let l0 := replicate (Z.to_nat cnt) (lsa.mkLUID 0 0) in
        match copy_LUIDs (Z.to_nat cnt) 0 luids (mkslice (Native buffer) cnt cnt)
                (mkWorld (bytes w1) (sessions w1) (heap w1 ++ [LuidArray l0]) (trace w1))
        with
        | Returned _ w2 =>
            match LsaFreeReturnBuffer os buffer w2 with
            | Returned (Some err) w3 => Returned (nil_slice, Some err) w3
            | Returned None w3 => Returned (luids, None) w3
            | Panicked w3 => Panicked w3
            end
        | Panicked w2 => Panicked w2
        end
    | Panicked w1 => Panicked w1
    end.
Proof.
  unfold GetLogonSessions. unfold mbind at 1. unfold M_bind.
  destruct (LsaEnumerateLogonSessions os w) as [[err|[cnt buffer]] w1|w1];
    try reflexivity.
  unfold mbind at 1. unfold M_bind. unfold make_LUIDs.
  unfold mbind at 1. unfold M_bind. unfold alloc at 1.
  cbv zeta. unfold mret at 1. unfold M_ret at 1.
  unfold mbind at 1. unfold M_bind.
  destruct (copy_LUIDs _ _ _ _ _) as [[] w2|w2]; [|reflexivity].
  unfold mbind at 1. unfold M_bind.
  destruct (LsaFreeReturnBuffer os buffer w2) as [[err|] w3|w3]; reflexivity.
Qed.

(** Every run of [GetLogonSessions] is one of three: the query fails and
    its error is returned at once; the copy faults; or the copy
    completes, the buffer is freed, and the outcome follows the result
    of the free. *)
Lemma GetLogonSessions_anatomy w :
  exists r m s,
    sysEnumerateLogonSessions os w = (r, (m, s)) /\
    match r with
    | inl e =>
        GetLogonSessions os w
        = Returned (nil_slice, Some e)
            (mkWorld m s (heap w) (trace w ++ [EvEnumerate (inl e)]))
    | inr (c, buf) =>
        exists loads l,
          Forall (fun e : Event error => is_load e = true) loads /\
          length l = Z.to_nat (u32 c) /\
          let w2 := mkWorld m s (heap w ++ [LuidArray l])
                      (trace w ++ EvEnumerate (inr (u32 c, u64 buf)) :: loads) in
          (GetLogonSessions os w = Panicked w2 \/
           ((forall i, 0 <= i < u32 c ->
               peek_LUID m (u64 buf + lsa.sizeof_LUID * i) = l !! Z.to_nat i) /\
            exists fr m' s',
              sysFreeReturnBuffer os (u64 buf) w2 = (fr, (m', s')) /\
              GetLogonSessions os w
              = Returned
                  match fr with
                  | Some e => (nil_slice, Some e)
                  | None => (mkslice (Managed (length (heap w))) (u32 c) (u32 c), None)
                  end
                  (mkWorld m' s' (heap w2) (trace w2 ++ [EvFree (u64 buf) fr]))))
    end.
Proof.
  rewrite GetLogonSessions_unfold. unfold LsaEnumerateLogonSessions.
  destruct (sysEnumerateLogonSessions os w) as [r [m s]] eqn:Eq.
  exists r, m, s. split; [reflexivity|].
  destruct r as [e | [c buf]]; [reflexivity|].
  set (cnt := u32 c). set (buffer := u64 buf).
  cbn [heap bytes sessions trace]. cbv zeta.
  set (k := length (heap w)).
  set (l0 := replicate (Z.to_nat cnt) (lsa.mkLUID 0 0)).
  set (w1' := mkWorld m s (heap w ++ [LuidArray l0])
                (trace w ++ [EvEnumerate (inr (cnt, buffer))])).
  pose proof (u32_range c) as Hc. fold cnt in Hc.
  destruct (copy_LUIDs_spec (Z.to_nat cnt) 0 w1' l0 k buffer cnt)
    as (loads & l & Fl & Hlen & _ & Hrun).
  { unfold w1', k. simpl. apply list_lookup_middle. reflexivity. }
  { unfold l0. apply length_replicate. }
  { lia. } { lia. } { lia. }
  assert (Hw2 : mkWorld (bytes w1') (sessions w1') (<[k := LuidArray l]> (heap w1'))
                  (trace w1' ++ loads)
                = mkWorld m s (heap w ++ [LuidArray l])
                    (trace w ++ EvEnumerate (inr (cnt, buffer)) :: loads)).
  { unfold w1', k. simpl. f_equal.
    - replace (length (heap w)) with (length (heap w) + 0)%nat by lia.
      now rewrite insert_app_r.
    - now rewrite <- app_assoc. }
  cbv zeta in Hrun. rewrite Hw2 in Hrun.
  exists loads, l. split; [exact Fl|]. split.
  { rewrite Hlen. unfold l0. apply length_replicate. }
  set (w2 := mkWorld m s (heap w ++ [LuidArray l])
               (trace w ++ EvEnumerate (inr (cnt, buffer)) :: loads)) in *.
  destruct Hrun as [Hp | [Hr Hall]].
  - left. rewrite Hp. reflexivity.
  - right. split; [exact Hall|]. rewrite Hr.
    unfold LsaFreeReturnBuffer.
    destruct (sysFreeReturnBuffer os buffer w2) as [fr [m' s']] eqn:Ef.
    exists fr, m', s'. split; [reflexivity|].
    destruct fr; reflexivity.
Qed.

Lemma newLogonSessionData_reads (data : Z) w :
  exists loads new,
    Forall (fun e : Event error => is_load e = true) loads /\
    world_of (newLogonSessionData data w)
    = mkWorld (bytes w) (sessions w) (heap w ++ new) (trace w ++ loads).
Proof.
  destruct (newLogonSessionData_run data w) as (evs & F & E). rewrite E.
  exists evs.
  destruct (sessions w !! data) as [d|]; [|exists []; split; [exact F|]].
  2:{ unfold logged. cbn. now rewrite app_nil_r. }
  destruct (lsa.Sid d =? 0).
  - destruct (marshal _ _ _); eexists; (split; [exact F|]); cbn.
    + reflexivity.
    + instantiate (1 := []). now rewrite app_nil_r.
  - destruct (peek_SID _ _).
    + destruct (marshal _ _ _); eexists; (split; [exact F|]); cbn; reflexivity.
    + exists []. split; [exact F|]. cbn. now rewrite app_nil_r.
Qed.

(** Every run of [GetLogonSessionData] is one of three, as for
    [GetLogonSessions]. *)
Lemma GetLogonSessionData_anatomy (luid : pointer) w :
  exists r m s,
    sysGetLogonSessionData os luid w = (r, (m, s)) /\
    match r with
    | inl e =>
        GetLogonSessionData os luid w
        = Returned (Nil, Some e)
            (mkWorld m s (heap w) (trace w ++ [EvGetData luid (inl e)]))
    | inr dataBuffer =>
        let w1 := mkWorld m s (heap w) (trace w ++ [EvGetData luid (inr dataBuffer)]) in
        exists loads new,
          Forall (fun e : Event error => is_load e = true) loads /\
          let w2 := mkWorld m s (heap w ++ new)
                      (trace w ++ EvGetData luid (inr dataBuffer) :: loads) in
          ((newLogonSessionData dataBuffer w1 = Panicked w2 /\
            GetLogonSessionData os luid w = Panicked w2) \/
           exists p fr m' s',
             newLogonSessionData dataBuffer w1 = Returned p w2 /\
             sysFreeReturnBuffer os dataBuffer w2 = (fr, (m', s')) /\
             GetLogonSessionData os luid w
             = Returned
                 match fr with
                 | Some e => (Nil, Some e)
                 | None => (p, None)
                 end
                 (mkWorld m' s' (heap w2) (trace w2 ++ [EvFree dataBuffer fr])))
    end.
Proof.
  destruct (sysGetLogonSessionData os luid w) as [r [m s]] eqn:Eq.
  exists r, m, s. split; [reflexivity|].
  assert (E0 : LsaGetLogonSessionData os luid w
               = Returned r (mkWorld m s (heap w) (trace w ++ [EvGetData luid r]))).
  { unfold LsaGetLogonSessionData. now rewrite Eq. }
  unfold GetLogonSessionData. rewrite !bind_run, E0.
  destruct r as [e | dataBuffer]; [reflexivity|].
  cbv zeta.
  set (w1 := mkWorld m s (heap w) (trace w ++ [EvGetData luid (inr dataBuffer)])).
  destruct (newLogonSessionData_reads dataBuffer w1) as (loads & new & F & Hw).
  exists loads, new. split; [exact F|].
  assert (Hw2 : world_of (newLogonSessionData dataBuffer w1)
                = mkWorld m s (heap w ++ new)
                    (trace w ++ EvGetData luid (inr dataBuffer) :: loads)).
  { rewrite Hw. unfold w1. cbn. now rewrite <- app_assoc. }
  clear Hw. rewrite !bind_run.
  destruct (newLogonSessionData dataBuffer w1) as [p w2|w2]; cbn in Hw2; subst w2.
  - right.
    set (w2 := mkWorld m s (heap w ++ new)
                 (trace w ++ EvGetData luid (inr dataBuffer) :: loads)).
    assert (Hf : exists fr m' s', sysFreeReturnBuffer os dataBuffer w2 = (fr, (m', s'))).
    { destruct (sysFreeReturnBuffer os dataBuffer w2) as [fr [m' s']]. eauto. }
    destruct Hf as (fr & m' & s' & Ef).
    exists p, fr, m', s'. split; [reflexivity|]. split; [exact Ef|].
    rewrite bind_run. unfold LsaFreeReturnBuffer. rewrite Ef. destruct fr; reflexivity.
  - left. split; reflexivity.
Qed.

End Anatomy.

(** ** The shape of a run *)

Section Shapes.

Context {error : Type} (os : LsaApi error).

Implicit Types w : World error.
Implicit Types evs loads : list (Event error).

Lemma events_since_app w m s h evs :
  events_since w (mkWorld m s h (trace w ++ evs)) = evs.
Proof. unfold events_since. cbn. apply drop_app_length. Qed.

Lemma calls_loads loads :
  Forall (fun e => is_load e = true) loads -> calls loads = [].
Proof.
  induction 1 as [|e l He _ IH]; [reflexivity|].
  unfold calls in *. cbn. destruct e; try discriminate He; exact IH.
Qed.

Lemma frees_loads loads :
  Forall (fun e => is_load e = true) loads -> frees loads = [].
Proof.
  induction 1 as [|e l He _ IH]; [reflexivity|].
  unfold frees in *. cbn. destruct e; try discriminate He; exact IH.
Qed.

Lemma query_buffer_no_error (q : Event error) b :
  query_buffer q = Some b -> call_error q = None.
Proof. destruct q as [[|[]]|? []| | | | | |]; cbn; congruence. Qed.

Lemma load_not_call (e : Event error) :
  is_load e = true -> call_error e = None /\ query_buffer e = None.
Proof. destruct e; cbn; try discriminate; auto. Qed.

Lemma GetLogonSessions_shape w :
  run_shape (events_since w (world_of (GetLogonSessions os w)))
    (verdict (GetLogonSessions os w)) /\
  exists r, head (events_since w (world_of (GetLogonSessions os w)))
            = Some (EvEnumerate r).
Proof.
  destruct (GetLogonSessions_anatomy os w) as (r & m & s & _ & H).
  destruct r as [e | [c buf]].
  - rewrite H. cbn [world_of verdict]. rewrite events_since_app.
    split; [now apply (shape_query_failed _ e) | eauto].
  - destruct H as (loads & l & F & _ & H). cbv zeta in H.
    destruct H as [H | (_ & fr & m' & s' & _ & H)]; rewrite H;
      cbn [world_of verdict heap trace]; [|rewrite <- app_assoc];
      rewrite events_since_app.
    + split; [now apply (shape_faulted _ (u64 buf)) | eauto].
    + split; [|eauto].
      destruct fr; cbn; now apply (shape_freed _ (u64 buf)).
Qed.

Lemma GetLogonSessionData_shape (luid : pointer) w :
  run_shape (events_since w (world_of (GetLogonSessionData os luid w)))
    (verdict (GetLogonSessionData os luid w)) /\
  exists r, head (events_since w (world_of (GetLogonSessionData os luid w)))
            = Some (EvGetData luid r).
Proof.
  destruct (GetLogonSessionData_anatomy os luid w) as (r & m & s & _ & H).
  destruct r as [e | buf].
  - rewrite H. cbn [world_of verdict]. rewrite events_since_app.
    split; [now apply (shape_query_failed _ e) | eauto].
  - cbv zeta in H. destruct H as (loads & new & F & H).
    destruct H as [[_ H] | (p & fr & m' & s' & _ & _ & H)]; rewrite H;
      cbn [world_of verdict heap trace]; [|rewrite <- app_assoc];
      rewrite events_since_app.
    + split; [now apply (shape_faulted _ buf) | eauto].
    + split; [|eauto].
      destruct fr; cbn; now apply (shape_freed _ buf).
Qed.

(** *** What the shapes say *)

Lemma shape_frees evs v q b :
  run_shape evs v -> In q evs -> query_buffer q = Some b -> v <> None ->
  frees evs = [b] /\ exists before fr, evs = before ++ [EvFree b fr].
Proof.
  intros Hs Hin Hq Hv.
  destruct Hs as [q0 e Hq0 He | q0 b0 loads Hq0 Hb0 F | q0 b0 loads fr Hq0 Hb0 F].
  - destruct Hin as [<-|[]]. apply query_buffer_no_error in Hq. congruence.
  - congruence.
  - assert (b0 = b) as ->.
    { cbn in Hin. destruct Hin as [<-|Hin]; [congruence|].
      apply in_app_or in Hin. destruct Hin as [Hin|[<-|[]]]; [|discriminate Hq].
      rewrite Forall_forall in F. apply list_elem_of_In, F, load_not_call in Hin.
      destruct Hin; congruence. }
    split; [|exists (q0 :: loads), fr; reflexivity].
    unfold frees. cbn [omap list_omap].
    change (omap _ (loads ++ [EvFree b fr])) with (frees (loads ++ [EvFree b fr])).
    unfold frees. rewrite omap_app. fold (frees loads). rewrite (frees_loads _ F).
    destruct q0 as [[|[]]|? []| | | | | |]; cbn in *; congruence.
Qed.

Lemma shape_calls evs v :
  run_shape evs v ->
  exists q, head evs = Some q /\ is_query q = true /\
    List.filter is_query evs = [q] /\
    (calls evs = [q] \/
     exists b fr, query_buffer q = Some b /\ calls evs = [q; EvFree b fr]).
Proof.
  intros Hs.
  assert (Hql : forall loads, Forall (fun e : Event error => is_load e = true) loads ->
                  List.filter is_query loads = []).
  { induction 1 as [|e l He _ IH]; [reflexivity|].
    cbn. destruct e; try discriminate He; exact IH. }
  assert (Hc : forall q : Event error, is_query q = true -> is_call q = true).
  { intros []; cbn; congruence. }
  destruct Hs as [q0 e Hq0 He | q0 b0 loads Hq0 Hb0 F | q0 b0 loads fr Hq0 Hb0 F];
    exists q0; (split; [reflexivity|]); (split; [exact Hq0|]).
  - cbn. rewrite Hq0. unfold calls. cbn. rewrite (Hc _ Hq0). auto.
  - cbn. rewrite Hq0, (Hql _ F). unfold calls. cbn. rewrite (Hc _ Hq0).
    fold (calls loads). rewrite (calls_loads _ F). auto.
  - cbn. rewrite Hq0, List.filter_app, (Hql _ F). cbn. split; [reflexivity|].
    right. exists b0, fr. split; [exact Hb0|].
    unfold calls. cbn. rewrite (Hc _ Hq0), List.filter_app.
    fold (calls loads). rewrite (calls_loads _ F). reflexivity.
Qed.

Lemma shape_error evs v ev e :
  run_shape evs v -> In ev evs -> call_error ev = Some e ->
  v = Some (Some e) /\
  (exists before, evs = before ++ [ev] /\
     Forall (fun e' => call_error e' = None) before) /\
  (length (calls evs) <= 2)%nat.
Proof.
  intros Hs Hin He.
  assert (Hl : forall loads, Forall (fun e : Event error => is_load e = true) loads ->
                 Forall (fun e' : Event error => call_error e' = None) loads).
  { intros loads F. eapply Forall_impl; [exact F|]. intros x Hx.
    now apply load_not_call in Hx. }
  destruct (shape_calls _ _ Hs) as (q & _ & _ & _ & Hcalls).
  assert (Hlen : (length (calls evs) <= 2)%nat).
  { destruct Hcalls as [->|(b & fr & _ & ->)]; cbn; lia. }
  destruct Hs as [q0 e0 Hq0 He0 | q0 b0 loads Hq0 Hb0 F | q0 b0 loads fr Hq0 Hb0 F].
  - destruct Hin as [<-|[]]. split; [congruence|]. split; [|exact Hlen].
    exists []. split; [reflexivity | constructor].
  - exfalso. destruct Hin as [<-|Hin].
    + apply query_buffer_no_error in Hb0. congruence.
    + rewrite Forall_forall in F. apply list_elem_of_In, F, load_not_call in Hin.
      destruct Hin; congruence.
  - destruct Hin as [<-|Hin].
    { apply query_buffer_no_error in Hb0. congruence. }
    apply in_app_or in Hin. destruct Hin as [Hin|[<-|[]]].
    { rewrite Forall_forall in F. apply list_elem_of_In, F, load_not_call in Hin.
      destruct Hin; congruence. }
    destruct fr as [e'|]; [|discriminate He]. cbn in He.
    split; [congruence|]. split; [|exact Hlen].
    exists (q0 :: loads). split; [reflexivity|].
    constructor; [now apply query_buffer_no_error in Hb0 | now apply Hl].
Qed.

End Shapes.

(** ** The public functions and the LSA entry points *)

Section Claims.

Context {error : Type} (os : LsaApi error).

Implicit Types w : World error.

Lemma GetLogonSessions_nil_on_error w v e w' :
  GetLogonSessions os w = Returned (v, Some e) w' -> v = nil_slice.
Proof.
  intros Hr. destruct (GetLogonSessions_anatomy os w) as (r & m & s & _ & H).
  destruct r as [e0 | [c buf]]; [congruence|].
  destruct H as (loads & l & _ & _ & H). cbv zeta in H.
  destruct H as [H | (_ & fr & m' & s' & _ & H)]; [congruence|].
  rewrite H in Hr. destruct fr; congruence.
Qed.

Lemma GetLogonSessionData_nil_on_error (luid : pointer) w v e w' :
  GetLogonSessionData os luid w = Returned (v, Some e) w' -> v = Nil.
Proof.
  intros Hr. destruct (GetLogonSessionData_anatomy os luid w) as (r & m & s & _ & H).
  destruct r as [e0 | buf]; [congruence|].
  cbv zeta in H. destruct H as (loads & new & _ & H).
  destruct H as [[_ H] | (p & fr & m' & s' & _ & _ & H)]; [congruence|].
  rewrite H in Hr. destruct fr; congruence.
Qed.

Lemma verdict_error {A} (out : Res error (A * option error)) (e : error) :
  verdict out = Some (Some e) -> exists v w', out = Returned (v, Some e) w'.
Proof. destruct out as [[v [e'|]] w'|w']; cbn; intros H; inversion H; eauto. Qed.

(** C1: when the initial query succeeds and the function returns, the
    buffer the query handed out has been passed to [LsaFreeReturnBuffer]
    exactly once, and that call is the last thing the run did. *)
Theorem native_buffer_freed_once w :
  (forall c buf ms r w',
     sysEnumerateLogonSessions os w = (inr (c, buf), ms) ->
     GetLogonSessions os w = Returned r w' ->
     frees (events_since w w') = [u64 buf] /\
     exists before fr, events_since w w' = before ++ [EvFree (u64 buf) fr]) /\
  (forall luid buf ms r w',
     sysGetLogonSessionData os luid w = (inr buf, ms) ->
     GetLogonSessionData os luid w = Returned r w' ->
     frees (events_since w w') = [buf] /\
     exists before fr, events_since w w' = before ++ [EvFree buf fr]).
Proof.
  split.
  - intros c buf ms r w' Hq Hr.
    destruct (GetLogonSessions_shape os w) as [Hs _].
    destruct (GetLogonSessions_anatomy os w) as (r0 & m & s & Hq' & H).
    rewrite Hq in Hq'. inversion Hq'; subst r0 ms; clear Hq'.
    destruct H as (loads & l & _ & _ & H). cbv zeta in H.
    rewrite Hr in Hs. cbn [world_of] in Hs.
    apply (shape_frees _ _ (EvEnumerate (inr (u32 c, u64 buf))) (u64 buf)) in Hs.
    + exact Hs.
    + destruct H as [H | (_ & fr & m' & s' & _ & H)]; [congruence|].
      rewrite H in Hr. inversion Hr; subst.
      cbn [heap trace]. rewrite <- app_assoc, events_since_app. now left.
    + reflexivity.
    + destruct r. discriminate.
  - intros luid buf ms r w' Hq Hr.
    destruct (GetLogonSessionData_shape os luid w) as [Hs _].
    destruct (GetLogonSessionData_anatomy os luid w) as (r0 & m & s & Hq' & H).
    rewrite Hq in Hq'. inversion Hq'; subst r0 ms; clear Hq'.
    cbv zeta in H. destruct H as (loads & new & _ & H).
    rewrite Hr in Hs. cbn [world_of] in Hs.
    apply (shape_frees _ _ (EvGetData luid (inr buf)) buf) in Hs.
    + exact Hs.
    + destruct H as [[_ H] | (p & fr & m' & s' & _ & _ & H)]; [congruence|].
      rewrite H in Hr. inversion Hr; subst.
      cbn [heap trace]. rewrite <- app_assoc, events_since_app. now left.
    + reflexivity.
    + destruct r. discriminate.
Qed.

(** C2: whichever LSA call comes back with an error, the function returns
    that very error with a nil result; the failing call is the last one
    made, no call before it failed, and at most two calls were made: no
    retry, no recovery.  A failing query is answered at once. *)
Theorem lsa_error_returned_unchanged w :
  (forall e ms,
     sysEnumerateLogonSessions os w = (inl e, ms) ->
     exists w', GetLogonSessions os w = Returned (nil_slice, Some e) w' /\
                events_since w w' = [EvEnumerate (inl e)]) /\
  (forall luid e ms,
     sysGetLogonSessionData os luid w = (inl e, ms) ->
     exists w', GetLogonSessionData os luid w = Returned (Nil, Some e) w' /\
                events_since w w' = [EvGetData luid (inl e)]) /\
  (forall ev e,
     In ev (events_since w (world_of (GetLogonSessions os w))) ->
     call_error ev = Some e ->
     (exists w', GetLogonSessions os w = Returned (nil_slice, Some e) w') /\
     (exists before,
        events_since w (world_of (GetLogonSessions os w)) = before ++ [ev] /\
        Forall (fun e' => call_error e' = None) before) /\
     (length (calls (events_since w (world_of (GetLogonSessions os w)))) <= 2)%nat) /\
  (forall luid ev e,
     In ev (events_since w (world_of (GetLogonSessionData os luid w))) ->
     call_error ev = Some e ->
     (exists w', GetLogonSessionData os luid w = Returned (Nil, Some e) w') /\
     (exists before,
        events_since w (world_of (GetLogonSessionData os luid w)) = before ++ [ev] /\
        Forall (fun e' => call_error e' = None) before) /\
     (length (calls (events_since w (world_of (GetLogonSessionData os luid w)))) <= 2)%nat).
Proof.
  split; [|split; [|split]].
  - intros e [m s] Hq.
    destruct (GetLogonSessions_anatomy os w) as (r0 & m0 & s0 & Hq' & H).
    rewrite Hq in Hq'. inversion Hq'; subst. eexists. split; [exact H|].
    apply events_since_app.
  - intros luid e [m s] Hq.
    destruct (GetLogonSessionData_anatomy os luid w) as (r0 & m0 & s0 & Hq' & H).
    rewrite Hq in Hq'. inversion Hq'; subst. eexists. split; [exact H|].
    apply events_since_app.
  - intros ev e Hin He.
    destruct (GetLogonSessions_shape os w) as [Hs _].
    destruct (shape_error _ _ _ _ Hs Hin He) as (Hv & Hlast & Hlen).
    split; [|split; assumption].
    destruct (verdict_error _ _ Hv) as (v & w' & Hr).
    exists w'. rewrite Hr. now rewrite (GetLogonSessions_nil_on_error _ _ _ _ Hr).
  - intros luid ev e Hin He.
    destruct (GetLogonSessionData_shape os luid w) as [Hs _].
    destruct (shape_error _ _ _ _ Hs Hin He) as (Hv & Hlast & Hlen).
    split; [|split; assumption].
    destruct (verdict_error _ _ Hv) as (v & w' & Hr).
    exists w'. rewrite Hr. now rewrite (GetLogonSessionData_nil_on_error _ _ _ _ _ Hr).
Qed.

End Claims.

(** ** The procedures of the operating system a run enters *)

Section OsCalls.

Context {error : Type} (os : LsaApi error).

Implicit Types w : World error.

Lemma os_calls_app (e1 e2 : list (Event error)) :
  os_calls (e1 ++ e2) = os_calls e1 ++ os_calls e2.
Proof. unfold os_calls. apply List.filter_app. Qed.

Lemma quiet_ret {A} (a : A) : quiet (mret a : M error A).
Proof. intros w. exists []. split; [cbn; now rewrite app_nil_r | reflexivity]. Qed.

Lemma quiet_panic {A} : quiet (@panic error A).
Proof. intros w. exists []. split; [cbn; now rewrite app_nil_r | reflexivity]. Qed.

Lemma quiet_bind {A B} (m : M error A) (k : A -> M error B) :
  quiet m -> (forall a, quiet (k a)) -> quiet (m ≫= k).
Proof.
  intros Hm Hk w. destruct (Hm w) as (e1 & T1 & Q1). rewrite bind_run.
  destruct (m w) as [a w1|w1]; cbn [world_of] in *.
  - destruct (Hk a w1) as (e2 & T2 & Q2). exists (e1 ++ e2). split.
    + rewrite T2, T1. now rewrite app_assoc.
    + now rewrite os_calls_app, Q1, Q2.
  - exists e1. split; assumption.
Qed.

Lemma quiet_load8 (addr : Z) : quiet (@load8 error addr).
Proof.
  intros w. exists [EvLoad addr]. split; [|reflexivity].
  unfold load8. destruct (bytes w !! addr); reflexivity.
Qed.

Lemma quiet_load_byte (addr : Z) : quiet (@load_byte error addr).
Proof.
  intros w. exists [EvLoad addr]. split; [|reflexivity].
  unfold load_byte. destruct (bytes w !! addr); reflexivity.
Qed.

Lemma quiet_load16 (addr : Z) : quiet (@load16 error addr).
Proof.
  unfold load16. apply quiet_bind; [apply quiet_load8|]. intros b0.
  apply quiet_bind; [apply quiet_load8|]. intros b1. apply quiet_ret.
Qed.

Lemma quiet_load32 (addr : Z) : quiet (@load32 error addr).
Proof.
  unfold load32. apply quiet_bind; [apply quiet_load16|]. intros lo.
  apply quiet_bind; [apply quiet_load16|]. intros hi. apply quiet_ret.
Qed.

Lemma quiet_load_bytes (n : nat) : forall addr : Z, quiet (@load_bytes error n addr).
Proof.
  induction n as [|n IH]; intros addr; cbn [load_bytes]; [apply quiet_ret|].
  apply quiet_bind; [apply quiet_load_byte|]. intros b.
  apply quiet_bind; [apply IH|]. intros bs. apply quiet_ret.
Qed.

Lemma quiet_scan_utf16 (n : nat) : forall addr : Z, quiet (@scan_utf16 error n addr).
Proof.
  induction n as [|n IH]; intros addr; cbn [scan_utf16]; [apply quiet_ret|].
  apply quiet_bind; [apply quiet_load16|]. intros v.
  destruct (v =? 0); [apply quiet_ret|].
  apply quiet_bind; [apply IH|]. intros rest. apply quiet_ret.
Qed.

Lemma quiet_stringFromLSAString (s : lsa.LSA_UNICODE_STRING) :
  quiet (@stringFromLSAString error s).
Proof.
  unfold stringFromLSAString.
  destruct ((lsa.Buffer s =? 0) || (lsa.Length s =? 0)); [apply quiet_ret|].
  unfold UTF16ToString. cbn [Data Len].
  apply quiet_bind; [apply quiet_scan_utf16|]. intros us. apply quiet_ret.
Qed.

Lemma quiet_alloc (o : object) : quiet (@alloc error o).
Proof. intros w. exists []. split; [cbn; now rewrite app_nil_r | reflexivity]. Qed.

Lemma quiet_index_LUID (sl : slice) (idx : Z) : quiet (@index_LUID error sl idx).
Proof.
  unfold index_LUID. destruct ((0 <=? idx) && (idx <? Len sl)); [|apply quiet_panic].
  destruct (Data sl) as [|a|n]; [apply quiet_panic| |].
  - unfold load_LUID. apply quiet_bind; [apply quiet_load32|]. intros lo.
    apply quiet_bind; [apply quiet_load32|]. intros hi. apply quiet_ret.
  - intros w. exists []. split; [|reflexivity]. rewrite app_nil_r.
    destruct (heap w !! n) as [[l| |]|]; try reflexivity.
    destruct (l !! Z.to_nat idx); reflexivity.
Qed.

Lemma quiet_store8 (addr x : Z) : quiet (@store8 error addr x).
Proof.
  intros w. exists [EvStore addr]. split; [|reflexivity].
  unfold store8. destruct (bytes w !! addr); reflexivity.
Qed.

Lemma quiet_store32 (addr x : Z) : quiet (@store32 error addr x).
Proof.
  unfold store32. repeat (apply quiet_bind; [apply quiet_store8|intros ?]).
  apply quiet_store8.
Qed.

Lemma quiet_store_LUID (sl : slice) (idx : Z) (v : LUID) :
  quiet (@store_LUID error sl idx v).
Proof.
  unfold store_LUID. destruct ((0 <=? idx) && (idx <? Len sl)); [|apply quiet_panic].
  destruct (Data sl) as [|a|n]; [apply quiet_panic| |].
  - apply quiet_bind; [apply quiet_store32|]. intros ?. apply quiet_store32.
  - intros w. exists []. split; [|reflexivity]. rewrite app_nil_r.
    destruct (heap w !! n) as [[l| |]|]; reflexivity.
Qed.

Lemma quiet_copy_LUIDs (n : nat) : forall (idx : Z) (luids data : slice),
  quiet (@copy_LUIDs error n idx luids data).
Proof.
  induction n as [|n IH]; intros idx luids data; cbn [copy_LUIDs]; [apply quiet_ret|].
  apply quiet_bind; [apply quiet_index_LUID|]. intros v.
  apply quiet_bind; [apply quiet_store_LUID|]. intros ?. apply IH.
Qed.

Lemma log_run (e : Event error) w : log e w = Returned tt (logged w [e]).
Proof. reflexivity. Qed.

Lemma load8_run (addr : Z) w :
  load8 addr w = match peek8 (bytes w) addr with
                 | Some v => Returned v (logged w [EvLoad addr])
                 | None => Panicked (logged w [EvLoad addr])
                 end.
Proof. unfold load8, peek8. destruct (bytes w !! addr); reflexivity. Qed.

Lemma GetLengthSid_run (sid : Z) w :
  GetLengthSid sid w
  = match peek8 (bytes w) (sid + 1) with
    | Some cnt =>
        Returned (8 + 4 * cnt) (logged w [EvGetLengthSid sid; EvLoad (sid + 1)])
    | None => Panicked (logged w [EvGetLengthSid sid; EvLoad (sid + 1)])
    end.
Proof.
  unfold GetLengthSid. rewrite bind_run, log_run, bind_run, load8_run.
  cbn [bytes logged]. destruct (peek8 (bytes w) (sid + 1));
    rewrite ?ret_run, logged_logged; reflexivity.
Qed.

Lemma CopySid_os_calls (len sid : Z) w :
  exists evs,
    trace (world_of (CopySid len sid w)) = trace w ++ evs /\
    os_calls evs = [EvCopySid len sid].
Proof.
  unfold CopySid. rewrite bind_run, log_run.
  destruct (quiet_load_bytes (Z.to_nat len) sid (logged w [EvCopySid len sid]))
    as (e2 & T2 & Q2).
  exists ([EvCopySid len sid] ++ e2). split.
  - rewrite T2. cbn. now rewrite <- app_assoc.
  - rewrite os_calls_app, Q2. reflexivity.
Qed.

Lemma SID_Copy_os_calls (sid : Z) w :
  sid <> 0 ->
  exists evs,
    trace (world_of (SID_Copy sid w)) = trace w ++ evs /\
    os_calls evs = sid_calls (bytes w) sid.
Proof.
  intros Hsid. unfold sid_calls. destruct (Z.eqb_spec sid 0) as [|_]; [contradiction|].
  unfold SID_Copy. rewrite bind_run, GetLengthSid_run.
  destruct (peek8 (bytes w) (sid + 1)) as [cnt|].
  2:{ exists [EvGetLengthSid sid; EvLoad (sid + 1)]. split; reflexivity. }
  set (w1 := logged w [EvGetLengthSid sid; EvLoad (sid + 1)]).
  destruct (CopySid_os_calls (8 + 4 * cnt) sid w1) as (e2 & T2 & Q2).
  exists ([EvGetLengthSid sid; EvLoad (sid + 1)] ++ e2). split.
  - rewrite bind_run.
    destruct (CopySid (8 + 4 * cnt) sid w1) as [b w2|w2]; cbn [world_of] in *.
    + rewrite bind_run. unfold alloc. cbn [world_of trace]. rewrite T2.
      unfold w1. cbn. now rewrite <- app_assoc.
    + rewrite T2. unfold w1. cbn. now rewrite <- app_assoc.
  - rewrite os_calls_app, Q2. reflexivity.
Qed.

Lemma newLogonSessionData_os_calls (data : Z) w :
  exists evs,
    trace (world_of (newLogonSessionData data w)) = trace w ++ evs /\
    os_calls evs = match sessions w !! data with
                   | Some d => sid_calls (bytes w) (lsa.Sid d)
                   | None => []
                   end.
Proof.
  unfold newLogonSessionData. rewrite bind_run. unfold deref_session.
  destruct (sessions w !! data) as [d|].
  2:{ exists [EvDeref data]. split; reflexivity. }
  change ((log (EvDeref data);; mret d) w)
    with (Returned (error := error) d (logged w [EvDeref data])).
  cbv iota beta.
  match goal with
  | |- context [mbind ?k (if negb _ then _ else _)] =>
      assert (Hrest : forall sid, quiet (k sid))
  end.
  { intros sid.
    repeat (apply quiet_bind; [apply quiet_stringFromLSAString | intros ?]).
    apply quiet_alloc. }
  rewrite bind_run. unfold sid_calls at 1.
  destruct (Z.eqb_spec (lsa.Sid d) 0) as [Hz|Hnz]; cbn [negb].
  - rewrite ret_run.
    destruct (Hrest Nil (logged w [EvDeref data])) as (e2 & T2 & Q2).
    exists ([EvDeref data] ++ e2). split.
    + rewrite T2. cbn. now rewrite <- app_assoc.
    + rewrite os_calls_app, Q2. reflexivity.
  - destruct (SID_Copy_os_calls (lsa.Sid d) (logged w [EvDeref data]) Hnz)
      as (e2 & T2 & Q2).
    cbn [bytes logged] in Q2. unfold sid_calls in Q2.
    destruct (Z.eqb_spec (lsa.Sid d) 0) as [|_]; [contradiction|].
    rewrite bind_run.
    destruct (SID_Copy (lsa.Sid d) (logged w [EvDeref data])) as [[sid e] w2|w2];
      cbn [world_of] in T2.
    + rewrite ret_run.
      destruct (Hrest sid w2) as (e3 & T3 & Q3).
      exists ([EvDeref data] ++ e2 ++ e3). split.
      * rewrite T3, T2. cbn. rewrite <- !app_assoc. reflexivity.
      * rewrite !os_calls_app, Q2, Q3. cbn. now rewrite app_nil_r.
    + exists ([EvDeref data] ++ e2). split.
      * cbn [world_of]. rewrite T2. cbn. now rewrite <- app_assoc.
      * rewrite os_calls_app, Q2. reflexivity.
Qed.

Lemma GetLogonSessions_os_calls w :
  exists r tail,
    events_since w (world_of (GetLogonSessions os w)) = EvEnumerate r :: tail /\
    match query_buffer (EvEnumerate r), GetLogonSessions os w with
    | Some b, Returned _ _ => exists fr, os_calls tail = [EvFree b fr]
    | _, _ => os_calls tail = []
    end.
Proof.
  rewrite GetLogonSessions_unfold. unfold LsaEnumerateLogonSessions.
  destruct (sysEnumerateLogonSessions os w) as [r [m s]].
  destruct r as [e | [c buf]].
  { exists (inl e), []. cbn [world_of]. rewrite events_since_app. now split. }
  set (cnt := u32 c). set (buffer := u64 buf).
  cbn [heap bytes sessions trace]. cbv zeta.
  exists (inr (cnt, buffer)).
  match goal with
  | |- context [copy_LUIDs ?n ?i ?l ?d ?w0] =>
      destruct (quiet_copy_LUIDs n i l d w0) as (e2 & T2 & Q2);
      destruct (copy_LUIDs n i l d w0) as [[] w2|w2]
  end; cbn [world_of trace] in T2.
  - unfold LsaFreeReturnBuffer.
    destruct (sysFreeReturnBuffer os buffer w2) as [fr [m' s']].
    exists (e2 ++ [EvFree buffer fr]). cbn [query_buffer].
    assert (E : forall h, events_since w
                  (mkWorld m' s' h (trace w2 ++ [EvFree buffer fr]))
                = EvEnumerate (inr (cnt, buffer)) :: e2 ++ [EvFree buffer fr]).
    { intros h. rewrite T2, <- !app_assoc. apply events_since_app. }
    destruct fr; cbn [world_of]; rewrite E; (split; [reflexivity|]);
      eexists; rewrite os_calls_app, Q2; reflexivity.
  - exists e2. cbn [query_buffer world_of]. split; [|exact Q2].
    destruct w2 as [b2 s2 h2 t2]. cbn [trace] in T2. subst t2.
    rewrite <- app_assoc. apply events_since_app.
Qed.

Lemma GetLogonSessionData_os_calls (luid : pointer) w :
  exists r m s tail,
    sysGetLogonSessionData os luid w = (r, (m, s)) /\
    events_since w (world_of (GetLogonSessionData os luid w))
    = EvGetData luid r :: tail /\
    match query_buffer (EvGetData luid r), GetLogonSessionData os luid w with
    | Some b, Returned _ _ =>
        exists fr, os_calls tail = record_sid_calls r m s ++ [EvFree b fr]
    | _, _ => os_calls tail = record_sid_calls r m s
    end.
Proof.
  destruct (GetLogonSessionData_anatomy os luid w) as (r & m & s & Hq & H).
  exists r, m, s. destruct r as [e | buf].
  { exists []. split; [exact Hq|]. rewrite H. cbn [world_of].
    rewrite events_since_app. now split. }
  cbv zeta in H. destruct H as (loads & new & _ & H).
  set (w1 := mkWorld m s (heap w) (trace w ++ [EvGetData luid (inr buf)])) in *.
  destruct (newLogonSessionData_os_calls buf w1) as (evs & T & Q).
  cbn [sessions bytes w1] in Q.
  assert (Hloads : forall h,
            world_of (newLogonSessionData buf w1)
            = mkWorld m s h (trace w ++ EvGetData luid (inr buf) :: loads) ->
            loads = evs).
  { intros h Hw. rewrite Hw in T. cbn [trace w1] in T.
    rewrite <- app_assoc in T. apply app_inv_head in T. cbn in T. now inversion T. }
  cbn [query_buffer record_sid_calls].
  destruct H as [[Hn H] | (p & fr & m' & s' & Hn & _ & H)].
  - exists loads. split; [exact Hq|]. rewrite H. cbn [world_of].
    split; [apply events_since_app|].
    rewrite (Hloads (heap w ++ new)); [exact Q | now rewrite Hn].
  - exists (loads ++ [EvFree buf fr]). split; [exact Hq|]. rewrite H.
    cbn [world_of trace heap]. split.
    + rewrite <- app_assoc. apply events_since_app.
    + exists fr. rewrite os_calls_app.
      rewrite (Hloads (heap w ++ new)); [now rewrite Q | now rewrite Hn].
Qed.

(** C6, amended: a run of [GetLogonSessions] holds exactly one query, a
    call of [LsaEnumerateLogonSessions], and a run of
    [GetLogonSessionData] exactly one, a call of [LsaGetLogonSessionData]
    on the LUID given.  Of all the procedures of the operating system, a
    run of [GetLogonSessions] enters besides the query only
    [LsaFreeReturnBuffer], once, on the buffer the query handed out, and
    only when it returns after a successful query.  A run of
    [GetLogonSessionData] enters in between the procedures of [advapi32]
    that copy the SID of the record: none for a nil SID, otherwise
    [GetLengthSid] and, with the length found, [CopySid]. *)
Theorem one_query_round_trip w :
  (exists r tail,
     let evs := events_since w (world_of (GetLogonSessions os w)) in
     List.filter is_query evs = [EvEnumerate r] /\
     os_calls evs = EvEnumerate r :: tail /\
     match query_buffer (EvEnumerate r), GetLogonSessions os w with
     | Some b, Returned _ _ => exists fr, tail = [EvFree b fr]
     | _, _ => tail = []
     end) /\
  (forall luid, exists r m s tail,
     sysGetLogonSessionData os luid w = (r, (m, s)) /\
     let evs := events_since w (world_of (GetLogonSessionData os luid w)) in
     List.filter is_query evs = [EvGetData luid r] /\
     os_calls evs = EvGetData luid r :: record_sid_calls r m s ++ tail /\
     match query_buffer (EvGetData luid r), GetLogonSessionData os luid w with
     | Some b, Returned _ _ => exists fr, tail = [EvFree b fr]
     | _, _ => tail = []
     end).
Proof.
  split.
  - destruct (GetLogonSessions_shape os w) as [Hs _].
    destruct (shape_calls _ _ Hs) as (q & Hh & _ & Hf & _).
    destruct (GetLogonSessions_os_calls w) as (r & tail & He & Ht).
    rewrite He in Hh. inversion Hh; subst q.
    exists r, (os_calls tail). cbv zeta. split; [exact Hf|]. rewrite He at 1.
    split; [reflexivity|].
    destruct (query_buffer (EvEnumerate r)); [|exact Ht].
    destruct (GetLogonSessions os w); exact Ht.
  - intros luid.
    destruct (GetLogonSessionData_shape os luid w) as [Hs _].
    destruct (shape_calls _ _ Hs) as (q & Hh & _ & Hf & _).
    destruct (GetLogonSessionData_os_calls luid w) as (r & m & s & tail & Hq & He & Ht).
    rewrite He in Hh. inversion Hh; subst q.
    destruct (query_buffer (EvGetData luid r)) as [b|] eqn:Eb.
    + destruct (GetLogonSessionData os luid w) as [res w'|w'] eqn:Er.
      * destruct Ht as (fr & Ht). exists r, m, s, [EvFree b fr].
        split; [exact Hq|]. cbv zeta. split; [exact Hf|].
        rewrite Eb. split; [|eauto]. rewrite He.
        change (os_calls (EvGetData luid r :: tail))
          with (EvGetData luid r :: os_calls tail). now rewrite Ht.
      * exists r, m, s, []. split; [exact Hq|]. cbv zeta. split; [exact Hf|].
        rewrite Eb. split; [|reflexivity]. rewrite He.
        change (os_calls (EvGetData luid r :: tail))
          with (EvGetData luid r :: os_calls tail). now rewrite Ht, app_nil_r.
    + exists r, m, s, []. split; [exact Hq|]. cbv zeta. split; [exact Hf|].
      rewrite Eb. split; [|reflexivity]. rewrite He.
        change (os_calls (EvGetData luid r :: tail))
          with (EvGetData luid r :: os_calls tail). now rewrite Ht, app_nil_r.
Qed.

End OsCalls.

(** ** What the results are made of *)

Section Results.

Context {error : Type} (os : LsaApi error).

Implicit Types w : World error.

Lemma marshal_Sid (m : gmap Z Byte.byte) (d : lsa.SECURITY_LOGON_SESSION_DATA)
    (sid : pointer) (o : object) :
  marshal m d sid = Some o -> exists sd, o = SessionObject sd /\ Sid sd = sid.
Proof.
  unfold marshal. intros H.
  repeat match type of H with
         | context [peek_string ?m ?s] => destruct (peek_string m s); [|discriminate H]
         end.
  cbn in H. inversion H. eexists. split; reflexivity.
Qed.

(** A run of [newLogonSessionData] that returns has found the record,
    copied its SID into a new byte array if it has one, and allocated
    the structure [marshal] describes. *)
Lemma newLogonSessionData_returned (data : Z) w p w' :
  newLogonSessionData data w = Returned p w' ->
  exists d sd loads,
    sessions w !! data = Some d /\
    marshal (bytes w) d (Sid sd) = Some (SessionObject sd) /\
    Forall (fun e : Event error => is_load e = true) loads /\
    ((lsa.Sid d = 0 /\ Sid sd = Nil /\
      p = Managed (length (heap w)) /\
      w' = mkWorld (bytes w) (sessions w) (heap w ++ [SessionObject sd])
             (trace w ++ loads)) \/
     (lsa.Sid d <> 0 /\
      exists b, peek_SID (bytes w) (lsa.Sid d) = Some b /\
        Sid sd = Managed (length (heap w)) /\
        p = Managed (S (length (heap w))) /\
        w' = mkWorld (bytes w) (sessions w)
               (heap w ++ [ByteArray b; SessionObject sd]) (trace w ++ loads))).
Proof.
  intros Hr. destruct (newLogonSessionData_run data w) as (evs & F & E).
  rewrite E in Hr. clear E.
  destruct (sessions w !! data) as [d|]; [|discriminate Hr].
  destruct (Z.eqb_spec (lsa.Sid d) 0) as [Hz|Hnz].
  - destruct (marshal (bytes w) d Nil) as [o|] eqn:Hm; [|discriminate Hr].
    destruct (marshal_Sid _ _ _ _ Hm) as (sd & -> & Hsid).
    inversion Hr; subst p w'. exists d, sd, evs.
    split; [reflexivity|]. split; [now rewrite Hsid|]. split; [exact F|].
    left. auto.
  - destruct (peek_SID (bytes w) (lsa.Sid d)) as [b|] eqn:Hb; [|discriminate Hr].
    destruct (marshal (bytes w) d (Managed (length (heap w)))) as [o|] eqn:Hm;
      [|discriminate Hr].
    destruct (marshal_Sid _ _ _ _ Hm) as (sd & -> & Hsid).
    inversion Hr; subst p w'. exists d, sd, evs.
    split; [reflexivity|]. split; [now rewrite Hsid|]. split; [exact F|].
    right. split; [exact Hnz|]. exists b. auto.
Qed.

Lemma calls_and_loads_only (q : Event error) (loads tail : list (Event error)) :
  is_call q = true ->
  Forall (fun e => is_load e = true) loads ->
  Forall (fun e => is_call e = true) tail ->
  Forall (fun e => is_call e || is_load e = true) (q :: loads ++ tail).
Proof.
  intros Hq Hl Ht. constructor; [now rewrite Hq|].
  apply Forall_app. split.
  - eapply Forall_impl; [exact Hl|]. cbn. intros x ->. apply orb_true_r.
  - eapply Forall_impl; [exact Ht|]. cbn. intros x ->. reflexivity.
Qed.

(** Neither function stores to native memory, and neither changes a
    Go object that existed before the call: whatever the outcome, the
    trace grows by calls and loads only, and the heap by new objects. *)
Lemma GetLogonSessions_frame w :
  Forall (fun e => is_call e || is_load e = true)
    (events_since w (world_of (GetLogonSessions os w))) /\
  heap w `prefix_of` heap (world_of (GetLogonSessions os w)).
Proof.
  destruct (GetLogonSessions_anatomy os w) as (r & m & s & _ & H).
  destruct r as [e | [c buf]].
  - rewrite H. cbn [world_of heap]. rewrite events_since_app.
    split; [repeat constructor | reflexivity].
  - destruct H as (loads & l & F & _ & H). cbv zeta in H.
    destruct H as [H | (_ & fr & m' & s' & _ & H)]; rewrite H;
      cbn [world_of heap trace]; [|rewrite <- app_assoc];
      rewrite events_since_app; (split; [|now apply prefix_app_r]).
    + rewrite <- (app_nil_r loads). apply calls_and_loads_only; auto.
    + apply calls_and_loads_only; auto.
Qed.

Lemma GetLogonSessionData_frame (luid : pointer) w :
  Forall (fun e => is_call e || is_load e = true)
    (events_since w (world_of (GetLogonSessionData os luid w))) /\
  heap w `prefix_of` heap (world_of (GetLogonSessionData os luid w)).
Proof.
  destruct (GetLogonSessionData_anatomy os luid w) as (r & m & s & _ & H).
  destruct r as [e | buf].
  - rewrite H. cbn [world_of heap]. rewrite events_since_app.
    split; [repeat constructor | reflexivity].
  - cbv zeta in H. destruct H as (loads & new & F & H).
    destruct H as [[_ H] | (p & fr & m' & s' & _ & _ & H)]; rewrite H;
      cbn [world_of heap trace]; [|rewrite <- app_assoc];
      rewrite events_since_app; (split; [|now apply prefix_app_r]).
    + rewrite <- (app_nil_r loads). apply calls_and_loads_only; auto.
    + apply calls_and_loads_only; auto.
Qed.

(** C7: the operations only read.  Whatever the outcome, a run stores
    nothing to native memory and leaves every Go object that existed,
    the caller's LUID among them, as it was; the query receives the LUID
    pointer given.  On success [GetLogonSessionData] returns a new Go
    object whose SID is nil or a new Go byte array holding the bytes of
    the native SID; [GetLogonSessions] returns a slice over a new Go
    array whose elements are the LUIDs the native buffer held, all of
    them loaded before the call that frees the buffer. *)
Theorem operations_read_only w :
  (Forall (fun e => is_call e || is_load e = true)
     (events_since w (world_of (GetLogonSessions os w))) /\
   heap w `prefix_of` heap (world_of (GetLogonSessions os w))) /\
  (forall luid,
     Forall (fun e => is_call e || is_load e = true)
       (events_since w (world_of (GetLogonSessionData os luid w))) /\
     heap w `prefix_of` heap (world_of (GetLogonSessionData os luid w)) /\
     exists r, head (events_since w (world_of (GetLogonSessionData os luid w)))
               = Some (EvGetData luid r)) /\
  (forall luid p w',
     GetLogonSessionData os luid w = Returned (p, None) w' ->
     exists buf m s d sd,
       sysGetLogonSessionData os luid w = (inr buf, (m, s)) /\
       s !! buf = Some d /\
       fresh_in w p /\
       match p with
       | Managed k => heap w' !! k = Some (SessionObject sd)
       | _ => False
       end /\
       marshal m d (Sid sd) = Some (SessionObject sd) /\
       ((lsa.Sid d = 0 /\ Sid sd = Nil) \/
        (lsa.Sid d <> 0 /\ fresh_in w (Sid sd) /\
         exists b, peek_SID m (lsa.Sid d) = Some b /\
           match Sid sd with
           | Managed j => heap w' !! j = Some (ByteArray b)
           | _ => False
           end))) /\
  (forall sl w',
     GetLogonSessions os w = Returned (sl, None) w' ->
     exists c buf m s l loads fr,
       sysEnumerateLogonSessions os w = (inr (c, buf), (m, s)) /\
       sl = mkslice (Managed (length (heap w))) (u32 c) (u32 c) /\
       fresh_in w (Data sl) /\
       heap w' !! length (heap w) = Some (LuidArray l) /\
       length l = Z.to_nat (u32 c) /\
       (forall i, 0 <= i < u32 c ->
          l !! Z.to_nat i = peek_LUID m (u64 buf + lsa.sizeof_LUID * i)) /\
       Forall (fun e => is_load e = true) loads /\
       events_since w w'
       = EvEnumerate (inr (u32 c, u64 buf)) :: loads ++ [EvFree (u64 buf) fr]).
Proof.
  split; [apply GetLogonSessions_frame|].
  split.
  { intros luid. destruct (GetLogonSessionData_frame luid w) as [H1 H2].
    destruct (GetLogonSessionData_shape os luid w) as [_ H3]. auto. }
  split.
  - intros luid p w' Hr.
    destruct (GetLogonSessionData_anatomy os luid w) as (r & m & s & Hq & H).
    destruct r as [e | buf]; [congruence|].
    cbv zeta in H. destruct H as (loads & new & _ & H).
    destruct H as [[_ H] | (p0 & fr & m' & s' & Hn & _ & H)]; [congruence|].
    rewrite H in Hr. destruct fr; [discriminate Hr|].
    inversion Hr; subst p0 w'; clear Hr H.
    apply newLogonSessionData_returned in Hn.
    destruct Hn as (d & sd & loads' & Hd & Hm & _ & Hcase).
    cbn [bytes sessions heap trace] in *.
    exists buf, m, s, d, sd. split; [exact Hq|]. split; [exact Hd|].
    destruct Hcase as [(Hz & Hsid & -> & Hw) | (Hnz & b & Hb & Hsid & -> & Hw)];
      inversion Hw as [[Hh Ht]]; clear Hw; apply app_inv_head in Hh; subst new.
    + split; [cbn; lia|]. split; [apply list_lookup_middle; reflexivity|].
      split; [exact Hm|]. left. auto.
    + split; [cbn; lia|]. split.
      { change (heap w ++ [ByteArray b; SessionObject sd])
          with (heap w ++ [ByteArray b] ++ [SessionObject sd]).
        rewrite app_assoc. apply list_lookup_middle.
        rewrite length_app. cbn. lia. }
      split; [exact Hm|]. right. split; [exact Hnz|].
      rewrite Hsid. split; [cbn; lia|]. exists b. split; [exact Hb|].
      apply list_lookup_middle. reflexivity.
  - intros sl w' Hr.
    destruct (GetLogonSessions_anatomy os w) as (r & m & s & Hq & H).
    destruct r as [e | [c buf]]; [congruence|].
    destruct H as (loads & l & F & Hlen & H). cbv zeta in H.
    destruct H as [H | (Hall & fr & m' & s' & _ & H)]; [congruence|].
    rewrite H in Hr. destruct fr; [discriminate Hr|].
    inversion Hr; subst sl w'; clear Hr H.
    exists c, buf, m, s, l, loads, None.
    split; [exact Hq|]. split; [reflexivity|]. split; [cbn; lia|].
    split; [cbn; apply list_lookup_middle; reflexivity|].
    split; [exact Hlen|].
    split; [intros i Hi; symmetry; now apply Hall|].
    split; [exact F|].
    cbn [heap trace]. rewrite <- app_assoc. apply events_since_app.
Qed.

End Results.

(** ** Strings *)

Section Strings.

Context {error : Type}.

Implicit Types w : World error.
Implicit Types m : gmap Z Byte.byte.

(** C8: a descriptor with a zero [Buffer] or a zero [Length] yields
    the empty string and leaves the world as it was, the trace
    included: nothing is loaded, whatever the memory holds or lacks. *)
Theorem stringFromLSAString_empty (s : lsa.LSA_UNICODE_STRING) w :
  lsa.Buffer s = 0 \/ lsa.Length s = 0 ->
  stringFromLSAString s w = Returned ""%string w.
Proof.
  intros H. unfold stringFromLSAString.
  replace ((lsa.Buffer s =? 0) || (lsa.Length s =? 0)) with true by (symmetry; lia).
  reflexivity.
Qed.

(** What the code computes for a descriptor: the code units before the
    first NUL among the first [Length] elements at [Buffer], decoded. *)
Lemma stringFromLSAString_computes (s : lsa.LSA_UNICODE_STRING) w :
  exists loads,
    Forall (fun e : Event error => is_load e = true) loads /\
    stringFromLSAString s w
    = match peek_string (bytes w) s with
      | Some str => Returned str (logged w loads)
      | None => Panicked (logged w loads)
      end.
Proof. apply pure_read_stringFromLSAString. Qed.

Lemma peek_scan_terminated m (k : nat) : forall (n : nat) (addr : Z) (us : list Z),
  peek_units m k addr = Some us ->
  Forall (fun u => u <> 0) us ->
  (k < n)%nat ->
  peek16 m (addr + 2 * Z.of_nat k) = Some 0 ->
  peek_scan m n addr = Some us.
Proof.
  induction k as [|k IH]; intros n addr us Hu Hnz Hk Hnul;
    (destruct n as [|n]; [lia|]); cbn [peek_scan peek_units] in *.
  - inversion Hu; subst us. rewrite Z.mul_0_r, Z.add_0_r in Hnul.
    rewrite Hnul. reflexivity.
  - destruct (peek16 m addr) as [v|]; [|discriminate Hu]. cbn in *.
    destruct (peek_units m k (addr + 2)) as [vs|] eqn:Hvs; [|discriminate Hu].
    cbn in Hu. inversion Hu; subst us. inversion Hnz; subst.
    destruct (Z.eqb_spec v 0) as [->|_]; [congruence|].
    rewrite (IH n (addr + 2) vs Hvs); [reflexivity | assumption | lia |].
    rewrite <- Hnul. f_equal. lia.
Qed.

(** Where the code agrees with the descriptor: a string without an
    embedded NUL that is followed by a NUL code unit. *)
Lemma peek_string_terminated m (s : lsa.LSA_UNICODE_STRING) (us : list Z) :
  lsa.Buffer s <> 0 -> 0 < lsa.Length s ->
  designated_units m s = Some us ->
  Forall (fun u => u <> 0) us ->
  peek16 m (lsa.Buffer s + 2 * (lsa.Length s / 2)) = Some 0 ->
  peek_string m s = designated_string m s.
Proof.
  intros Hb Hl Hu Hnz Hnul. unfold peek_string, designated_string.
  replace ((lsa.Buffer s =? 0) || (lsa.Length s =? 0)) with false by (symmetry; lia).
  rewrite Hu. unfold designated_units in Hu.
  rewrite (peek_scan_terminated m _ _ _ us Hu Hnz); [reflexivity | |].
  - assert (lsa.Length s / 2 < lsa.Length s) by (apply Z.div_lt; lia).
    assert (0 <= lsa.Length s / 2) by (apply Z.div_pos; lia). lia.
  - rewrite Z2Nat.id; [exact Hnul | apply Z.div_pos; lia].
Qed.

(** *** Locality: what a result depends on *)

Lemma peek16_agree m1 m2 (addr : Z) :
  m1 !! addr = m2 !! addr -> m1 !! (addr + 1) = m2 !! (addr + 1) ->
  peek16 m1 addr = peek16 m2 addr.
Proof. intros H0 H1. unfold peek16, peek8. now rewrite H0, H1. Qed.

Lemma peek_scan_agree m1 m2 (n : nat) : forall addr : Z,
  (forall a, addr <= a < addr + 2 * Z.of_nat n -> m1 !! a = m2 !! a) ->
  peek_scan m1 n addr = peek_scan m2 n addr.
Proof.
  induction n as [|n IH]; intros addr H; [reflexivity|].
  cbn [peek_scan]. rewrite (peek16_agree m1 m2 addr) by (apply H; lia).
  destruct (peek16 m2 addr) as [v|]; [|reflexivity]. cbn.
  destruct (v =? 0); [reflexivity|].
  rewrite (IH (addr + 2)); [reflexivity|]. intros a Ha. apply H. lia.
Qed.

Lemma peek_string_agree m1 m2 (s : lsa.LSA_UNICODE_STRING) :
  (forall a, read_extent s a -> m1 !! a = m2 !! a) ->
  peek_string m1 s = peek_string m2 s.
Proof.
  intros H. unfold peek_string.
  destruct (Z.eqb_spec (lsa.Buffer s) 0) as [|Hb]; [reflexivity|].
  destruct (Z.eqb_spec (lsa.Length s) 0) as [|Hl]; [reflexivity|]. cbn [orb].
  rewrite (peek_scan_agree m1 m2); [reflexivity|].
  intros a Ha. apply H. split; [exact Hb|]. lia.
Qed.

Lemma marshal_agree m1 m2 (d : lsa.SECURITY_LOGON_SESSION_DATA) (sid : pointer) :
  (forall s a, In s (descriptors d) -> read_extent s a -> m1 !! a = m2 !! a) ->
  marshal m1 d sid = marshal m2 d sid.
Proof.
  intros H. unfold marshal.
  repeat match goal with
         | |- context [peek_string m1 ?s] =>
             rewrite (peek_string_agree m1 m2 s)
               by (intros a Ha; apply (H s a); [cbn; tauto | exact Ha])
         end.
  reflexivity.
Qed.

(** Two runs of [newLogonSessionData] on the same record end alike, with
    the same pointer and the same new objects, as soon as the two
    memories agree on the SID and on what the code loads for each
    descriptor, and the two heaps have the same size. *)
Lemma newLogonSessionData_deterministic (data : Z) w1 w2
    (d : lsa.SECURITY_LOGON_SESSION_DATA) :
  sessions w1 !! data = Some d -> sessions w2 !! data = Some d ->
  (forall s a, In s (descriptors d) -> read_extent s a ->
               bytes w1 !! a = bytes w2 !! a) ->
  (lsa.Sid d <> 0 -> peek_SID (bytes w1) (lsa.Sid d) = peek_SID (bytes w2) (lsa.Sid d)) ->
  length (heap w1) = length (heap w2) ->
  match newLogonSessionData data w1, newLogonSessionData data w2 with
  | Returned p1 w1', Returned p2 w2' =>
      p1 = p2 /\ new_objects w1 w1' = new_objects w2 w2'
  | Panicked _, Panicked _ => True
  | _, _ => False
  end.
Proof.
  intros H1 H2 Hstr Hsid Hlen.
  destruct (newLogonSessionData_run data w1) as (e1 & _ & E1).
  destruct (newLogonSessionData_run data w2) as (e2 & _ & E2).
  rewrite E1, E2, H1, H2. clear E1 E2.
  destruct (Z.eqb_spec (lsa.Sid d) 0) as [Hz|Hnz].
  - rewrite (marshal_agree _ _ d Nil Hstr).
    destruct (marshal (bytes w2) d Nil); [|exact I].
    unfold new_objects. cbn. rewrite !drop_app_length, Hlen. auto.
  - rewrite (Hsid Hnz).
    destruct (peek_SID (bytes w2) (lsa.Sid d)); [|exact I].
    rewrite (marshal_agree _ _ d _ Hstr), Hlen.
    destruct (marshal (bytes w2) d (Managed (length (heap w2)))); [|exact I].
    unfold new_objects. cbn. rewrite !drop_app_length. auto.
Qed.

End Strings.

(** C4, at a descriptor the code can receive: [Length] is 2, one code unit
    'A'; the memory goes on with 'B' and a NUL.  The descriptor designates
    "A"; the code builds a slice of [Length] elements, not [Length] bytes,
    walks on to the NUL and returns "AB". *)
Theorem stringFromLSAString_takes_Length_for_elements :
  let w := Fixture.session_world Fixture.string_A Fixture.string_mem_B in
  lsa.Length Fixture.string_A = 2 /\
  designated_string (bytes w) Fixture.string_A = Some "A"%string /\
  exists w', stringFromLSAString Fixture.string_A w = Returned "AB"%string w' /\
             events_since w w' = [EvLoad 0x1000; EvLoad 0x1001; EvLoad 0x1002; EvLoad 0x1003].
Proof.
  cbv zeta. split; [reflexivity|]. split; [vm_compute; reflexivity|].
  eexists. split; vm_compute; reflexivity.
Qed.

(** The same descriptor with an embedded NUL: 'A', NUL, 'B' in six bytes
    comes out as "A". *)
Lemma stringFromLSAString_stops_at_NUL :
  let s := lsa.mkLSA_UNICODE_STRING 6 6 0x1000 in
  let m := Fixture.string_mem_NUL in
  designated_units m s = Some [0x41; 0; 0x42] /\
  peek_string m s = Some "A"%string.
Proof. split; vm_compute; reflexivity. Qed.

(** C3, at two memories that hold the same record with equal contents:
    the descriptor of the user name designates two bytes, 'A', equal in
    both; the code reads on, finds 'B' in one memory and 'C' in the other,
    and the two results differ in [UserName]. *)
Theorem newLogonSessionData_depends_on_bytes_past_descriptor :
  let d := Fixture.session Fixture.string_A in
  let w1 := Fixture.session_world Fixture.string_A Fixture.string_mem_B in
  let w2 := Fixture.session_world Fixture.string_A Fixture.string_mem_C in
  sessions w1 !! 0x3000 = Some d /\
  sessions w2 !! 0x3000 = Some d /\
  equal_contents d (bytes w1) (bytes w2) /\
  exists p1 w1' sd1 b1 p2 w2' sd2 b2,
    newLogonSessionData 0x3000 w1 = Returned p1 w1' /\
    newLogonSessionData 0x3000 w2 = Returned p2 w2' /\
    session_view w1' p1 = Some (sd1, b1) /\
    session_view w2' p2 = Some (sd2, b2) /\
    UserName sd1 = "AB"%string /\
    UserName sd2 = "AC"%string.
Proof.
  cbv zeta. split; [reflexivity|]. split; [reflexivity|]. split.
  - split.
    + intros s addr Hin [Hlo Hhi].
      cbn in Hin.
      repeat (destruct Hin as [<-|Hin];
              [cbn in Hlo, Hhi;
               try lia;
               assert (addr = 0x1000 \/ addr = 0x1001) as [-> | ->] by lia;
               vm_compute; reflexivity|]).
      destruct Hin.
    + intros _. vm_compute. reflexivity.
  - do 8 eexists.
    split; [vm_compute; reflexivity|].
    split; [vm_compute; reflexivity|].
    split; [vm_compute; reflexivity|].
    split; [vm_compute; reflexivity|].
    split; vm_compute; reflexivity.
Qed.


(** ** The theorems at work on concrete systems *)

(** Runs the computation [m] in the world [w] and names the result. *)
Ltac run_as E m w :=
  let t := eval vm_compute in (m w) in
  match t with
  | Returned ?r ?w' => assert (E : m w = Returned r w') by (vm_compute; reflexivity)
  end.

Lemma one_query_round_trip_witness :
  exists tail,
    os_calls (events_since Fixture.caller_world
                (world_of (GetLogonSessionData Fixture.good_os (Managed 0)
                             Fixture.caller_world)))
    = EvGetData (Managed 0) (inr 0x3000)
        :: [EvGetLengthSid 0x1200; EvCopySid 12 0x1200] ++ tail /\
    exists fr, tail = [EvFree 0x3000 fr].
Proof.
  destruct (one_query_round_trip Fixture.good_os Fixture.caller_world) as [_ H].
  destruct (H (Managed 0)) as (r & m & s & tail & Hq & _ & Hc & Ht).
  change (sysGetLogonSessionData Fixture.good_os (Managed 0) Fixture.caller_world)
    with (@inr Fixture.error Z 0x3000,
          (Fixture.all_mem,
           ({[ 0x3000 := Fixture.session Fixture.string_AB ]}
              : gmap Z lsa.SECURITY_LOGON_SESSION_DATA))) in Hq.
  apply pair_equal_spec in Hq as [Hr Hms].
  apply pair_equal_spec in Hms as [Hm Hs]. subst r m s.
  exists tail. split; [exact Hc|].
  run_as E (GetLogonSessionData Fixture.good_os (Managed 0)) Fixture.caller_world.
  rewrite E in Ht. exact Ht.
Defined.

(** C6, as stated, fails where the record holds a SID: besides the query
    and the call that frees the buffer, the run enters [GetLengthSid] and
    [CopySid]. *)
Lemma GetLogonSessionData_enters_advapi32 :
  exists p w',
    GetLogonSessionData Fixture.good_os (Managed 0) Fixture.caller_world
    = Returned (p, None) w' /\
    os_calls (events_since Fixture.caller_world w')
    = [EvGetData (Managed 0) (inr 0x3000); EvGetLengthSid 0x1200;
       EvCopySid 12 0x1200; EvFree 0x3000 None] /\
    ~ Forall (fun e => is_call e = true)
        (os_calls (events_since Fixture.caller_world w')).
Proof.
  run_as E (GetLogonSessionData Fixture.good_os (Managed 0)) Fixture.caller_world.
  do 2 eexists. split; [exact E|].
  split; [vm_compute; reflexivity|].
  intros F. vm_compute in F. inversion F as [|? ? _ F1]. inversion F1 as [|? ? Hc _].
  discriminate Hc.
Qed.

Lemma native_buffer_freed_once_witness :
  (exists r w',
     GetLogonSessions Fixture.good_os Fixture.empty_world = Returned r w' /\
     frees (events_since Fixture.empty_world w') = [0x2000]) /\
  (exists r w',
     GetLogonSessionData Fixture.good_os (Managed 0) Fixture.caller_world = Returned r w' /\
     frees (events_since Fixture.caller_world w') = [0x3000]).
Proof.
  split.
  - destruct (native_buffer_freed_once Fixture.good_os Fixture.empty_world) as [H _].
    run_as E (GetLogonSessions Fixture.good_os) Fixture.empty_world.
    do 2 eexists. split; [exact E|].
    exact (proj1 (H 2 0x2000 _ _ _ eq_refl E)).
  - destruct (native_buffer_freed_once Fixture.good_os Fixture.caller_world) as [_ H].
    run_as E (GetLogonSessionData Fixture.good_os (Managed 0)) Fixture.caller_world.
    do 2 eexists. split; [exact E|].
    exact (proj1 (H (Managed 0) 0x3000 _ _ _ eq_refl E)).
Defined.

Lemma lsa_error_returned_unchanged_witness :
  (exists w', GetLogonSessions Fixture.enum_fails Fixture.empty_world
              = Returned (nil_slice, Some 5) w') /\
  (exists w', GetLogonSessions Fixture.free_fails Fixture.empty_world
              = Returned (nil_slice, Some 6) w') /\
  (exists w', GetLogonSessionData Fixture.free_fails (Managed 0) Fixture.caller_world
              = Returned (Nil, Some 6) w').
Proof.
  split; [|split].
  - destruct (lsa_error_returned_unchanged Fixture.enum_fails Fixture.empty_world)
      as (H & _).
    destruct (H 5 _ eq_refl) as (w' & Hr & _). exists w'. exact Hr.
  - destruct (lsa_error_returned_unchanged Fixture.free_fails Fixture.empty_world)
      as (_ & _ & H & _).
    destruct (H (EvFree 0x2000 (Some 6)) 6) as (Hr & _); [|reflexivity|exact Hr].
    vm_compute. repeat first [left; reflexivity | right].
  - destruct (lsa_error_returned_unchanged Fixture.free_fails Fixture.caller_world)
      as (_ & _ & _ & H).
    destruct (H (Managed 0) (EvFree 0x3000 (Some 6)) 6) as (Hr & _);
      [|reflexivity|exact Hr].
    vm_compute. repeat first [left; reflexivity | right].
Defined.

Lemma operations_read_only_witness :
  exists sl w' l,
    GetLogonSessions Fixture.good_os Fixture.empty_world = Returned (sl, None) w' /\
    Data sl = Managed 0 /\
    heap w' !! 0%nat = Some (LuidArray l) /\
    length l = 2%nat.
Proof.
  destruct (operations_read_only Fixture.good_os Fixture.empty_world)
    as (_ & _ & _ & H).
  run_as E (GetLogonSessions Fixture.good_os) Fixture.empty_world.
  destruct (H _ _ E)
    as (c & buf & m & s & l & loads & fr & Hq & Hsl & _ & Hl & Hlen & _).
  vm_compute in Hq. injection Hq as <- <- <- <-.
  do 2 eexists. exists l. split; [exact E|].
  split; [reflexivity|]. split; [exact Hl | exact Hlen].
Defined.

Lemma stringFromLSAString_empty_witness :
  let s := lsa.mkLSA_UNICODE_STRING 4 6 0 in
  (lsa.Buffer s = 0 \/ lsa.Length s = 0) /\
  stringFromLSAString s (Fixture.empty_world) = Returned ""%string Fixture.empty_world.
Proof.
  cbv zeta. split; [left; reflexivity|].
  apply (stringFromLSAString_empty (lsa.mkLSA_UNICODE_STRING 4 6 0) Fixture.empty_world).
  left. reflexivity.
Defined.

(** * Further properties *)

(** ** More on LogonType.String *)

Lemma string_length_append (s t : string) :
  String.length (s ++ t) = (String.length s + String.length t)%nat.
Proof. induction s as [|c s IH]; simpl; [reflexivity | now f_equal]. Qed.

Lemma string_app_inj_tail (s1 s2 t : string) :
  (s1 ++ t)%string = (s2 ++ t)%string -> s1 = s2.
Proof.
  intros H.
  assert (Hl : String.length s1 = String.length s2).
  { apply (f_equal String.length) in H.
    rewrite !string_length_append in H. lia. }
  revert s2 H Hl. induction s1 as [|c s1 IH]; intros [|c2 s2] H Hl;
    try discriminate Hl; [reflexivity|].
  cbn in H. injection H as -> H. f_equal. apply IH; [exact H|].
  cbn in Hl. lia.
Qed.

Lemma fmt_d_inj (a b : Z) : 0 <= a -> 0 <= b -> fmt_d a = fmt_d b -> a = b.
Proof.
  intros Ha Hb H. pose proof (fmt_d_reads_back a Ha) as Ra.
  pose proof (fmt_d_reads_back b Hb) as Rb. rewrite H in Ra. congruence.
Qed.

(** Distinct [LogonType] values have distinct names: the thirteen names
    differ from one another and from every "Undefined LogonType(n)", and
    n is printed in full. *)
Theorem LogonType_String_injective (a b : LogonType.t) :
  0 <= a < 2 ^ 32 -> 0 <= b < 2 ^ 32 -> a <> b ->
  LogonType.String a <> LogonType.String b.
Proof.
  intros Ha Hb Hne H.
  destruct (LogonType.defined a) eqn:Da, (LogonType.defined b) eqn:Db.
  - apply LogonType_defined_cases in Da, Db.
    repeat (destruct Da as [Da|Da]; [subst a|]); try subst a;
      repeat (destruct Db as [Db|Db]; [subst b|]); try subst b;
      first [now apply Hne | discriminate H].
  - pose proof (LogonType_String_named a Da) as Hin.
    rewrite H, (LogonType_String_default b Db) in Hin.
    exact (undefined_not_a_name _ Hin).
  - pose proof (LogonType_String_named b Db) as Hin.
    rewrite <- H, (LogonType_String_default a Da) in Hin.
    exact (undefined_not_a_name _ Hin).
  - rewrite (LogonType_String_default a Da), (LogonType_String_default b Db) in H.
    apply Hne.
    apply String.app_inj, string_app_inj_tail in H. apply fmt_d_inj in H; lia.
Qed.

Lemma LogonType_String_injective_witness :
  LogonType.String 1 <> LogonType.String 10.
Proof. apply LogonType_String_injective; lia. Defined.

(** ** More on timeFromUint64 *)

Lemma timeFromUint64_unguarded (t : Z) :
  t <> 0 -> t <> never ->
  timeFromUint64 t = time.Unix 0 (i64 (i64 (u64 (t - windowsEpoch)) * 100)).
Proof.
  intros H0 Hn. unfold timeFromUint64.
  destruct (Z.eqb_spec t 0); [contradiction|].
  destruct (Z.eqb_spec t never); [contradiction|]. reflexivity.
Qed.

Lemma timeFromUint64_nanos (t : Z) :
  24211015631452242 <= t <= 208678456368547758 ->
  time.unix_nanos (timeFromUint64 t) = (t - windowsEpoch) * 100.
Proof.
  intros Ht. rewrite timeFromUint64_unguarded.
  - rewrite filetime_delta_in_range by exact Ht.
    apply Unix_nanos. unfold windowsEpoch. lia.
  - lia.
  - rewrite never_value. lia.
Qed.

(** Between two time stamps of the range in which nothing wraps, the
    converted times are as far apart as the stamps, 100 nanoseconds for
    each unit: the conversion keeps order and durations. *)
Theorem timeFromUint64_keeps_durations (t1 t2 : Z) :
  24211015631452242 <= t1 -> t1 <= t2 -> t2 <= 208678456368547758 ->
  time.unix_nanos (timeFromUint64 t2) - time.unix_nanos (timeFromUint64 t1)
  = (t2 - t1) * 100 /\
  (t1 < t2 ->
   time.unix_nanos (timeFromUint64 t1) < time.unix_nanos (timeFromUint64 t2)).
Proof.
  intros H1 H12 H2. rewrite !timeFromUint64_nanos by lia. lia.
Qed.

Lemma timeFromUint64_keeps_durations_witness :
  time.unix_nanos (timeFromUint64 133000000010000000)
  - time.unix_nanos (timeFromUint64 133000000000000000) = 1000000000.
Proof.
  destruct (timeFromUint64_keeps_durations 133000000000000000 133000000010000000)
    as [H _]; [lia | lia | lia |].
  rewrite H. reflexivity.
Defined.

Lemma i64_congruent (x y : Z) : x mod 2 ^ 64 = y mod 2 ^ 64 -> i64 x = i64 y.
Proof.
  intros H. unfold i64. f_equal.
  rewrite <- (Zplus_mod_idemp_l x), <- (Zplus_mod_idemp_l y). now rewrite H.
Qed.

Lemma i64_mod (x : Z) : i64 x mod 2 ^ 64 = x mod 2 ^ 64.
Proof.
  unfold i64.
  replace ((x + 2 ^ 63) mod 2 ^ 64 - 2 ^ 63)
    with ((x + 2 ^ 63) mod 2 ^ 64 + (- 2 ^ 63)) by lia.
  rewrite Zplus_mod_idemp_l. f_equal. lia.
Qed.

(** Where the multiplication by 100 wraps, time stamps alias: two stamps
    2^62 apart, neither of them a sentinel, are converted to the same
    time, since 100 * 2^62 is a multiple of 2^64. *)
Theorem timeFromUint64_wraps_every_2_62 (t : Z) :
  0 < t -> t + 2 ^ 62 < 2 ^ 64 -> t <> never -> t + 2 ^ 62 <> never ->
  timeFromUint64 (t + 2 ^ 62) = timeFromUint64 t.
Proof.
  intros H0 H1 Hn Hn'.
  rewrite !timeFromUint64_unguarded by lia. f_equal.
  apply i64_congruent.
  rewrite (Zmult_mod (i64 (u64 (t + 2 ^ 62 - windowsEpoch)))),
          (Zmult_mod (i64 (u64 (t - windowsEpoch)))).
  rewrite !i64_mod. unfold u64. rewrite !Z.mod_mod by lia.
  rewrite <- !Zmult_mod.
  replace ((t + 2 ^ 62 - windowsEpoch) * 100)
    with ((t - windowsEpoch) * 100 + 25 * 2 ^ 64) by lia.
  apply Z.mod_add. lia.
Qed.

Lemma timeFromUint64_wraps_every_2_62_witness :
  timeFromUint64 (133000000000000000 + 2 ^ 62) = timeFromUint64 133000000000000000.
Proof.
  apply timeFromUint64_wraps_every_2_62; rewrite ?never_value; lia.
Defined.

(** ** More on stringFromLSAString *)

Section StringExtents.

Context {error : Type}.

Implicit Types w : World error.

Lemma reads_within_ret {A} (lo hi : Z) (a : A) :
  reads_within lo hi (mret a : M error A).
Proof. intros w. exists []. split; [cbn; now rewrite app_nil_r | constructor]. Qed.

Lemma reads_within_panic {A} (lo hi : Z) : reads_within lo hi (@panic error A).
Proof. intros w. exists []. split; [cbn; now rewrite app_nil_r | constructor]. Qed.

Lemma reads_within_bind {A B} (lo hi : Z) (m : M error A) (k : A -> M error B) :
  reads_within lo hi m -> (forall a, reads_within lo hi (k a)) ->
  reads_within lo hi (m ≫= k).
Proof.
  intros Hm Hk w. destruct (Hm w) as (e1 & T1 & F1). rewrite bind_run.
  destruct (m w) as [a w1|w1]; cbn [world_of] in *.
  - destruct (Hk a w1) as (e2 & T2 & F2). exists (e1 ++ e2). split.
    + rewrite T2, T1. now rewrite app_assoc.
    + apply Forall_app. split; assumption.
  - exists e1. split; assumption.
Qed.

Lemma reads_within_weaken {A} (lo hi lo' hi' : Z) (m : M error A) :
  lo' <= lo -> hi <= hi' -> reads_within lo hi m -> reads_within lo' hi' m.
Proof.
  intros Hlo Hhi H w. destruct (H w) as (evs & T & F). exists evs.
  split; [exact T|]. eapply Forall_impl; [exact F|].
  intros [] Hx; cbn in *; try contradiction. lia.
Qed.

Lemma reads_within_load8 (addr : Z) : reads_within addr (addr + 1) (@load8 error addr).
Proof.
  intros w. exists [EvLoad addr]. split.
  - unfold load8. destruct (bytes w !! addr); reflexivity.
  - repeat constructor; lia.
Qed.

Lemma reads_within_load_byte (addr : Z) :
  reads_within addr (addr + 1) (@load_byte error addr).
Proof.
  intros w. exists [EvLoad addr]. split.
  - unfold load_byte. destruct (bytes w !! addr); reflexivity.
  - repeat constructor; lia.
Qed.

Lemma reads_within_load16 (addr : Z) : reads_within addr (addr + 2) (@load16 error addr).
Proof.
  unfold load16.
  apply reads_within_bind;
    [apply (reads_within_weaken addr (addr + 1)); [lia | lia | apply reads_within_load8]|].
  intros b0. apply reads_within_bind;
    [apply (reads_within_weaken (addr + 1) (addr + 1 + 1));
     [lia | lia | apply reads_within_load8]|].
  intros b1. apply reads_within_ret.
Qed.

Lemma reads_within_scan_utf16 (n : nat) : forall addr : Z,
  reads_within addr (addr + 2 * Z.of_nat n) (@scan_utf16 error n addr).
Proof.
  induction n as [|n IH]; intros addr; cbn [scan_utf16].
  - apply reads_within_ret.
  - apply reads_within_bind.
    + apply (reads_within_weaken addr (addr + 2)); [lia | lia | apply reads_within_load16].
    + intros v. destruct (v =? 0); [apply reads_within_ret|].
      apply reads_within_bind; [|intros rest; apply reads_within_ret].
      apply (reads_within_weaken (addr + 2) (addr + 2 + 2 * Z.of_nat n));
        [lia | lia | apply IH].
Qed.

(** [stringFromLSAString] loads nothing outside the [2 * Length] bytes at
    [Buffer]: it can read past the [Length] bytes the descriptor
    designates, but never further than as many bytes again. *)
Theorem stringFromLSAString_loads_bounded (s : lsa.LSA_UNICODE_STRING) w :
  loads_within (lsa.Buffer s) (lsa.Buffer s + 2 * lsa.Length s)
    (events_since w (world_of (stringFromLSAString s w))).
Proof.
  assert (H : reads_within (lsa.Buffer s) (lsa.Buffer s + 2 * lsa.Length s)
                (@stringFromLSAString error s)).
  { unfold stringFromLSAString.
    destruct (Z.eqb_spec (lsa.Buffer s) 0); [apply reads_within_ret|].
    destruct (Z.eqb_spec (lsa.Length s) 0); [apply reads_within_ret|]. cbn [orb].
    unfold UTF16ToString. cbn [Data Len].
    apply reads_within_bind; [|intros us; apply reads_within_ret].
    destruct (Z_lt_le_dec (lsa.Length s) 0).
    - rewrite Z2Nat.nonpos by lia. apply reads_within_ret.
    - eapply reads_within_weaken; [| |apply reads_within_scan_utf16]; lia. }
  destruct (H w) as (evs & T & F). unfold events_since. rewrite T.
  now rewrite drop_app_length.
Qed.

(** On a descriptor in the form the LSA hands out, without an embedded
    NUL and followed by a NUL code unit, [stringFromLSAString] returns
    the string the descriptor designates, that is its [Length / 2] code
    units as [decodeWTF16] renders them (a surrogate without its partner
    is kept), and only loads on the way. *)
Theorem stringFromLSAString_terminated (s : lsa.LSA_UNICODE_STRING) w (us : list Z) :
  lsa.Buffer s <> 0 -> 0 < lsa.Length s ->
  designated_units (bytes w) s = Some us ->
  Forall (fun u => u <> 0) us ->
  peek16 (bytes w) (lsa.Buffer s + 2 * (lsa.Length s / 2)) = Some 0 ->
  exists loads,
    Forall (fun e : Event error => is_load e = true) loads /\
    stringFromLSAString s w
    = Returned (string_of_units us) (logged w loads).
Proof.
  intros Hb Hl Hu Hnz Hnul.
  destruct (pure_read_stringFromLSAString (error := error) s w) as (loads & F & E).
  exists loads. split; [exact F|]. rewrite E.
  rewrite (peek_string_terminated _ _ us Hb Hl Hu Hnz Hnul).
  unfold designated_string. rewrite Hu. reflexivity.
Qed.

End StringExtents.

Lemma stringFromLSAString_terminated_witness :
  exists str loads,
    stringFromLSAString Fixture.string_AB
      (Fixture.session_world Fixture.string_AB Fixture.string_mem_surrogate)
    = Returned str
        (logged (Fixture.session_world Fixture.string_AB Fixture.string_mem_surrogate)
           loads) /\
    list_ascii_of_string str = map chr [0xED; 0xA0; 0x80; 0x41].
Proof.
  destruct (stringFromLSAString_terminated (error := Z) Fixture.string_AB
              (Fixture.session_world Fixture.string_AB Fixture.string_mem_surrogate)
              [0xD800; 0x41]) as (loads & _ & H).
  - vm_compute. discriminate.
  - vm_compute. reflexivity.
  - vm_compute. reflexivity.
  - repeat constructor; discriminate.
  - vm_compute. reflexivity.
  - exists (string_of_units [0xD800; 0x41]), loads. split; [exact H|].
    vm_compute. reflexivity.
Defined.

(** ** newLogonSessionData on records in LSA form *)

Section Marshaling.

Context {error : Type}.

Implicit Types w : World error.
Implicit Types m : gmap Z Byte.byte.

Lemma peek_string_of_terminated m (s : lsa.LSA_UNICODE_STRING) :
  terminated m s -> peek_string m s = Some (designated_or_empty m s).
Proof.
  unfold designated_or_empty.
  destruct (Z.eqb_spec (lsa.Buffer s) 0) as [Hb|Hb].
  { intros _. unfold peek_string. rewrite Hb. reflexivity. }
  destruct (Z.eqb_spec (lsa.Length s) 0) as [Hl|Hl].
  { intros _. unfold peek_string. rewrite Hl.
    destruct (lsa.Buffer s =? 0); reflexivity. }
  intros [H|[H|(us & Hu & Hnz & Hnul)]]; [contradiction | contradiction |].
  cbn [orb].
  destruct (Z_lt_le_dec (lsa.Length s) 0) as [Hneg|Hpos].
  - (* a negative [Length] designates nothing and lets the code scan nothing *)
    unfold peek_string, designated_string, designated_units in *.
    destruct (Z.eqb_spec (lsa.Buffer s) 0); [contradiction|].
    destruct (Z.eqb_spec (lsa.Length s) 0); [contradiction|]. cbn [orb].
    rewrite Z2Nat.nonpos by lia.
    assert (lsa.Length s / 2 < 0) by (apply Z.div_lt_upper_bound; lia).
    rewrite Z2Nat.nonpos by lia. reflexivity.
  - rewrite (peek_string_terminated m s us Hb ltac:(lia) Hu Hnz Hnul).
    unfold designated_string. rewrite Hu. reflexivity.
Qed.

Lemma marshal_of_terminated m (d : lsa.SECURITY_LOGON_SESSION_DATA) (sid : pointer) :
  (forall s, In s (descriptors d) -> terminated m s) ->
  marshal m d sid = Some (SessionObject (expected_session m d sid)).
Proof.
  intros H. unfold marshal.
  repeat match goal with
         | |- context [peek_string m ?s] =>
             rewrite (peek_string_of_terminated m s) by (apply H; cbn; tauto)
         end.
  reflexivity.
Qed.

(** On a record whose descriptors are in LSA form and whose SID, if any,
    can be read, [newLogonSessionData] returns a new structure that is the
    record field by field: each string is the one its descriptor
    designates, each time the conversion of the same-named time stamp,
    each number unchanged, and the SID nil or a new byte array holding the
    bytes of the native SID. *)
Lemma newLogonSessionData_marshals (data : Z) w
    (d : lsa.SECURITY_LOGON_SESSION_DATA) :
  sessions w !! data = Some d ->
  (forall s, In s (descriptors d) -> terminated (bytes w) s) ->
  (lsa.Sid d <> 0 -> is_Some (peek_SID (bytes w) (lsa.Sid d))) ->
  exists k sid w',
    newLogonSessionData data w = Returned (Managed k) w' /\
    (length (heap w) <= k)%nat /\
    heap w' !! k = Some (SessionObject (expected_session (bytes w) d sid)) /\
    bytes w' = bytes w /\ sessions w' = sessions w /\
    ((lsa.Sid d = 0 /\ sid = Nil) \/
     (lsa.Sid d <> 0 /\
      exists j b, sid = Managed j /\ (length (heap w) <= j)%nat /\
        heap w' !! j = Some (ByteArray b) /\
        peek_SID (bytes w) (lsa.Sid d) = Some b)).
Proof.
  intros Hd Hstr Hsid.
  destruct (newLogonSessionData_run data w) as (evs & _ & E).
  rewrite Hd in E.
  destruct (Z.eqb_spec (lsa.Sid d) 0) as [Hz|Hnz].
  - rewrite (marshal_of_terminated _ d Nil Hstr) in E.
    eexists _, Nil, _. split; [exact E|]. cbn [heap bytes sessions].
    split; [lia|]. split; [apply list_lookup_middle; reflexivity|].
    split; [reflexivity|]. split; [reflexivity|]. left. auto.
  - destruct (Hsid Hnz) as [b Hb]. rewrite Hb in E.
    rewrite (marshal_of_terminated _ d _ Hstr) in E.
    eexists _, (Managed (length (heap w))), _. split; [exact E|].
    cbn [heap bytes sessions].
    split; [lia|]. split.
    { change (heap w ++ [ByteArray b; ?o]) with (heap w ++ [ByteArray b] ++ [o]).
      rewrite app_assoc. apply list_lookup_middle. rewrite length_app. cbn. lia. }
    split; [reflexivity|]. split; [reflexivity|]. right. split; [exact Hnz|].
    exists (length (heap w)), b. split; [reflexivity|]. split; [lia|].
    split; [apply list_lookup_middle; reflexivity | exact Hb].
Qed.

End Marshaling.

(** ** More on GetLogonSessions *)

Section Enumeration.

Context {error : Type} (os : LsaApi error).

Implicit Types w : World error.
Implicit Types m : gmap Z Byte.byte.

Lemma reads_within_load32 (addr : Z) : reads_within addr (addr + 4) (@load32 error addr).
Proof.
  unfold load32.
  apply reads_within_bind;
    [apply (reads_within_weaken addr (addr + 2)); [lia | lia | apply reads_within_load16]|].
  intros lo. apply reads_within_bind;
    [apply (reads_within_weaken (addr + 2) (addr + 2 + 2));
     [lia | lia | apply reads_within_load16]|].
  intros hi. apply reads_within_ret.
Qed.

Lemma reads_within_load_LUID (addr : Z) :
  reads_within addr (addr + 8) (@load_LUID error addr).
Proof.
  unfold load_LUID.
  apply reads_within_bind;
    [apply (reads_within_weaken addr (addr + 4)); [lia | lia | apply reads_within_load32]|].
  intros lo. apply reads_within_bind;
    [apply (reads_within_weaken (addr + 4) (addr + 4 + 4));
     [lia | lia | apply reads_within_load32]|].
  intros hi. apply reads_within_ret.
Qed.

Lemma reads_within_store_managed (lo hi : Z) (k : nat) (cnt idx : Z) (v : LUID) :
  reads_within lo hi (@store_LUID error (mkslice (Managed k) cnt cnt) idx v).
Proof.
  intros w. exists []. split; [|constructor]. rewrite app_nil_r.
  unfold store_LUID. cbn [Len Data].
  destruct ((0 <=? idx) && (idx <? cnt)); [|reflexivity].
  destruct (heap w !! k) as [[]|]; reflexivity.
Qed.

Lemma reads_within_copy_LUIDs (n : nat) : forall (idx : Z) (k : nat) (a cnt : Z),
  0 <= idx -> idx + Z.of_nat n = cnt -> cnt < 2 ^ 32 ->
  reads_within a (a + lsa.sizeof_LUID * cnt)
    (@copy_LUIDs error n idx (mkslice (Managed k) cnt cnt) (mkslice (Native a) cnt cnt)).
Proof.
  induction n as [|n IH]; intros idx k a cnt Hidx Hcnt Hmax; cbn [copy_LUIDs].
  - apply reads_within_ret.
  - rewrite index_LUID_native by lia.
    apply reads_within_bind.
    { eapply reads_within_weaken; [| |apply reads_within_load_LUID];
        unfold lsa.sizeof_LUID; lia. }
    intros v. apply reads_within_bind; [apply reads_within_store_managed|].
    intros _. rewrite (u32_small (idx + 1)) by lia. apply IH; lia.
Qed.

(** [GetLogonSessions] loads nothing outside the [cnt] elements of eight
    bytes at [buffer] that the query announced: every event of a run is a
    call, or the load of a byte of that array. *)
Theorem GetLogonSessions_loads_bounded w :
  exists r,
    head (events_since w (world_of (GetLogonSessions os w))) = Some (EvEnumerate r) /\
    Forall (fun e =>
              is_call e = true \/
              exists cnt buffer addr,
                r = inr (cnt, buffer) /\ e = EvLoad addr /\
                buffer <= addr < buffer + 8 * cnt)
      (events_since w (world_of (GetLogonSessions os w))).
Proof.
  rewrite GetLogonSessions_unfold.
  unfold LsaEnumerateLogonSessions.
  destruct (sysEnumerateLogonSessions os w) as [r0 [m s]].
  set (r := match r0 with
            | inl e => inl e
            | inr (cnt, buffer) => inr (u32 cnt, u64 buffer)
            end).
  exists r.
  assert (Hrange : forall cnt buffer, r = inr (cnt, buffer) -> 0 <= cnt < 2 ^ 32).
  { unfold r. destruct r0 as [e|[c b]]; intros cnt buffer Hr; inversion Hr.
    apply u32_range. }
  destruct r as [e|[cnt buffer]] eqn:Er.
  - cbn [world_of]. rewrite events_since_app. split; [reflexivity|].
    repeat constructor.
  - cbv zeta. cbn [heap bytes sessions trace].
    pose proof (Hrange cnt buffer eq_refl) as Hc.
    set (w1 := mkWorld m s (heap w ++ _) (trace w ++ [EvEnumerate (inr (cnt, buffer))])).
    destruct (reads_within_copy_LUIDs (Z.to_nat cnt) 0 (length (heap w)) buffer cnt
                ltac:(lia) ltac:(lia) ltac:(lia) w1) as (evs & T & F).
    assert (Hloads : Forall (fun e : Event error =>
                       is_call e = true \/
                       exists cnt' buffer' addr,
                         @inr error _ (cnt, buffer) = inr (cnt', buffer') /\
                         e = EvLoad addr /\
                         buffer' <= addr < buffer' + 8 * cnt') evs).
    { eapply Forall_impl; [exact F|]. intros [] Hx; cbn in Hx; try contradiction.
      right. exists cnt, buffer, addr. unfold lsa.sizeof_LUID in Hx. auto. }
    destruct (copy_LUIDs _ _ _ _ w1) as [[] w2|w2]; cbn [world_of] in T.
    + unfold LsaFreeReturnBuffer.
      destruct (sysFreeReturnBuffer os buffer w2) as [fr [m' s']].
      assert (Hev : events_since w
                      (mkWorld m' s' (heap w2) (trace w2 ++ [EvFree buffer fr]))
                    = EvEnumerate (inr (cnt, buffer)) :: evs ++ [EvFree buffer fr]).
      { rewrite T. unfold w1. cbn [trace]. rewrite <- !app_assoc.
        apply events_since_app. }
      destruct fr; cbn [world_of]; rewrite Hev; (split; [reflexivity|]);
        (constructor; [now left|]); apply Forall_app; (split; [exact Hloads|]);
        repeat constructor.
    + cbn [world_of].
      assert (Hev : events_since w w2 = EvEnumerate (inr (cnt, buffer)) :: evs).
      { unfold events_since. rewrite T. unfold w1. cbn [trace].
        rewrite <- app_assoc. apply drop_app_length. }
      rewrite Hev. split; [reflexivity|]. constructor; [now left | exact Hloads].
Qed.

(** An empty enumeration: with a count of 0 nothing is loaded, whatever
    the buffer pointer is; the buffer is still freed, and the result is
    an empty slice that is not nil. *)
Theorem GetLogonSessions_no_sessions w (c buf : Z) ms :
  sysEnumerateLogonSessions os w = (inr (c, buf), ms) ->
  u32 c = 0 ->
  exists fr w',
    GetLogonSessions os w
    = Returned match fr with
               | Some e => (nil_slice, Some e)
               | None => (mkslice (Managed (length (heap w))) 0 0, None)
               end w' /\
    events_since w w' = [EvEnumerate (inr (0, u64 buf)); EvFree (u64 buf) fr] /\
    heap w' = heap w ++ [LuidArray []].
Proof.
  intros Hq Hc. rewrite GetLogonSessions_unfold. unfold LsaEnumerateLogonSessions.
  rewrite Hq. destruct ms as [m s]. rewrite Hc. cbv zeta.
  cbn [heap bytes sessions trace].
  change (Z.to_nat 0) with 0%nat. cbn [copy_LUIDs replicate]. rewrite ret_run.
  cbv beta iota. unfold LsaFreeReturnBuffer.
  match goal with
  | |- context [sysFreeReturnBuffer os (u64 buf) ?W] =>
      destruct (sysFreeReturnBuffer os (u64 buf) W) as [fr [m' s']]
  end.
  exists fr. eexists. split; [destruct fr; reflexivity|].
  cbn [heap trace]. split; [|reflexivity].
  rewrite <- app_assoc. apply events_since_app.
Qed.

End Enumeration.

(** ** When GetLogonSessions returns *)

Section EnumerationReturns.

Context {error : Type} (os : LsaApi error).

Implicit Types w : World error.
Implicit Types m : gmap Z Byte.byte.

Lemma peek8_is_Some m (a : Z) : is_Some (peek8 m a) <-> is_Some (m !! a).
Proof. unfold peek8. destruct (m !! a); cbn; split; intros [x H]; eauto; discriminate. Qed.

Lemma peek16_is_Some m (a : Z) :
  is_Some (peek16 m a) <-> is_Some (m !! a) /\ is_Some (m !! (a + 1)).
Proof.
  unfold peek16. rewrite <- !peek8_is_Some.
  destruct (peek8 m a), (peek8 m (a + 1)); cbn; split;
    try (intros [[x H] [y H']]); try (intros [x H]); try discriminate; eauto.
Qed.

Lemma peek32_is_Some m (a : Z) :
  is_Some (peek32 m a) <-> is_Some (peek16 m a) /\ is_Some (peek16 m (a + 2)).
Proof.
  unfold peek32.
  destruct (peek16 m a), (peek16 m (a + 2)); cbn; split;
    try (intros [[x H] [y H']]); try (intros [x H]); try discriminate; eauto.
Qed.

Lemma peek_LUID_is_Some m (a : Z) :
  is_Some (peek_LUID m a) <-> forall j, 0 <= j < 8 -> is_Some (m !! (a + j)).
Proof.
  assert (H : is_Some (peek_LUID m a)
              <-> is_Some (peek32 m a) /\ is_Some (peek32 m (a + 4))).
  { unfold peek_LUID.
    destruct (peek32 m a), (peek32 m (a + 4)); cbn; split;
      try (intros [[x H] [y H']]); try (intros [x H]); try discriminate; eauto. }
  rewrite H, !peek32_is_Some, !peek16_is_Some. clear H. split.
  - intros [[[H0 H1] [H2 H3]] [[H4 H5] [H6 H7]]] j Hj.
    assert (Hc : j = 0 \/ j = 1 \/ j = 2 \/ j = 3 \/ j = 4 \/ j = 5 \/ j = 6 \/ j = 7)
      by lia.
    destruct Hc as [->|[->|[->|[->|[->|[->|[->| ->]]]]]]].
    + now rewrite Z.add_0_r.
    + exact H1.
    + exact H2.
    + now replace (a + 3) with (a + 2 + 1) by lia.
    + exact H4.
    + now replace (a + 5) with (a + 4 + 1) by lia.
    + now replace (a + 6) with (a + 4 + 2) by lia.
    + now replace (a + 7) with (a + 4 + 2 + 1) by lia.
  - intros H.
    pose proof (H 0 ltac:(lia)) as H0. rewrite Z.add_0_r in H0.
    pose proof (H 1 ltac:(lia)). pose proof (H 2 ltac:(lia)).
    pose proof (H 3 ltac:(lia)) as H3. replace (a + 3) with (a + 2 + 1) in H3 by lia.
    pose proof (H 4 ltac:(lia)).
    pose proof (H 5 ltac:(lia)) as H5. replace (a + 5) with (a + 4 + 1) in H5 by lia.
    pose proof (H 6 ltac:(lia)) as H6. replace (a + 6) with (a + 4 + 2) in H6 by lia.
    pose proof (H 7 ltac:(lia)) as H7. replace (a + 7) with (a + 4 + 2 + 1) in H7 by lia.
    auto 10.
Qed.

Lemma copy_LUIDs_returns (n : nat) : forall (idx : Z) w (l : list LUID) (k : nat) (a cnt : Z),
  heap w !! k = Some (LuidArray l) ->
  0 <= idx -> idx + Z.of_nat n = cnt -> cnt < 2 ^ 32 ->
  (forall i, idx <= i < cnt ->
     is_Some (peek_LUID (bytes w) (a + lsa.sizeof_LUID * i))) ->
  exists w',
    copy_LUIDs n idx (mkslice (Managed k) cnt cnt) (mkslice (Native a) cnt cnt) w
    = Returned tt w'.
Proof.
  induction n as [|n IH]; intros idx w l k a cnt Hk Hidx Hcnt Hmax Hall.
  - eexists. reflexivity.
  - destruct (pure_read_load_LUID (error := error) (a + lsa.sizeof_LUID * idx) w)
      as (e1 & F1 & E1).
    destruct (Hall idx ltac:(lia)) as [v Hv]. rewrite Hv in E1.
    cbn [copy_LUIDs]. rewrite bind_run, index_LUID_native, E1 by lia.
    rewrite bind_run.
    rewrite (store_LUID_managed k cnt idx v (logged w e1) l) by (auto; lia).
    rewrite (u32_small (idx + 1)) by lia.
    eapply IH; [| lia | lia | lia |].
    + cbn [heap logged]. apply list_lookup_insert_eq. eapply lookup_lt_Some, Hk.
    + intros i Hi. apply Hall. lia.
Qed.

(** After a successful query [GetLogonSessions] returns, rather than
    faulting, exactly when all [8 * cnt] bytes of the announced buffer are
    mapped. *)
Theorem GetLogonSessions_returns_iff_mapped w (c buf : Z) m
    (s : gmap Z lsa.SECURITY_LOGON_SESSION_DATA) :
  sysEnumerateLogonSessions os w = (inr (c, buf), (m, s)) ->
  (exists r w', GetLogonSessions os w = Returned r w') <->
  (forall addr, u64 buf <= addr < u64 buf + 8 * u32 c -> is_Some (m !! addr)).
Proof.
  intros Hq. pose proof (u32_range c) as Hc. split.
  - intros (r & w' & Hr) addr Ha.
    destruct (GetLogonSessions_anatomy os w) as (r0 & m0 & s0 & Hq' & H).
    rewrite Hq in Hq'. inversion Hq'; subst r0 m0 s0; clear Hq'.
    destruct H as (loads & l & _ & Hlen & H). cbv zeta in H.
    destruct H as [H | (Hall & _)]; [congruence|].
    set (i := (addr - u64 buf) / 8).
    assert (Hi : 0 <= i < u32 c /\ 0 <= addr - u64 buf - 8 * i < 8).
    { unfold i. pose proof (Z.div_mod (addr - u64 buf) 8 ltac:(lia)).
      pose proof (Z.mod_pos_bound (addr - u64 buf) 8 ltac:(lia)).
      split; [split|]; [apply Z.div_pos; lia | apply Z.div_lt_upper_bound; lia | lia]. }
    assert (Hs : is_Some (peek_LUID m (u64 buf + lsa.sizeof_LUID * i))).
    { rewrite (Hall i) by lia. apply lookup_lt_is_Some. lia. }
    rewrite peek_LUID_is_Some in Hs.
    specialize (Hs (addr - u64 buf - 8 * i) ltac:(lia)).
    replace (u64 buf + lsa.sizeof_LUID * i + (addr - u64 buf - 8 * i)) with addr in Hs
      by (unfold lsa.sizeof_LUID; lia).
    exact Hs.
  - intros Hmap. rewrite GetLogonSessions_unfold. unfold LsaEnumerateLogonSessions.
    rewrite Hq. cbv zeta. cbn [heap bytes sessions trace].
    match goal with
    | |- context [copy_LUIDs ?n 0 ?luids ?data ?W] =>
        destruct (copy_LUIDs_returns n 0 W
                    (replicate (Z.to_nat (u32 c)) (lsa.mkLUID 0 0))
                    (length (heap w)) (u64 buf) (u32 c)) as (w2 & E)
    end.
    + cbn [heap]. apply list_lookup_middle. reflexivity.
    + lia.
    + lia.
    + lia.
    + intros i Hi. cbn [bytes]. apply peek_LUID_is_Some. intros j Hj.
      apply Hmap. unfold lsa.sizeof_LUID. lia.
    + rewrite E. unfold LsaFreeReturnBuffer.
      destruct (sysFreeReturnBuffer os (u64 buf) w2) as [[e|] [m' s']]; eauto.
Qed.

(** A run that faults has freed nothing: without a deferred call, the
    buffer of the successful query stays with the LSA. *)
Theorem faulted_run_frees_nothing w :
  (forall w', GetLogonSessions os w = Panicked w' ->
     frees (events_since w w') = [] /\
     exists b, omap query_buffer (events_since w w') = [b]) /\
  (forall luid w', GetLogonSessionData os luid w = Panicked w' ->
     frees (events_since w w') = [] /\
     exists b, omap query_buffer (events_since w w') = [b]).
Proof.
  assert (Hgen : forall evs : list (Event error), run_shape evs None ->
            frees evs = [] /\ exists b, omap query_buffer evs = [b]).
  { intros evs Hs. inversion Hs as [| q b loads Hq Hb F |]; subst.
    assert (Hnb : omap query_buffer loads = []).
    { clear -F. induction F as [|e l He _ IH]; [reflexivity|].
      cbn. destruct e; try discriminate He; exact IH. }
    split.
    - unfold frees. cbn [omap list_omap]. fold (frees loads).
      rewrite (frees_loads _ F).
      destruct q as [[|[]]|? []| | | | | |]; cbn in *; congruence.
    - exists b. cbn [omap list_omap]. rewrite Hb.
      change (omap query_buffer loads) with (omap query_buffer loads).
      now rewrite Hnb. }
  split.
  - intros w' Hp. destruct (GetLogonSessions_shape os w) as [Hs _].
    rewrite Hp in Hs. apply Hgen. exact Hs.
  - intros luid w' Hp. destruct (GetLogonSessionData_shape os luid w) as [Hs _].
    rewrite Hp in Hs. apply Hgen. exact Hs.
Qed.

End EnumerationReturns.

(** ** The caller *)

Section CallerRuns.

Context {error : Type} (os : LsaApi error).

Implicit Types w : World error.
Implicit Types evs : list (Event error).

(** What the caller needs to know of a run of [GetLogonSessionData]. *)
Lemma GetLogonSessionData_summary (luid : pointer) w :
  exists evs new,
    trace (world_of (GetLogonSessionData os luid w)) = trace w ++ evs /\
    heap (world_of (GetLogonSessionData os luid w)) = heap w ++ new /\
    run_shape evs (verdict (GetLogonSessionData os luid w)) /\
    forall p w', GetLogonSessionData os luid w = Returned (p, None) w' ->
      exists k sd, p = Managed k /\ heap w' !! k = Some (SessionObject sd).
Proof.
  destruct (GetLogonSessionData_anatomy os luid w) as (r & m & s & _ & H).
  destruct r as [e | buf].
  - rewrite H. cbn [world_of verdict heap trace]. exists [EvGetData luid (inl e)], [].
    split; [reflexivity|]. split; [now rewrite app_nil_r|].
    split; [now apply (shape_query_failed _ e)|]. intros p w' Hr. discriminate Hr.
  - cbv zeta in H. destruct H as (loads & new & F & H).
    destruct H as [[_ H] | (p & fr & m' & s' & Hn & _ & H)]; rewrite H;
      cbn [world_of verdict heap trace].
    + exists (EvGetData luid (inr buf) :: loads), new.
      split; [reflexivity|]. split; [reflexivity|].
      split; [now apply (shape_faulted _ buf)|]. intros p w' Hr. discriminate Hr.
    + exists (EvGetData luid (inr buf) :: loads ++ [EvFree buf fr]), new.
      split; [now rewrite <- app_assoc|]. split; [reflexivity|].
      split; [destruct fr; now apply (shape_freed _ buf)|].
      intros p0 w' Hr. destruct fr; [discriminate Hr|].
      inversion Hr; subst p0 w'; clear Hr. cbn [heap].
      apply newLogonSessionData_returned in Hn.
      destruct Hn as (d & sd & loads' & _ & _ & _ & Hcase). cbn [heap] in Hcase.
      destruct Hcase as [(_ & _ & -> & Hw) | (_ & b & _ & _ & -> & Hw)];
        inversion Hw as [[Hh Ht]]; rewrite Hh.
      * exists (length (heap w)), sd. split; [reflexivity|].
        apply list_lookup_middle. reflexivity.
      * exists (S (length (heap w))), sd. split; [reflexivity|].
        change (heap w ++ [ByteArray b; SessionObject sd])
          with (heap w ++ [ByteArray b] ++ [SessionObject sd]).
        rewrite app_assoc. apply list_lookup_middle. rewrite length_app. cbn. lia.
Qed.

(** What the caller needs to know of a run of [GetLogonSessions]. *)
Lemma GetLogonSessions_summary w :
  exists evs,
    trace (world_of (GetLogonSessions os w)) = trace w ++ evs /\
    run_shape evs (verdict (GetLogonSessions os w)) /\
    forall sl w', GetLogonSessions os w = Returned (sl, None) w' ->
      exists cnt l,
        sl = mkslice (Managed (length (heap w))) cnt cnt /\
        0 <= cnt /\ length l = Z.to_nat cnt /\
        heap w' !! length (heap w) = Some (LuidArray l).
Proof.
  destruct (GetLogonSessions_anatomy os w) as (r & m & s & _ & H).
  destruct r as [e | [c buf]].
  - rewrite H. cbn [world_of verdict heap trace]. exists [EvEnumerate (inl e)].
    split; [reflexivity|].
    split; [now apply (shape_query_failed _ e)|]. intros p w' Hr. discriminate Hr.
  - destruct H as (loads & l & F & Hlen & H). cbv zeta in H.
    destruct H as [H | (_ & fr & m' & s' & _ & H)]; rewrite H;
      cbn [world_of verdict heap trace].
    + exists (EvEnumerate (inr (u32 c, u64 buf)) :: loads).
      split; [reflexivity|].
      split; [now apply (shape_faulted _ (u64 buf))|]. intros p w' Hr. discriminate Hr.
    + exists (EvEnumerate (inr (u32 c, u64 buf)) :: loads ++ [EvFree (u64 buf) fr]).
      split; [now rewrite <- app_assoc|].
      split; [destruct fr; now apply (shape_freed _ (u64 buf))|].
      intros sl w' Hr. destruct fr; [discriminate Hr|].
      inversion Hr; subst sl w'; clear Hr. cbn [heap].
      exists (u32 c), l. split; [reflexivity|].
      split; [apply u32_range|]. split; [exact Hlen|].
      apply list_lookup_middle. reflexivity.
Qed.

Lemma index_LUID_managed (k : nat) (cnt i : Z) w (l : list LUID) (v : LUID) :
  0 <= i < cnt ->
  heap w !! k = Some (LuidArray l) -> l !! Z.to_nat i = Some v ->
  index_LUID (mkslice (Managed k) cnt cnt) i w = Returned v w.
Proof.
  intros Hi Hk Hv. unfold index_LUID. cbn [Len Data].
  replace ((0 <=? i) && (i <? cnt)) with true by (symmetry; lia).
  now rewrite Hk, Hv.
Qed.

(** The loop of [main]: a sequence of runs of [GetLogonSessionData], one
    for each element left, that stops at the first run that fails; each
    completed run has printed the line of its LUID. *)
Lemma main_loop_runs (n : nat) : forall (i : Z) (out : list (Output error)) w
    (k : nat) (cnt : Z) (l : list LUID),
  heap w !! k = Some (LuidArray l) ->
  length l = Z.to_nat cnt ->
  0 <= i -> i + Z.of_nat n = cnt ->
  exists evs en done lines,
    trace (world_of (main_loop os n i (mkslice (Managed k) cnt cnt) out w))
    = trace w ++ evs /\
    runs_shape evs en done /\
    line_luid <$> lines = Some <$> take done (drop (Z.to_nat i) l) /\
    match main_loop os n i (mkslice (Managed k) cnt cnt) out w with
    | Returned (out', c) _ =>
        (en = Ended /\ c = 0 /\ done = n /\ out' = out ++ lines) \/
        (exists e, en = Failed e /\ c = 1 /\
                   out' = out ++ lines ++ [PrintSessionDataError e])
    | Panicked _ => en = Faulted
    end.
Proof.
  induction n as [|n IH]; intros i out w k cnt l Hk Hlen Hi Hcnt.
  - exists [], Ended, 0%nat, []. cbn [main_loop]. rewrite ret_run. cbn [world_of].
    split; [now rewrite app_nil_r|]. split; [constructor|]. split; [reflexivity|].
    cbv beta iota. left. now rewrite app_nil_r.
  - assert (Hv : exists v, l !! Z.to_nat i = Some v).
    { apply lookup_lt_is_Some. lia. }
    destruct Hv as [v Hv].
    cbn [main_loop]. rewrite bind_run.
    rewrite (index_LUID_managed k cnt i w l v) by (auto; lia).
    rewrite bind_run. unfold alloc.
    set (w1 := mkWorld (bytes w) (sessions w) (heap w ++ [LuidArray [v]]) (trace w)).
    rewrite bind_run.
    destruct (GetLogonSessionData_summary (Managed (length (heap w))) w1)
      as (evs1 & new1 & T1 & H1 & S1 & P1).
    destruct (GetLogonSessionData os (Managed (length (heap w))) w1)
      as [[sd [e|]] w2|w2]; cbn [world_of verdict] in *; cbv beta iota.
    + rewrite ret_run. cbn [world_of]. cbv beta iota.
      exists evs1, (Failed e), 0%nat, [].
      split; [exact T1|]. split; [now constructor|]. split; [reflexivity|].
      right. exists e. auto.
    + destruct (P1 sd w2 eq_refl) as (k' & d & -> & Hd).
      rewrite bind_run. unfold read_session. rewrite Hd.
      set (line := PrintSession v _ _ _ _ _).
      assert (Hk2 : heap w2 !! k = Some (LuidArray l)).
      { rewrite H1. unfold w1. cbn [heap]. rewrite <- app_assoc.
        rewrite lookup_app_l; [exact Hk | eapply lookup_lt_Some, Hk]. }
      destruct (IH (i + 1) (out ++ [line]) w2 k cnt l Hk2 Hlen ltac:(lia) ltac:(lia))
        as (evs2 & en & done & lines & T2 & S2 & L2 & R2).
      exists (evs1 ++ evs2), en, (S done), (line :: lines).
      split; [rewrite T2, T1; unfold w1; cbn [trace]; now rewrite app_assoc|].
      split; [now constructor|].
      split.
      { rewrite (drop_S l v (Z.to_nat i) Hv). cbn [take fmap list_fmap].
        change (list_fmap _ _ line_luid lines) with (line_luid <$> lines).
        rewrite L2. replace (Z.to_nat (i + 1)) with (S (Z.to_nat i)) by lia.
        reflexivity. }
      destruct (main_loop os n (i + 1) _ _ w2) as [[out' c] w3|w3]; [|exact R2].
      destruct R2 as [(-> & -> & -> & ->) | (e & -> & -> & ->)].
      * left. rewrite <- app_assoc. auto.
      * right. exists e. rewrite <- app_assoc. auto.
    + exists evs1, Faulted, 0%nat, [].
      split; [exact T1|]. split; [now constructor|]. split; [reflexivity|].
      reflexivity.
Qed.

(** A run of [main]: the enumeration, then the loop. *)
Lemma main_runs w :
  exists evs en done,
    trace (world_of (main os w)) = trace w ++ evs /\
    runs_shape evs en done /\
    match main os w with
    | Returned (out, c) _ =>
        (en = Ended /\ c = 0 /\
         exists sl w1 k l,
           GetLogonSessions os w = Returned (sl, None) w1 /\
           Data sl = Managed k /\ heap w1 !! k = Some (LuidArray l) /\
           S (length l) = done /\
           line_luid <$> out = Some <$> l) \/
        (exists e line, en = Failed e /\ c = 1 /\ last out = Some line /\
           (line = PrintEnumerateError e \/ line = PrintSessionDataError e))
    | Panicked _ => en = Faulted
    end.
Proof.
  unfold main. rewrite bind_run.
  destruct (GetLogonSessions_summary w) as (evs1 & T1 & S1 & P1).
  destruct (GetLogonSessions os w) as [[sl [e|]] w1|w1] eqn:Eg;
    cbn [world_of verdict] in *; cbv beta iota.
  - rewrite ret_run. cbn [world_of]. cbv beta iota. exists evs1, (Failed e), 0%nat.
    split; [exact T1|]. split; [now constructor|].
    right. exists e, (PrintEnumerateError e). auto.
  - destruct (P1 sl w1 eq_refl) as (cnt & l & -> & Hc & Hlen & Hl). cbn [Len].
    destruct (main_loop_runs (Z.to_nat cnt) 0 [] w1 (length (heap w)) cnt l
                Hl Hlen ltac:(lia) ltac:(lia))
      as (evs2 & en & done & lines & T2 & S2 & L2 & R2).
    exists (evs1 ++ evs2), en, (S done).
    split; [rewrite T2, T1; now rewrite app_assoc|].
    split; [now constructor|].
    destruct (main_loop os _ 0 _ [] w1) as [[out c] w2|w2]; [|exact R2].
    destruct R2 as [(-> & -> & -> & ->) | (e & -> & -> & ->)].
    + left. split; [reflexivity|]. split; [reflexivity|].
      exists (mkslice (Managed (length (heap w))) cnt cnt), w1, (length (heap w)), l.
      split; [reflexivity|]. split; [reflexivity|]. split; [exact Hl|].
      cbn [drop] in L2. rewrite <- Hlen, firstn_all in L2.
      split; [lia|]. exact L2.
    + right. exists e, (PrintSessionDataError e).
      split; [reflexivity|]. split; [reflexivity|].
      split; [|now right]. cbn [app]. now rewrite last_snoc.
  - exists evs1, Faulted, 0%nat.
    split; [exact T1|]. split; [now constructor|]. reflexivity.
Qed.

End CallerRuns.

Section CallerFacts.

Context {error : Type} (os : LsaApi error).

Implicit Types w : World error.
Implicit Types evs : list (Event error).

Lemma loads_no_query_buffer (loads : list (Event error)) :
  Forall (fun e => is_load e = true) loads -> omap query_buffer loads = [].
Proof.
  induction 1 as [|e l He _ IH]; [reflexivity|].
  cbn. destruct e; try discriminate He; exact IH.
Qed.

Lemma loads_no_query (loads : list (Event error)) :
  Forall (fun e => is_load e = true) loads -> List.filter is_query loads = [].
Proof.
  induction 1 as [|e l He _ IH]; [reflexivity|].
  cbn. destruct e; try discriminate He; exact IH.
Qed.

Lemma loads_no_error (loads : list (Event error)) :
  Forall (fun e => is_load e = true) loads ->
  Forall (fun e => call_error e = None) loads.
Proof.
  intros F. eapply Forall_impl; [exact F|]. intros x Hx. now apply load_not_call in Hx.
Qed.

Lemma frees_app evs1 evs2 : frees (evs1 ++ evs2) = frees evs1 ++ frees evs2.
Proof. unfold frees. apply omap_app. Qed.

Lemma frees_query (q : Event error) : is_query q = true -> frees [q] = [].
Proof. destruct q; cbn; congruence. Qed.

Lemma query_error_no_buffer (q : Event error) (e : error) :
  call_error q = Some e -> query_buffer q = None.
Proof. destruct q as [[|[]]|? []| | | | | |]; cbn; congruence. Qed.

(** A run that returned: its frees are the buffers its queries handed
    out, it holds one query, and the error returned, if any, is that of
    its last event. *)
Lemma run_shape_returned evs (fr : option error) :
  run_shape evs (Some fr) ->
  frees evs = omap query_buffer evs /\
  length (List.filter is_query evs) = 1%nat /\
  match fr with
  | None => Forall (fun e => call_error e = None) evs
  | Some e =>
      exists before ev, evs = before ++ [ev] /\ call_error ev = Some e /\
                        Forall (fun e' => call_error e' = None) before
  end.
Proof.
  intros Hs.
  inversion Hs as [q e Hq He | | q b loads fr' Hq Hb F]; subst.
  - split; [|split].
    + rewrite (frees_query _ Hq). cbn. now rewrite (query_error_no_buffer _ _ He).
    + cbn. now rewrite Hq.
    + exists [], q. split; [reflexivity|]. split; [exact He | constructor].
  - split; [|split].
    + change (q :: loads ++ [EvFree b fr]) with ([q] ++ loads ++ [EvFree b fr]).
      rewrite !frees_app, (frees_query _ Hq), (frees_loads _ F).
      rewrite !omap_app, (loads_no_query_buffer _ F). cbn. now rewrite Hb.
    + cbn. rewrite Hq, List.filter_app, (loads_no_query _ F). reflexivity.
    + destruct fr as [e|].
      * exists (q :: loads), (EvFree b (Some e)). split; [reflexivity|].
        split; [reflexivity|].
        constructor; [now apply query_buffer_no_error in Hb | now apply loads_no_error].
      * constructor; [now apply query_buffer_no_error in Hb|].
        apply Forall_app. split; [now apply loads_no_error | repeat constructor].
Qed.

Lemma runs_shape_frees evs (en : ending error) (done : nat) :
  runs_shape evs en done -> en <> Faulted ->
  frees evs = omap query_buffer evs.
Proof.
  induction 1 as [|evs e Hs|evs Hs|evs rest en n Hs Hr IH]; intros Hne.
  - reflexivity.
  - apply (run_shape_returned _ _ Hs).
  - contradiction.
  - rewrite frees_app, omap_app, IH by exact Hne.
    now rewrite (proj1 (run_shape_returned _ _ Hs)).
Qed.

Lemma runs_shape_errors evs (en : ending error) (done : nat) :
  runs_shape evs en done ->
  match en with
  | Failed e =>
      exists before ev, evs = before ++ [ev] /\ call_error ev = Some e /\
                        Forall (fun e' => call_error e' = None) before
  | _ => Forall (fun e => call_error e = None) evs
  end.
Proof.
  induction 1 as [|evs e Hs|evs Hs|evs rest en n Hs Hr IH].
  - constructor.
  - apply (run_shape_returned _ _ Hs).
  - inversion Hs as [| q b loads Hq Hb F |]; subst.
    constructor; [now apply query_buffer_no_error in Hb | now apply loads_no_error].
  - pose proof (proj2 (proj2 (run_shape_returned _ _ Hs))) as Hok. cbn in Hok.
    destruct en as [|e|].
    + apply Forall_app. split; assumption.
    + destruct IH as (before & ev & -> & He & Hb).
      exists (evs ++ before), ev. split; [now rewrite app_assoc|].
      split; [exact He|]. apply Forall_app. split; assumption.
    + apply Forall_app. split; assumption.
Qed.

Lemma runs_shape_queries evs (en : ending error) (done : nat) :
  runs_shape evs en done ->
  length (List.filter is_query evs)
  = (done + match en with Ended => 0 | _ => 1 end)%nat.
Proof.
  induction 1 as [|evs e Hs|evs Hs|evs rest en n Hs Hr IH].
  - reflexivity.
  - apply (run_shape_returned _ _ Hs).
  - inversion Hs as [| q b loads Hq Hb F |]; subst.
    cbn. now rewrite Hq, (loads_no_query _ F).
  - rewrite List.filter_app, length_app, IH.
    rewrite (proj1 (proj2 (run_shape_returned _ _ Hs))). lia.
Qed.

Lemma main_events w r w' :
  main os w = Returned r w' ->
  exists en done,
    runs_shape (events_since w w') en done /\
    match r with
    | (out, c) =>
        (en = Ended /\ c = 0 /\
         exists sl w1 k l,
           GetLogonSessions os w = Returned (sl, None) w1 /\
           Data sl = Managed k /\ heap w1 !! k = Some (LuidArray l) /\
           S (length l) = done /\
           line_luid <$> out = Some <$> l) \/
        (exists e line, en = Failed e /\ c = 1 /\ last out = Some line /\
           (line = PrintEnumerateError e \/ line = PrintSessionDataError e))
    end.
Proof.
  intros Hr. destruct (main_runs os w) as (evs & en & done & T & S & R).
  rewrite Hr in T, R. cbn [world_of] in T. exists en, done.
  unfold events_since. rewrite T, drop_app_length. split; [exact S|].
  destruct r as [out c]. exact R.
Qed.

(** [main] exits with status 1 exactly when a call to the LSA failed: the
    failing call is then the last thing the run did, no earlier call
    failed, and the last line printed reports the error of that call.
    With status 0 no call failed. *)
Theorem main_exit_status w (out : list (Output error)) (c : Z) w' :
  main os w = Returned (out, c) w' ->
  (c = 0 /\ Forall (fun e => call_error e = None) (events_since w w')) \/
  (c = 1 /\
   exists before ev e line,
     events_since w w' = before ++ [ev] /\ call_error ev = Some e /\
     Forall (fun e' => call_error e' = None) before /\
     last out = Some line /\
     (line = PrintEnumerateError e \/ line = PrintSessionDataError e)).
Proof.
  intros Hr. destruct (main_events w _ _ Hr) as (en & done & S & R).
  pose proof (runs_shape_errors _ _ _ S) as He.
  destruct R as [(-> & -> & _) | (e & line & -> & -> & Hl & Hline)].
  - left. auto.
  - right. split; [reflexivity|]. destruct He as (before & ev & Hev & Hce & Hb).
    exists before, ev, e, line. auto.
Qed.

(** Whether it exits with 0 or with 1, [main] has freed every buffer the
    LSA handed out, each one once and in the order handed out. *)
Theorem main_frees_every_buffer w r w' :
  main os w = Returned r w' ->
  frees (events_since w w') = omap query_buffer (events_since w w').
Proof.
  intros Hr. destruct (main_events w _ _ Hr) as (en & done & S & R).
  apply (runs_shape_frees _ _ _ S). destruct r as [out c].
  destruct R as [(-> & _) | (e & line & -> & _)]; discriminate.
Qed.

(** With status 0, [main] has printed one line for each LUID of the slice
    [GetLogonSessions] returned, in the order of the slice, and has made
    one query for the enumeration and one for each of these LUIDs. *)
Theorem main_lists_every_session w (out : list (Output error)) w' :
  main os w = Returned (out, 0) w' ->
  exists sl w1 k l,
    GetLogonSessions os w = Returned (sl, None) w1 /\
    Data sl = Managed k /\ heap w1 !! k = Some (LuidArray l) /\
    line_luid <$> out = Some <$> l /\
    length (List.filter is_query (events_since w w')) = S (length l).
Proof.
  intros Hr. destruct (main_events w _ _ Hr) as (en & done & S & R).
  pose proof (runs_shape_queries _ _ _ S) as Hq.
  destruct R as [(-> & _ & sl & w1 & k & l & Hg & Hd & Hl & Hdone & Hout)
                | (e & line & _ & Hc & _)]; [|discriminate Hc].
  exists sl, w1, k, l. rewrite Hq, <- Hdone. repeat split; auto; lia.
Qed.

End CallerFacts.

Lemma main_exit_status_witness :
  exists out w',
    main Scenario.data_fails_os Fixture.empty_world = Returned (out, 1) w' /\
    last out = Some (PrintSessionDataError 7).
Proof.
  run_as E (main Scenario.data_fails_os) Fixture.empty_world.
  do 2 eexists. split; [exact E|].
  destruct (main_exit_status _ _ _ _ _ E) as [[Hc _] | _]; [discriminate Hc|].
  reflexivity.
Defined.

Lemma main_frees_every_buffer_witness :
  exists r w',
    main Fixture.good_os Fixture.empty_world = Returned r w' /\
    frees (events_since Fixture.empty_world w') = [0x2000; 0x3000; 0x3000].
Proof.
  run_as E (main Fixture.good_os) Fixture.empty_world.
  do 2 eexists. split; [exact E|].
  rewrite (main_frees_every_buffer _ _ _ _ E). vm_compute. reflexivity.
Defined.

Lemma main_lists_every_session_witness :
  exists out w',
    main Fixture.good_os Fixture.empty_world = Returned (out, 0) w' /\
    line_luid <$> out = [Some (lsa.mkLUID 0x3e7 0); Some (lsa.mkLUID 0x3e4 0)].
Proof.
  run_as E (main Fixture.good_os) Fixture.empty_world.
  do 2 eexists. split; [exact E|].
  destruct (main_lists_every_session _ _ _ _ E) as (sl & w1 & k & l & _ & _ & _ & H & _).
  vm_compute. reflexivity.
Defined.

(** ** GetLogonSessionData, end to end *)

Section SessionData.

Context {error : Type} (os : LsaApi error).

Implicit Types w : World error.

(** When the query hands out a record in LSA form, with a readable SID if
    it has one, [GetLogonSessionData] frees the record and returns the
    result of the free; when that is no error, the structure returned is
    the record field by field, as the memory stood before the free. *)
Theorem GetLogonSessionData_marshals (luid : pointer) w (buf : Z)
    (m : gmap Z Byte.byte) (s : gmap Z lsa.SECURITY_LOGON_SESSION_DATA)
    (d : lsa.SECURITY_LOGON_SESSION_DATA) :
  sysGetLogonSessionData os luid w = (inr buf, (m, s)) ->
  s !! buf = Some d ->
  (forall desc, In desc (descriptors d) -> terminated m desc) ->
  (lsa.Sid d <> 0 -> is_Some (peek_SID m (lsa.Sid d))) ->
  exists fr k sid w',
    GetLogonSessionData os luid w
    = Returned match fr with
               | Some e => (Nil, Some e)
               | None => (Managed k, None)
               end w' /\
    (exists before, events_since w w' = before ++ [EvFree buf fr]) /\
    (length (heap w) <= k)%nat /\
    heap w' !! k = Some (SessionObject (expected_session m d sid)) /\
    ((lsa.Sid d = 0 /\ sid = Nil) \/
     (lsa.Sid d <> 0 /\
      exists j b, sid = Managed j /\ (length (heap w) <= j)%nat /\
        heap w' !! j = Some (ByteArray b) /\ peek_SID m (lsa.Sid d) = Some b)).
Proof.
  intros Hq Hd Hstr Hsid.
  destruct (GetLogonSessionData_anatomy os luid w) as (r & m0 & s0 & Hq' & H).
  rewrite Hq in Hq'. inversion Hq'; subst r m0 s0; clear Hq'.
  cbv zeta in H. destruct H as (loads & new & _ & H).
  set (w1 := mkWorld m s (heap w) (trace w ++ [EvGetData luid (inr buf)])) in *.
  destruct (newLogonSessionData_marshals buf w1 d Hd Hstr Hsid)
    as (k & sid & w2 & Hn & Hk & Hobj & _ & _ & Hcase).
  destruct H as [[Hp _] | (p & fr & m' & s' & Hn' & _ & H)]; [congruence|].
  rewrite Hn in Hn'. inversion Hn' as [[Hpk Hw2]]. subst p. clear Hn'.
  exists fr, k, sid. eexists. split; [exact H|]. cbn [heap trace].
  split.
  { eexists. rewrite <- app_assoc, events_since_app. reflexivity. }
  rewrite Hw2 in Hobj, Hcase. cbn [heap] in Hobj, Hcase.
  split; [exact Hk|]. split; [exact Hobj|]. exact Hcase.
Qed.

(** When the query reports success but no record is mapped at the
    pointer it hands out, a nil pointer for one, [GetLogonSessionData]
    faults on the first field it reads, before any call frees. *)
Theorem GetLogonSessionData_without_record (luid : pointer) w (buf : Z)
    (m : gmap Z Byte.byte) (s : gmap Z lsa.SECURITY_LOGON_SESSION_DATA) :
  sysGetLogonSessionData os luid w = (inr buf, (m, s)) ->
  s !! buf = None ->
  exists w',
    GetLogonSessionData os luid w = Panicked w' /\
    events_since w w' = [EvGetData luid (inr buf); EvDeref buf] /\
    heap w' = heap w.
Proof.
  intros Hq Hd. unfold GetLogonSessionData. rewrite bind_run.
  unfold LsaGetLogonSessionData. rewrite Hq. rewrite bind_run.
  unfold newLogonSessionData. rewrite bind_run. unfold deref_session.
  cbn [sessions]. rewrite Hd.
  eexists. split; [reflexivity|]. cbn [heap trace]. split; [|reflexivity].
  rewrite <- app_assoc. apply events_since_app.
Qed.

End SessionData.

Lemma GetLogonSessionData_marshals_witness :
  exists k w' sd,
    GetLogonSessionData Fixture.good_os (Managed 0) Fixture.caller_world
    = Returned (Managed k, None) w' /\
    heap w' !! k = Some (SessionObject sd) /\
    UserName sd = "AB"%string /\ LogonType.String (LogonType sd) = "Interactive"%string.
Proof.
  destruct (GetLogonSessionData_marshals Fixture.good_os (Managed 0)
              Fixture.caller_world 0x3000 Fixture.all_mem
              {[ 0x3000 := Fixture.session Fixture.string_AB ]}
              (Fixture.session Fixture.string_AB))
    as (fr & k & sid & w' & Hr & _ & _ & Hobj & _).
  - reflexivity.
  - reflexivity.
  - intros s Hin. cbn in Hin.
    destruct Hin as [<-|Hin].
    + right. right. exists [0x41; 0x42].
      split; [vm_compute; reflexivity|].
      split; [repeat constructor; discriminate | vm_compute; reflexivity].
    + left. repeat (destruct Hin as [<-|Hin]; [reflexivity|]). destruct Hin.
  - intros _. vm_compute. eauto.
  - run_as E (GetLogonSessionData Fixture.good_os (Managed 0)) Fixture.caller_world.
    rewrite E in Hr. destruct fr; [discriminate Hr|].
    inversion Hr; subst.
    exists 2%nat. do 2 eexists. split; [exact E|]. split; [exact Hobj|].
    split; vm_compute; reflexivity.
Defined.

Lemma GetLogonSessionData_without_record_witness :
  exists w',
    GetLogonSessionData Scenario.unmapped_os (Managed 0) Fixture.caller_world
    = Panicked w' /\
    events_since Fixture.caller_world w' = [EvGetData (Managed 0) (inr 0); EvDeref 0].
Proof.
  destruct (GetLogonSessionData_without_record Scenario.unmapped_os (Managed 0)
              Fixture.caller_world 0 ∅ ∅ eq_refl eq_refl) as (w' & H & He & _).
  exists w'. split; [exact H | exact He].
Defined.

(** ** No NUL in a converted string *)

Section NoNUL.

Context {error : Type}.

Implicit Types w : World error.
Implicit Types m : gmap Z Byte.byte.

Lemma chr_nonzero (x : Z) : 0 < x < 256 -> chr x <> Ascii.zero.
Proof.
  intros Hx H. unfold chr in H. apply (f_equal N_of_ascii) in H.
  rewrite N_ascii_embedding in H by lia. cbn in H. lia.
Qed.

Lemma lor_byte (K y : Z) : 0 < K < 256 -> 0 <= y < 256 -> 0 < Z.lor K y < 256.
Proof.
  intros HK Hy.
  assert (H0 : 0 <= Z.lor K y) by (apply Z.lor_nonneg; lia).
  assert (H1 : Z.lor K y <> 0) by (intros E; apply Z.lor_eq_0_l in E; lia).
  split; [lia|].
  apply (Z.log2_lt_pow2 _ 8); [lia|].
  rewrite Z.log2_lor by lia.
  assert (Z.log2 K < 8) by (apply Z.log2_lt_pow2; lia).
  assert (Z.log2 y < 8).
  { destruct (Z.eq_dec y 0) as [->|]; [cbn; lia | apply Z.log2_lt_pow2; lia]. }
  lia.
Qed.

Lemma shiftr_bound (r k hi : Z) :
  0 <= k -> 0 <= r -> r < hi * 2 ^ k -> 0 <= Z.shiftr r k < hi.
Proof.
  intros Hk Hr Hhi. rewrite Z.shiftr_div_pow2 by lia.
  assert (0 < 2 ^ k) by (apply Z.pow_pos_nonneg; lia).
  split; [apply Z.div_pos; lia | apply Z.div_lt_upper_bound; lia].
Qed.

Lemma land_63_bound (x : Z) : 0 <= Z.land x 0x3F < 256.
Proof.
  change 0x3F with (Z.ones 6). rewrite Z.land_ones by lia.
  pose proof (Z.mod_pos_bound x (2 ^ 6) ltac:(lia)). lia.
Qed.

Lemma utf8_AppendRune_no_NUL (r : Z) :
  0 < r -> Forall (fun c => c <> Ascii.zero) (utf8_AppendRune r).
Proof.
  intros Hr. unfold utf8_AppendRune.
  destruct (Z.leb_spec r 0x7F); [repeat constructor; apply chr_nonzero; lia|].
  destruct (Z.leb_spec r 0x7FF).
  { repeat constructor; apply chr_nonzero, lor_byte; try lia.
    - pose proof (shiftr_bound r 6 32 ltac:(lia) ltac:(lia) ltac:(lia)). lia.
    - apply land_63_bound. }
  set (r' := if (0x10FFFF <? r) || ((surr1 <=? r) && (r <? surr3))
             then replacementChar else r).
  assert (Hr' : 0 < r' <= 0x10FFFF).
  { unfold r', replacementChar, surr1, surr3.
    destruct (Z.ltb_spec 0x10FFFF r); cbn [orb]; [lia|].
    destruct ((55296 <=? r) && (r <? 57344)); lia. }
  destruct (Z.leb_spec r' 0xFFFF).
  - repeat constructor; apply chr_nonzero, lor_byte; try lia;
      try apply land_63_bound.
    pose proof (shiftr_bound r' 12 16 ltac:(lia) ltac:(lia) ltac:(lia)). lia.
  - repeat constructor; apply chr_nonzero, lor_byte; try lia;
      try apply land_63_bound.
    pose proof (shiftr_bound r' 18 8 ltac:(lia) ltac:(lia) ltac:(lia)). lia.
Qed.

Lemma wtf8_surrogate_no_NUL (r : Z) :
  0 <= r < 2 ^ 16 -> Forall (fun c => c <> Ascii.zero) (wtf8_surrogate r).
Proof.
  intros Hr. unfold wtf8_surrogate.
  destruct (Z.ltb_spec 0x10FFFF r) as [Hbig|_]; [lia|]. cbv zeta.
  repeat constructor; apply chr_nonzero, lor_byte; try lia;
    try apply land_63_bound.
  pose proof (shiftr_bound r 12 16 ltac:(lia) ltac:(lia) ltac:(lia)). lia.
Qed.

Lemma utf16_DecodeRune_positive (r1 r2 : Z) : 0 < utf16_DecodeRune r1 r2.
Proof.
  unfold utf16_DecodeRune.
  destruct ((surr1 <=? r1) && (r1 <? surr2) && (surr2 <=? r2) && (r2 <? surr3)) eqn:E;
    [|unfold replacementChar; lia].
  apply andb_prop in E as [E E4]. apply andb_prop in E as [E E3].
  apply andb_prop in E as [E1 E2].
  assert (0 <= Z.lor (Z.shiftl (r1 - surr1) 10) (r2 - surr2)).
  { apply Z.lor_nonneg. split; [apply Z.shiftl_nonneg|]; lia. }
  unfold surrSelf. lia.
Qed.

Lemma decodeWTF16_no_NUL (n : nat) : forall us : list Z,
  (length us <= n)%nat ->
  Forall (fun u => 0 < u) us ->
  Forall (fun c => c <> Ascii.zero) (decodeWTF16 us).
Proof.
  induction n as [|n IH]; intros [|r rest] Hlen Hpos; cbn [decodeWTF16];
    try constructor; cbn [length] in Hlen; try lia.
  inversion Hpos as [|? ? Hr Hrest]; subst.
  destruct ((r <? surr1) || (surr3 <=? r)) eqn:E1.
  { apply Forall_app. split; [now apply utf8_AppendRune_no_NUL|].
    apply IH; [lia | exact Hrest]. }
  apply orb_false_elim in E1 as [E1 E1'].
  assert (Hb : 0 <= r < 2 ^ 16) by (unfold surr1, surr3 in *; lia).
  destruct rest as [|r2 rest']; [now apply wtf8_surrogate_no_NUL|].
  inversion Hrest as [|? ? Hr2 Hrest']; subst. cbn [length] in Hlen.
  destruct ((surr1 <=? r) && (r <? surr2) && (surr2 <=? r2) && (r2 <? surr3)).
  - apply Forall_app. split; [apply utf8_AppendRune_no_NUL, utf16_DecodeRune_positive|].
    apply IH; [lia | exact Hrest'].
  - apply Forall_app. split; [now apply wtf8_surrogate_no_NUL|].
    apply IH; [cbn; lia | exact Hrest].
Qed.

Lemma peek16_nonneg m (a v : Z) : peek16 m a = Some v -> 0 <= v.
Proof.
  unfold peek16, peek8. destruct (m !! a) as [b0|]; [|discriminate].
  destruct (m !! (a + 1)) as [b1|]; [|discriminate]. cbn. intros H. inversion H.
  apply Z.lor_nonneg. split; [lia|]. apply Z.shiftl_nonneg. lia.
Qed.

Lemma peek_scan_positive m (n : nat) : forall (a : Z) (us : list Z),
  peek_scan m n a = Some us -> Forall (fun u => 0 < u) us.
Proof.
  induction n as [|n IH]; intros a us H; cbn [peek_scan] in H.
  - inversion H. constructor.
  - destruct (peek16 m a) as [v|] eqn:Hv; [|discriminate H]. cbn in H.
    destruct (Z.eqb_spec v 0); [inversion H; constructor|].
    destruct (peek_scan m n (a + 2)) as [rest|] eqn:Hrest; [|discriminate H].
    cbn in H. inversion H. constructor; [|eapply IH; exact Hrest].
    pose proof (peek16_nonneg _ _ _ Hv). lia.
Qed.

Lemma string_of_units_no_NUL (us : list Z) :
  Forall (fun u => 0 < u) us ->
  ~ In Ascii.zero (list_ascii_of_string (string_of_units us)).
Proof.
  intros H Hin. unfold string_of_units in Hin.
  rewrite list_ascii_of_string_of_list_ascii in Hin.
  pose proof (decodeWTF16_no_NUL (length us) us ltac:(lia) H) as F.
  rewrite Forall_forall in F. apply list_elem_of_In in Hin. now apply F in Hin.
Qed.

(** A string returned by [stringFromLSAString] holds no NUL character:
    the walk stops at the first NUL code unit, and neither the UTF-8
    form of a code point other than 0 nor the three bytes kept for a lone
    surrogate hold a zero byte. *)
Theorem stringFromLSAString_no_NUL (s : lsa.LSA_UNICODE_STRING) w (str : string) w' :
  stringFromLSAString s w = Returned str w' ->
  ~ In Ascii.zero (list_ascii_of_string str).
Proof.
  intros Hr.
  destruct (pure_read_stringFromLSAString (error := error) s w) as (loads & _ & E).
  rewrite E in Hr. unfold peek_string in Hr.
  destruct ((lsa.Buffer s =? 0) || (lsa.Length s =? 0)).
  - inversion Hr. intros [].
  - destruct (peek_scan (bytes w) _ _) as [us|] eqn:Hus; [|discriminate Hr].
    cbn in Hr. inversion Hr.
    apply string_of_units_no_NUL.
    eapply peek_scan_positive. exact Hus.
Qed.

End NoNUL.

Lemma stringFromLSAString_no_NUL_witness :
  exists str w',
    stringFromLSAString (lsa.mkLSA_UNICODE_STRING 6 6 0x1000)
      (Fixture.session_world Fixture.string_A Fixture.string_mem_NUL)
    = Returned str w' /\
    str = "A"%string /\ ~ In Ascii.zero (list_ascii_of_string str).
Proof.
  run_as E (stringFromLSAString (error := Z) (lsa.mkLSA_UNICODE_STRING 6 6 0x1000))
    (Fixture.session_world Fixture.string_A Fixture.string_mem_NUL).
  do 2 eexists. split; [exact E|]. split; [reflexivity|].
  exact (stringFromLSAString_no_NUL _ _ _ _ E).
Defined.

Lemma GetLogonSessions_no_sessions_witness :
  exists w',
    GetLogonSessions Scenario.no_session_os Fixture.empty_world
    = Returned (mkslice (Managed 0) 0 0, None) w' /\
    events_since Fixture.empty_world w'
    = [EvEnumerate (inr (0, 0xdead0000)); EvFree 0xdead0000 None].
Proof.
  destruct (GetLogonSessions_no_sessions Scenario.no_session_os Fixture.empty_world
              0 0xdead0000 _ eq_refl eq_refl) as (fr & w' & Hr & He & _).
  run_as E (GetLogonSessions Scenario.no_session_os) Fixture.empty_world.
  rewrite E in Hr. destruct fr; [discriminate Hr|]. inversion Hr; subst.
  eexists. split; [exact E | exact He].
Defined.

Lemma GetLogonSessions_returns_iff_mapped_witness :
  (exists r w', GetLogonSessions Fixture.good_os Fixture.empty_world = Returned r w') /\
  ~ (exists r w', GetLogonSessions Scenario.unmapped_os Fixture.empty_world
                  = Returned r w').
Proof.
  split.
  - apply (GetLogonSessions_returns_iff_mapped Fixture.good_os Fixture.empty_world
             2 0x2000 Fixture.all_mem {[ 0x3000 := Fixture.session Fixture.string_AB ]}
             eq_refl).
    intros addr Ha. change (u64 0x2000) with 0x2000 in Ha. change (u32 2) with 2 in Ha.
    assert (Hc : addr = 0x2000 \/ addr = 0x2001 \/ addr = 0x2002 \/ addr = 0x2003 \/
                 addr = 0x2004 \/ addr = 0x2005 \/ addr = 0x2006 \/ addr = 0x2007 \/
                 addr = 0x2008 \/ addr = 0x2009 \/ addr = 0x200a \/ addr = 0x200b \/
                 addr = 0x200c \/ addr = 0x200d \/ addr = 0x200e \/ addr = 0x200f)
      by lia.
    repeat (destruct Hc as [->|Hc]; [vm_compute; eauto|]). subst addr. vm_compute. eauto.
  - intros H.
    pose proof (proj1 (GetLogonSessions_returns_iff_mapped Scenario.unmapped_os
                         Fixture.empty_world 2 0x2000 ∅ ∅ eq_refl) H) as Hm.
    destruct (Hm 0x2000) as [b Hb]; [vm_compute; split; congruence|].
    vm_compute in Hb. discriminate Hb.
Defined.

Lemma faulted_run_frees_nothing_witness :
  exists w',
    GetLogonSessions Scenario.unmapped_os Fixture.empty_world = Panicked w' /\
    frees (events_since Fixture.empty_world w') = [].
Proof.
  assert (E : exists w', GetLogonSessions Scenario.unmapped_os Fixture.empty_world
                         = Panicked w').
  { eexists. vm_compute. reflexivity. }
  destruct E as (w' & E). exists w'. split; [exact E|].
  destruct (faulted_run_frees_nothing Scenario.unmapped_os Fixture.empty_world)
    as [H _].
  exact (proj1 (H w' E)).
Defined.
